(** * Ari: career-page discovery and job-board scraping

    A shallow embedding of [career_page_url_finder.py] and of
    [job_scraper.py] (all but [ensure_environment], which installs
    software), with the properties of the specification stated and settled
    over it, and further properties read off the code.

    A character is a code point below 256 and a string a sequence of
    them; text with other code points is outside the model.  The program
    folds case ([re.I], [str.lower]) only to compare with ASCII patterns
    and keywords, and among these characters a letter of such a pattern
    matches its two ASCII cases and nothing else, so the folding is
    written as the ASCII one.  (From 256 on, U+017F and U+212A match [s]
    and [k] under [re.I].)  The browser driven through Playwright
    is an explicit, arbitrary state machine ([Browser]); every awaited
    call on it either returns a value or raises. *)

From Stdlib Require Import String Ascii List Arith NArith Lia Bool Sorted.
From stdpp Require Import base gmap strings.
Import ListNotations.
Open Scope string_scope.
Open Scope list_scope.

(* stdpp freezes [String.append] under [simpl]; the proofs below compute
   with it. *)
Arguments String.append !s1 s2 : simpl nomatch.

(** ** Python string primitives *)

Module Py.

(** [s.startswith(p)] *)
Definition startswith (p s : string) : bool := String.prefix p s.

(** [s.startswith(("http://", "https://"))] *)
Definition has_http_scheme (s : string) : bool :=
  startswith "http://" s || startswith "https://" s.

Definition is_slash (c : ascii) : bool := Ascii.eqb c "/"%char.

(** [s.rstrip("/")]: every trailing slash is removed. *)
Fixpoint rstrip_slash (s : string) : string :=
  match s with
  | EmptyString => EmptyString
  | String c s' =>
      match rstrip_slash s' with
      | EmptyString => if is_slash c then EmptyString else String c EmptyString
      | r => String c r
      end
  end.

(** ASCII lower-casing of one character and of a string ([s.lower()]). *)
Definition lower_char (c : ascii) : ascii :=
  let n := nat_of_ascii c in
  if Nat.leb 65 n && Nat.leb n 90 then ascii_of_nat (n + 32) else c.

Fixpoint lower (s : string) : string :=
  match s with
  | EmptyString => EmptyString
  | String c s' => String (lower_char c) (lower s')
  end.

(** [kw in s]: [kw] occurs in [s] as a contiguous substring. *)
Fixpoint contains (kw s : string) : bool :=
  startswith kw s ||
  match s with
  | EmptyString => false
  | String _ s' => contains kw s'
  end.

(** [s.split(".")] *)
Fixpoint split_dot_aux (cur : string) (s : string) : list string :=
  match s with
  | EmptyString => [cur]
  | String c s' =>
      if Ascii.eqb c "."%char then cur :: split_dot_aux EmptyString s'
      else split_dot_aux (cur +:+ String c EmptyString) s'
  end.

Definition split_dot (s : string) : list string := split_dot_aux EmptyString s.

(** [".".join(parts)] *)
Fixpoint join_dot (parts : list string) : string :=
  match parts with
  | [] => EmptyString
  | [p] => p
  | p :: ps => p +:+ "." +:+ join_dot ps
  end.

(** [l[-2:]] *)
Definition last_two {A} (l : list A) : list A := skipn (List.length l - 2) l.

(** Truthiness of a string, of an optional string ([None] is falsy). *)
Definition truthy (s : string) : bool :=
  match s with EmptyString => false | _ => true end.

Definition truthy_opt (o : option string) : bool :=
  match o with Some s => truthy s | None => false end.

End Py.

(** ** The fragment of [re] the program uses

    Every pattern of the program is a sequence of literal text, optional
    literal text ([s?], [(?:www\.)?]) and the capturing group [([^/]+)], or
    a top-level alternation of literals.  Matching is the backtracking one
    of [re]: optional text and the group are greedy, alternatives and
    start positions are tried left to right. *)

Module Re.

Inductive token :=
| Lit (s : string)          (* literal text *)
| Opt (s : string)          (* optional literal text, greedy *)
| NonSlash.                 (* the capturing group ([^/]+), greedy *)

Definition pattern := list token.

(** The folding of [re.I] on one character, for the comparison with a
    character of a pattern: the patterns of the program are ASCII, and of
    the code points below 256 only the two ASCII cases of a letter match
    it.  Code points from 256 on, where [re.I] also folds U+017F to [s]
    and U+212A to [k], are not characters of the model. *)
Definition fold (ci : bool) (c : ascii) : ascii :=
  if ci then Py.lower_char c else c.

(** [strip ci l s]: the rest of [s] after the literal [l], if [s] starts
    with it (up to case when [ci]). *)
Fixpoint strip (ci : bool) (l s : string) : option string :=
  match l with
  | EmptyString => Some s
  | String a l' =>
      match s with
      | EmptyString => None
      | String b s' =>
          if Ascii.eqb (fold ci a) (fold ci b) then strip ci l' s' else None
      end
  end.

(** Match [p] at the start of [s]; the result lists the captured groups. *)
Fixpoint match_here (ci : bool) (p : pattern) (s : string)
  : option (list string) :=
  match p with
  | [] => Some []
  | Lit l :: r =>
      match strip ci l s with
      | Some s' => match_here ci r s'
      | None => None
      end
  | Opt l :: r =>
      match match strip ci l s with
            | Some s' => match_here ci r s'
            | None => None
            end with
      | Some caps => Some caps
      | None => match_here ci r s
      end
  | NonSlash :: r =>
      (fix grp (s : string) (acc : string) {struct s} : option (list string) :=
         match s with
         | EmptyString => None
         | String c s' =>
             if Py.is_slash c then None
             else
               let acc' := acc +:+ String c EmptyString in
               match grp s' acc' with
               | Some caps => Some caps
               | None =>
                   match match_here ci r s' with
                   | Some caps => Some (acc' :: caps)
                   | None => None
                   end
               end
         end) s EmptyString
  end.

(** [re.match(p, s)] *)
Definition re_match (ci : bool) (p : pattern) (s : string) := match_here ci p s.

(** [re.search(p, s)]: the leftmost start position that matches. *)
Fixpoint re_search (ci : bool) (p : pattern) (s : string)
  : option (list string) :=
  match match_here ci p s with
  | Some caps => Some caps
  | None =>
      match s with
      | EmptyString => None
      | String _ s' => re_search ci p s'
      end
  end.

(** [re.search(r"(a|b|...)", s, re.I)] as a truth value, for an
    alternation of literals. *)
Definition search_any (ci : bool) (alts : list string) (s : string) : bool :=
  existsb (fun a => match re_search ci [Lit a] s with
                    | Some _ => true | None => false end) alts.

End Re.

(** ** Catalogs of [career_page_url_finder.py] *)

(** [URL_PATTERNS], in declared order, repeated entries included. *)
Definition URL_PATTERNS : list string :=
  [ "/careers"; "/jobs"; "/join-us"; "/work-with-us"; "/join";
    "/job-openings"; "/vacancies"; "/positions"; "/employment";
    "/career"; "/work"; "/hiring"; "/apply"; "/job-opportunities";
    "/opportunities"; "/career-opportunities"; "/open-opportunities";
    "/current-opportunities"; "/job-opportunities";
    "/open-positions"; "/openings"; "/current-openings"; "/job-openings";
    "/company/careers"; "/company/jobs"; "/company/join-us";
    "/company/work-with-us";
    "/company/opportunities"; "/company/openings"; "/company/positions";
    "/about/careers"; "/about/jobs"; "/about/join-us"; "/about/work-with-us";
    "/about/opportunities"; "/about-us/careers"; "/about-us/jobs";
    "/team/join"; "/team/careers"; "/team/jobs"; "/join-the-team";
    "/our-team/careers"; "/our-team/jobs";
    "/life/careers"; "/life/jobs"; "/life"; "/life-at-company";
    "/hr/careers"; "/hr/jobs"; "/hr/opportunities"; "/recruitment";
    "/career-opportunities"; "/job-opportunities"; "/job-openings";
    "/us/careers"; "/usa/careers"; "/en/careers"; "/global/careers";
    "/careers/india"; "/jobs/india"; "/careers/remote" ].

Definition SUBDOMAIN_PATTERNS : list string :=
  [ "careers"; "jobs"; "work"; "employment"; "hiring"; "joinus";
    "apply"; "talent"; "hr"; "recruitment"; "join";
    "opportunities"; "team" ].

Import Re.

(** [THIRD_PARTY_PATTERNS], in declared order. *)
Definition THIRD_PARTY_PATTERNS : list pattern :=
  [ [Lit "jobs.lever.co/"; NonSlash];
    [NonSlash; Lit ".lever.co"];
    [Lit "boards.greenhouse.io/"; NonSlash];
    [Lit "jobs.greenhouse.io/"; NonSlash];
    [Lit "jobs.ashbyhq.com/"; NonSlash];
    [NonSlash; Lit ".bamboohr.com/jobs"];
    [Lit "workday."; NonSlash; Lit ".com/careers"];
    [NonSlash; Lit ".workday.com/careers"];
    [NonSlash; Lit ".recruitee.com"];
    [NonSlash; Lit ".applytojob.com"];
    [NonSlash; Lit ".breezy.hr"];
    [NonSlash; Lit ".comeet.com/jobs"];
    [NonSlash; Lit ".teamtailor.com"];
    [NonSlash; Lit ".rippling-ats.com"];
    [Lit "linkedin.com/company/"; NonSlash; Lit "/jobs"];
    [Lit "indeed.com/cmp/"; NonSlash; Lit "/jobs"];
    [Lit "smartrecruiters.com/"; NonSlash] ].

(** [LINK_TEXTS]: the regular expressions handed to the browser's
    [has_text] filter, as source text, in declared order. *)
Definition LINK_TEXTS : list string :=
  [ "career"; "job"; "employment"; "position"; "vacanc";
    "opening"; "opportunit";
    "join(\s+the)?\s+team"; "join\s+us"; "work\s+(with|for)\s+us";
    "we.?re\s+hiring"; "we\s+are\s+hiring";
    "apply\s+(now|today)"; "work\s+at"; "work\s+for";
    "explore\s+(job|career)"; "find\s+a\s+(job|career)";
    "become\s+part\s+of"; "apply\s+for";
    "current\s+(opening|position|vacanc)";
    "career\s+path"; "job\s+search"; "join\s+our\s+talent";
    "life\s+at"; "work\s+life" ].

(** The navigation labels tried by strategy 1. *)
Definition NAV_TEXTS : list string :=
  [ "company"; "about"; "about us"; "team"; "life"; "work" ].

(** The signal words tested on a page reached by strategy 0 (and after a
    search result, strategy 5), and those tested by strategy 4. *)
Definition SIGNAL_WORDS : list string :=
  [ "career"; "job"; "position"; "opening"; "opportunit"; "vacanc" ].

Definition SIGNAL_WORDS_DIRECT : list string :=
  [ "career"; "job"; "position"; "opening"; "opportunit"; "work with us";
    "employ"; "vacanc" ].

(** The heading filter of strategy 5, as source text. *)
Definition SEARCH_HEADING_RE : string :=
  "(career|job|position|opening|join|work)".

(** The pattern of [check_subdomain_urls]: [https?://(?:www\.)?([^/]+)]. *)
Definition BASE_URL_RE : pattern :=
  [Lit "http"; Opt "s"; Lit "://"; Opt "www."; NonSlash].

(** ** Pure pieces of [find_career_page] *)

(** The loop over [THIRD_PARTY_PATTERNS] of strategy 1: the match object of
    the first pattern, in declared order, that [re.search] finds in [href]. *)
Fixpoint first_search (ps : list pattern) (href : string)
  : option (list string) :=
  match ps with
  | [] => None
  | p :: ps' =>
      match re_search true p href with
      | Some caps => Some caps
      | None => first_search ps' href
      end
  end.

Definition third_party_match (href : string) : option (list string) :=
  first_search THIRD_PARTY_PATTERNS href.

(** The handling of relative URLs, written three times in the source
    (navigation menu, footer, whole page). *)
Definition resolve (base_url href : string) : string :=
  if Py.startswith "/" href then Py.rstrip_slash base_url +:+ href
  else if negb (Py.has_http_scheme href)
       then Py.rstrip_slash base_url +:+ "/" +:+ href
       else href.

(** The candidate URLs of [check_subdomain_urls]; [None] when [base_url]
    does not match [BASE_URL_RE]. *)
Definition subdomain_urls (base_url : string) : option (list string) :=
  match re_match false BASE_URL_RE base_url with
  | Some (domain :: _) =>
      let base_domain := Py.join_dot (Py.last_two (Py.split_dot domain)) in
      Some (map (fun pattern => "https://" +:+ pattern +:+ "." +:+ base_domain)
                SUBDOMAIN_PATTERNS)
  | _ => None
  end.

(** The search queries of strategy 5. *)
Definition search_queries (company_name : string) : list string :=
  [ company_name +:+ " careers";
    company_name +:+ " jobs";
    company_name +:+ " hiring";
    company_name +:+ " join team";
    company_name +:+ " careers page" ].

(** ** The spec's wording of the resolver, for comparison *)

Module SpecResolver.

(** The scheme and host of a URL: everything up to the first slash that
    follows ["://"]. *)
Fixpoint upto_slash (s : string) : string :=
  match s with
  | EmptyString => EmptyString
  | String c s' => if Py.is_slash c then EmptyString else String c (upto_slash s')
  end.

Definition scheme_host (url : string) : string :=
  if Py.startswith "https://" url
  then "https://" +:+ upto_slash (String.substring 8 (String.length url - 8) url)
  else if Py.startswith "http://" url
  then "http://" +:+ upto_slash (String.substring 7 (String.length url - 7) url)
  else url.

(** The part of a URL after its ["scheme://"] prefix. *)
Definition after_scheme (url : string) : string :=
  if Py.startswith "https://" url
  then String.substring 8 (String.length url - 8) url
  else if Py.startswith "http://" url
  then String.substring 7 (String.length url - 7) url
  else url.

(** "Must not double-slash": no ["//"] after the scheme. *)
Definition double_slash_free (url : string) : bool :=
  negb (Py.contains "//" (after_scheme url)).

End SpecResolver.

(** ** The browser and the clock

    Playwright is outside the program.  It is modelled as a deterministic
    state machine of an arbitrary state type: each awaited call is a
    [request], answered with a value or an exception and a new state.
    Leaving the [async with async_playwright()] block of
    [check_subdomain_urls] is taken to be silent. *)

Inductive exn := Error (msg : string).

Inductive res (A : Type) :=
| Ok (a : A)
| Raise (e : exn).
Arguments Ok {A} a.
Arguments Raise {A} e.

(** The page handed to [find_career_page], and the page that
    [check_subdomain_urls] opens in a browser of its own. *)
Inductive page_id := ThePage | SubdomainPage.

Inductive locator :=
| Links                                  (* page.get_by_role("link") *)
| NthLink (i : nat)                      (* element i of Links.all() *)
| LinksMatching (re : string)            (* Links.filter(has_text=re, re.I) *)
| FooterRegion                           (* page.locator("footer") *)
| FooterLinksMatching (re : string)      (* footer.get_by_role("link").filter(..) *)
| HeadingsMatching (re : string).        (* page.locator("h3").filter(..) *)

Inductive request : Type -> Type :=
| LaunchSubdomainBrowser : request unit  (* async_playwright, launch, new_page *)
| CloseSubdomainBrowser : request unit   (* browser.close() *)
| Goto (p : page_id) (url : string) (timeout : N) : request (option N)
                                         (* the response, if any: its status *)
| WaitForLoadState (timeout : N) : request unit
| WaitForTimeout (ms : N) : request unit
| Content (p : page_id) : request string
| All : request nat                      (* Links.all(): how many handles *)
| Count (l : locator) : request nat
| GetHref (l : locator) : request (option string)
                                         (* [l.first].get_attribute("href") *)
| Hover (l : locator) : request unit
| TextContent (l : locator) : request (option string)
| Click (l : locator) : request unit
| Url : request string                   (* page.url *)
| OpenSession : request unit             (* async_playwright, launch, new_context *)
| CloseSession : request unit            (* context.close(), browser.close() *)
| NewPage : request unit                 (* context.new_page() *)
| ClosePage : request unit               (* page.close() *)
| Sleep (seconds : N) : request unit.  (* asyncio.sleep *)

(** [datetime.now()] *)
Record datetime := {
  year : nat; month : nat; day : nat;
  hour : nat; minute : nat; second : nat
}.

Record World := {
  state : Type;
  perform : forall A, request A -> state -> res A * state;
  now : state -> datetime
}.
Existing Class World.

(** Ghost instrumentation of [find_career_page]: which strategy is
    reached, which navigation is issued, which handler swallows an
    exception, which [return] statement yields a URL. *)
Inductive handler :=
| HSubdomain      (* except of the subdomain loop, line 128 *)
| HLink           (* bare except of the link scan, line 160 *)
| HHomepage       (* except around strategies 1 to 3, line 219 *)
| HDirect         (* except of the URL-pattern loop, line 237 *)
| HQuery          (* except of one search query, line 270 *)
| HSearch.        (* except around strategy 5, line 272 *)

Inductive event :=
| Enter (k : nat)
| Navigate (url : string)
| Caught (h : handler)
| Found (k : nat) (url : string).

Module M.
Section Monad.
Context {W : World}.

(** Computations: a state, a log and exceptions. *)
Definition M (A : Type) : Type :=
  state W -> list event -> res A * state W * list event.

Definition ret {A} (a : A) : M A := fun w l => (Ok a, w, l).

Definition bind {A B} (m : M A) (f : A -> M B) : M B :=
  fun w l =>
    match m w l with
    | (Ok a, w', l') => f a w' l'
    | (Raise e, w', l') => (Raise e, w', l')
    end.

Definition raise {A} (e : exn) : M A := fun w l => (Raise e, w, l).

(** [try: m  except Exception as e: h e] *)
Definition try_catch {A} (m : M A) (h : exn -> M A) : M A :=
  fun w l =>
    match m w l with
    | (Ok a, w', l') => (Ok a, w', l')
    | (Raise e, w', l') => h e w' l'
    end.

Definition emit (e : event) : M unit := fun w l => (Ok tt, w, l ++ [e]).

Definition call {A} (r : request A) : M A :=
  fun w l => let (a, w') := perform W A r w in (a, w', l).

End Monad.
End M.

Import M.

Declare Scope M_scope.
Delimit Scope M_scope with M.
Notation "'let*' x ':=' m 'in' k" := (bind m (fun x => k))
  (at level 10, x name, m at level 100, k at level 200) : M_scope.
Notation "m '>>' k" := (bind m (fun _ => k))
  (at level 90, right associativity) : M_scope.
Open Scope M_scope.

(** ** [check_subdomain_urls] and [find_career_page] *)

Section Finder.
Context {W : World}.

(** A [for] loop whose body may execute [return u] ([Some u]) or fall
    through ([None]); an exception leaves the loop. *)
Fixpoint for_each {A} (body : A -> M (option string)) (xs : list A)
  : M (option string) :=
  match xs with
  | [] => ret None
  | x :: xs' =>
      let* r := body x in
      match r with
      | Some u => ret (Some u)
      | None => for_each body xs'
      end
  end.

(** The same loop with the body inside [try: ... except: continue]. *)
Fixpoint for_each_guarded {A} (h : handler) (body : A -> M (option string))
  (xs : list A) : M (option string) :=
  match xs with
  | [] => ret None
  | x :: xs' =>
      let* r := try_catch (body x) (fun _ => emit (Caught h) >> ret None) in
      match r with
      | Some u => ret (Some u)
      | None => for_each_guarded h body xs'
      end
  end.

Definition goto (p : page_id) (url : string) (timeout : N)
  : M (option N) :=
  emit (Navigate url) >> call (Goto p url timeout).

(** [response and response.status < 400] *)
Definition response_ok (response : option N) : bool :=
  match response with
  | Some status => N.ltb status 400%N
  | None => false
  end.

(** Strategy 0. *)
Definition check_subdomain_urls (base_url company_name : string)
  : M (option string) :=
  match subdomain_urls base_url with
  | None => ret None
  | Some urls =>
      call LaunchSubdomainBrowser >>
      let* r :=
        for_each_guarded HSubdomain
          (fun url =>
             let* response := goto SubdomainPage url 8000%N in
             if response_ok response then
               let* content := call (Content SubdomainPage) in
               if search_any true SIGNAL_WORDS content then
                 call CloseSubdomainBrowser >>
                 emit (Found 0 url) >> ret (Some url)
               else ret None
             else ret None)
          urls in
      match r with
      | Some url => ret (Some url)
      | None => call CloseSubdomainBrowser >> ret None
      end
  end.

(** The scan over [LINK_TEXTS] shared by strategies 1, 2 and 3: the first
    link text with a matching link that has an href wins; the href goes
    through [resolve]. *)
Definition career_link_scan (k : nat) (links : string -> locator)
  (base_url : string) : M (option string) :=
  for_each
    (fun career_text =>
       let* n := call (Count (links career_text)) in
       if Nat.ltb 0 n then
         let* href := call (GetHref (links career_text)) in
         match href with
         | Some h =>
             if Py.truthy h then
               let url := resolve base_url h in
               emit (Found k url) >> ret (Some url)
             else ret None
         | None => ret None
         end
       else ret None)
    LINK_TEXTS.

(** The third-party scan of strategy 1: the href is returned as found. *)
Definition third_party_scan (n : nat) : M (option string) :=
  for_each_guarded HLink
    (fun i =>
       let* href := call (GetHref (NthLink i)) in
       match href with
       | Some h =>
           if Py.truthy h then
             match third_party_match h with
             | Some _ => emit (Found 1 h) >> ret (Some h)
             | None => ret None
             end
           else ret None
       | None => ret None
       end)
    (seq 0 n).

(** Strategy 1, after the homepage is loaded. *)
Definition navigation_menus (base_url : string) : M (option string) :=
  for_each
    (fun nav_text =>
       let company_nav := LinksMatching ("^" +:+ nav_text +:+ "$") in
       let* n := call (Count company_nav) in
       if Nat.ltb 0 n then
         call (Hover company_nav) >>
         call (WaitForTimeout 1000%N) >>
         career_link_scan 1 LinksMatching base_url
       else ret None)
    NAV_TEXTS.

Definition strategy_navigation (base_url : string) : M (option string) :=
  goto ThePage base_url 20000%N >>
  call (WaitForLoadState 10000%N) >>
  let* n := call All in
  let* r := third_party_scan n in
  match r with
  | Some u => ret (Some u)
  | None => navigation_menus base_url
  end.

(** Strategy 2. *)
Definition strategy_footer (base_url : string) : M (option string) :=
  let* n := call (Count FooterRegion) in
  if Nat.ltb 0 n then career_link_scan 2 FooterLinksMatching base_url
  else ret None.

(** Strategy 3. *)
Definition strategy_full_page (base_url : string) : M (option string) :=
  career_link_scan 3 LinksMatching base_url.

(** Strategies 1 to 3, inside their common [try]. *)
Definition homepage_strategies (base_url : string) : M (option string) :=
  try_catch
    (emit (Enter 1) >>
     let* r := strategy_navigation base_url in
     match r with
     | Some u => ret (Some u)
     | None =>
         emit (Enter 2) >>
         let* r := strategy_footer base_url in
         match r with
         | Some u => ret (Some u)
         | None => emit (Enter 3) >> strategy_full_page base_url
         end
     end)
    (fun _ => emit (Caught HHomepage) >> ret None).

(** Strategy 4. *)
Definition strategy_direct (base_url : string) : M (option string) :=
  for_each_guarded HDirect
    (fun pattern =>
       let test_url := Py.rstrip_slash base_url +:+ pattern in
       let* response := goto ThePage test_url 10000%N in
       if response_ok response then
         let* content := call (Content ThePage) in
         if search_any true SIGNAL_WORDS_DIRECT content then
           emit (Found 4 test_url) >> ret (Some test_url)
         else ret None
       else ret None)
    URL_PATTERNS.

(** Strategy 5. *)
Definition strategy_search (company_name : string) : M (option string) :=
  try_catch
    (for_each_guarded HQuery
       (fun query =>
          goto ThePage ("https://www.google.com/search?q=" +:+ query) 15000%N >>
          call (WaitForLoadState 10000%N) >>
          let results := HeadingsMatching SEARCH_HEADING_RE in
          let* n := call (Count results) in
          if Nat.ltb 0 n then
            call (TextContent results) >>
            call (Click results) >>
            call (WaitForLoadState 10000%N) >>
            let* current_url := call Url in
            let* content := call (Content ThePage) in
            if search_any true SIGNAL_WORDS content then
              emit (Found 5 current_url) >> ret (Some current_url)
            else ret None
          else ret None)
       (search_queries company_name))
    (fun _ => emit (Caught HSearch) >> ret None).

Definition find_career_page (base_url company_name : string)
  : M (option string) :=
  emit (Enter 0) >>
  let* subdomain_url := check_subdomain_urls base_url company_name in
  if Py.truthy_opt subdomain_url then ret subdomain_url
  else
    let* r := homepage_strategies base_url in
    match r with
    | Some u => ret (Some u)
    | None =>
        emit (Enter 4) >>
        let* r := strategy_direct base_url in
        match r with
        | Some u => ret (Some u)
        | None =>
            emit (Enter 5) >>
            let* r := strategy_search company_name in
            match r with
            | Some u => ret (Some u)
            | None => ret None
            end
        end
    end.

End Finder.

(** ** The result store and [process_companies] *)

(** A row of the output CSV, with the columns
    [company, website, career_url, timestamp]. *)
Record store_row := {
  company : string;
  website : string;
  career_url : string;
  timestamp : string
}.

(** A row of the input CSV as [csv.DictReader] yields it, read through
    [row.get]: a column that the header lacks is [None]; rows are as wide
    as the header, so a cell is a string.  A record that stops before a
    column has Python's [None] there and is not a row of this type: the
    run on such records is [OnFiles.process_companies], further down,
    which agrees with the rows on the records that are wide enough. *)
Record input_row := {
  col_company : option string;
  col_name : option string;
  col_website : option string;
  col_url : option string
}.

(** [row.get('company', row.get('name', ''))] *)
Definition company_name_of (row : input_row) : string :=
  match col_company row with
  | Some c => c
  | None => match col_name row with Some n => n | None => "" end
  end.

(** [company.get('website', company.get('url', ''))], then the coercion
    to a scheme, for a row that has its cells; without the website cell
    [website.startswith] raises, see [OnFiles.process_loop]. *)
Definition website_of (row : input_row) : string :=
  let website :=
    match col_website row with
    | Some u => u
    | None => match col_url row with Some u => u | None => "" end
    end in
  if negb (Py.has_http_scheme website) then "https://" +:+ website
  else website.

Definition digit (n : nat) : ascii := ascii_of_nat (48 + n mod 10).

Definition pad2 (n : nat) : string :=
  String (digit (n / 10)) (String (digit n) EmptyString).

Definition pad4 (n : nat) : string :=
  String (digit (n / 1000)) (String (digit (n / 100)) (pad2 n)).

(** [strftime('%Y-%m-%d %H:%M:%S')] *)
Definition strftime (t : datetime) : string :=
  pad4 (year t) +:+ "-" +:+ pad2 (month t) +:+ "-" +:+ pad2 (day t) +:+ " "
  +:+ pad2 (hour t) +:+ ":" +:+ pad2 (minute t) +:+ ":" +:+ pad2 (second t).

(** The loop that fills [processed_companies], over the rows of an output
    file that starts with the header of the tool; what [csv.DictReader]
    makes of any file is [OnFiles.load_processed]. *)
Definition load_processed (rows : list store_row) : gset string :=
  fold_left
    (fun processed row =>
       if Py.truthy (career_url row) then {[ company row ]} ∪ processed
       else processed)
    rows ∅.

(** The loop that fills [companies]. *)
Definition companies_to_process (processed : gset string)
  (input : list input_row) : list input_row :=
  List.filter
    (fun row => negb (bool_decide (company_name_of row ∈ processed))) input.

(** The discovery of one company, as instrumentation records it: the
    company name, what [find_career_page] returned or raised, and the trace
    of the call. *)
Record discovery := {
  subject : string;
  outcome : res (option string);
  trace : list event
}.

(** What a run leaves behind: the store, and the discoveries it made. *)
Record run := {
  rows : list store_row;
  journal : list discovery
}.

(** The [career_url] written for an outcome: [career_url or ''], and [''] in
    the [except] branch. *)
Definition career_url_of (found : res (option string)) : string :=
  match found with
  | Ok (Some u) => u
  | Ok None => ""
  | Raise _ => ""
  end.

Section Recorder.
Context {W : World}.

(** [append_to_csv]: one row more at the end of the file; the header and
    the creation of the file are not represented, and writing is taken
    not to fail. *)
Definition append_to_csv (r : run) (row : store_row) : run :=
  {| rows := rows r ++ [row]; journal := journal r |}.

Definition record_discovery (r : run) (d : discovery) : run :=
  {| rows := rows r; journal := journal r ++ [d] |}.

(** The body of the loop over [companies]; an exception of [new_page] or
    of the [finally] block ends the run. *)
Fixpoint process_loop (companies : list input_row) (w : state W) (r : run)
  : res unit * state W * run :=
  match companies with
  | [] => (Ok tt, w, r)
  | company :: rest =>
      let company_name := company_name_of company in
      let website := website_of company in
      match perform W _ NewPage w with
      | (Raise e, w1) => (Raise e, w1, r)
      | (Ok _, w1) =>
          let '(found, w2, t) :=
            find_career_page website company_name w1 [] in
          let r1 :=
            record_discovery r
              {| subject := company_name; outcome := found; trace := t |} in
          let result :=
            {| company := company_name;
               website := website;
               career_url := career_url_of found;
               timestamp := strftime (now W w2) |} in
          let r2 := append_to_csv r1 result in
          (* finally *)
          match perform W _ ClosePage w2 with
          | (Raise e, w3) => (Raise e, w3, r2)
          | (Ok _, w3) =>
              match perform W _ (Sleep 2%N) w3 with
              | (Raise e, w4) => (Raise e, w4, r2)
              | (Ok _, w4) => process_loop rest w4 r2
              end
          end
      end
  end.

Definition process_companies (input : list input_row)
  (output : list store_row) (w : state W) : res unit * state W * run :=
  let processed_companies := load_processed output in
  let companies := companies_to_process processed_companies input in
  let r0 := {| rows := output; journal := [] |} in
  match perform W _ OpenSession w with
  | (Raise e, w1) => (Raise e, w1, r0)
  | (Ok _, w1) =>
      match process_loop companies w1 r0 with
      | (Raise e, w2, r) => (Raise e, w2, r)
      | (Ok _, w2, r) =>
          match perform W _ CloseSession w2 with
          | (Raise e, w3) => (Raise e, w3, r)
          | (Ok _, w3) => (Ok tt, w3, r)
          end
      end
  end.

End Recorder.

(** ** [job_scraper.py]: the loader and the filter *)

Module Scraper.

(** A cell of the data frame that [pd.read_csv] builds. *)
Inductive cell :=
| CStr (s : string)
| CNaN                      (* an empty cell *)
| CInt (z : Z)
| CFloat (mantissa exponent : Z)
| CBool (b : bool).

(** A row of a data frame: its first cell and the others. *)
Record frame_row := { first_cell : cell; other_cells : list cell }.

(** [row.iloc[0]] and [row.iloc[-1]] *)
Definition iloc_first (r : frame_row) : cell := first_cell r.
Definition iloc_last (r : frame_row) : cell :=
  List.last (other_cells r) (first_cell r).

Record job_board := { board_company : cell; board_url : string }.

Fixpoint load_job_boards (df : list frame_row) : list job_board :=
  match df with
  | [] => []
  | row :: df' =>
      let company_name := iloc_first row in
      let job_board_url := iloc_last row in
      match job_board_url with
      | CStr u =>
          if Py.startswith "http://" u || Py.startswith "https://" u
          then {| board_company := company_name; board_url := u |}
               :: load_job_boards df'
          else load_job_boards df'
      | _ => load_job_boards df'
      end
  end.


(** A JSON value, and a parsed job: a [dict]. *)
Inductive json :=
| JStr (s : string)
| JNull
| JNum (z : Z)
| JBool (b : bool)
| JCompound.                (* a list or an object *)

Definition job := gmap string json.

(** [job.get(key, '').lower()]; a value that is no string has no [lower]. *)
Definition get_lower (j : job) (key : string) : res string :=
  match j !! key with
  | None => Ok (Py.lower "")
  | Some (JStr s) => Ok (Py.lower s)
  | Some _ => Raise (Error "AttributeError")
  end.

Definition role_keywords : list string :=
  [ "product manager"; "product owner"; "product lead" ].
Definition seniority_keywords : list string :=
  [ "senior"; "group"; "staff"; "lead"; "principal"; "head" ].
Definition location_keywords : list string :=
  [ "bangalore"; "bengaluru"; "india"; "remote" ].

Definition role_match (title : string) : bool :=
  existsb (fun keyword => Py.contains keyword (Py.lower title)) role_keywords.

Definition seniority_match (title : string) : bool :=
  existsb (fun keyword => Py.contains keyword (Py.lower title))
          seniority_keywords.

Definition location_match (location description : string) : bool :=
  existsb (fun keyword => Py.contains keyword (Py.lower location)
                          || Py.contains keyword (Py.lower description))
          location_keywords.

(** The filtering loop of [parse_job_results]. *)
Fixpoint filter_jobs (all_jobs : list job) : res (list job) :=
  match all_jobs with
  | [] => Ok []
  | j :: rest =>
      match get_lower j "title" with
      | Raise e => Raise e
      | Ok title =>
      match get_lower j "description" with
      | Raise e => Raise e
      | Ok description =>
      match get_lower j "location" with
      | Raise e => Raise e
      | Ok location =>
          let keep := role_match title && seniority_match title
                      && location_match location description in
          match filter_jobs rest with
          | Raise e => Raise e
          | Ok filtered_jobs =>
              Ok (if keep then j :: filtered_jobs else filtered_jobs)
          end
      end end end
  end.

End Scraper.

(** * Vocabulary of the statements *)

(** ** Strings *)

(** The last character of a string is a slash. *)
Fixpoint ends_with_slash (s : string) : bool :=
  match s with
  | EmptyString => false
  | String c EmptyString => Py.is_slash c
  | String _ s' => ends_with_slash s'
  end.

Fixpoint all_slashes (s : string) : bool :=
  match s with
  | EmptyString => true
  | String c s' => Py.is_slash c && all_slashes s'
  end.

(** [kw] occurs in [s]. *)
Definition occurs_in (kw s : string) : Prop :=
  exists pre post, s = pre +:+ kw +:+ post.


(** ** Jobs *)


(** Every field the filter reads is a string or is missing. *)
Definition textual (j : Scraper.job) : Prop :=
  forall key, In key ["title"; "description"; "location"] ->
              j !! key = None \/ exists s, j !! key = Some (Scraper.JStr s).

Definition senior_pm : Scraper.job :=
  {[ "title" := Scraper.JStr "Senior Product Manager";
     "location" := Scraper.JStr "Bengaluru, India" ]}.

Definition engineer : Scraper.job :=
  {[ "title" := Scraper.JStr "Staff Engineer";
     "description" := Scraper.JStr "Remote" ]}.

(** ** Traces *)

Definition entered (t : list event) : list nat :=
  flat_map (fun e => match e with Enter k => [k] | _ => [] end) t.

Definition founds (t : list event) : list (nat * string) :=
  flat_map (fun e => match e with Found k u => [(k, u)] | _ => [] end) t.

Definition navigations (t : list event) : list string :=
  flat_map (fun e => match e with Navigate u => [u] | _ => [] end) t.

Definition caught (t : list event) : list handler :=
  flat_map (fun e => match e with Caught h => [h] | _ => [] end) t.

(** A trace in which no strategy is entered and none yields. *)
Definition quiet (t : list event) : Prop := entered t = [] /\ founds t = [].

(** [t] ends with the yield of [u] by strategy [k], the only yield of [t]. *)
Definition yields (k : nat) (u : string) (t : list event) : Prop :=
  exists pre, t = pre ++ [Found k u] /\ founds pre = [].

(** The result and trace of a part of strategy [k]: quiet, up to a final
    yield of a URL in [U] when a URL is returned. *)
Definition piece (k : nat) (U : string -> Prop)
  (r : res (option string)) (t : list event) : Prop :=
  match r with
  | Ok (Some u) => U u /\ exists pre, t = pre ++ [Found k u] /\ quiet pre
  | _ => quiet t
  end.

Definition returns {A} (r : res A) : Prop := exists a, r = Ok a.

Section TraceLogic.
Context {W : World}.

(** The result and the trace of a run from an empty log. *)
Definition run_result {A} (m : M A) (w : state W) : res A :=
  fst (fst (m w [])).

Definition run_trace {A} (m : M A) (w : state W) : list event :=
  snd (m w []).

(** From every state and log, [m] extends the log by some [t] and ends
    with some [r] such that [Q r t]. *)
Definition sat {A} (m : M A) (Q : res A -> list event -> Prop) : Prop :=
  forall w l, exists t, snd (m w l) = l ++ t /\ Q (fst (fst (m w l))) t.

(** [m] only adds to the log. *)
Definition extends {A} (m : M A) : Prop := sat m (fun _ _ => True).

End TraceLogic.

(** ** The URLs a strategy can yield *)

Definition resolved (base_url u : string) : Prop :=
  exists h, Py.truthy h = true /\ u = resolve base_url h.

Definition third_party (u : string) : Prop :=
  Py.truthy u = true /\ exists caps, third_party_match u = Some caps.

Definition direct (base_url u : string) : Prop :=
  exists p, In p URL_PATTERNS /\ u = Py.rstrip_slash base_url +:+ p.

(** Strategy 1 yields a third-party href as found, or a resolved href. *)
Definition navigation_url (base_url u : string) : Prop :=
  third_party u \/ resolved base_url u.

(** Where the URL that strategy [k] yields comes from. *)
Definition origin (base_url : string) (k : nat) (u : string) : Prop :=
  match k with
  | 0 => Py.has_http_scheme u = true
  | 1 => navigation_url base_url u
  | 2 | 3 => resolved base_url u
  | 4 => direct base_url u
  | _ => True
  end.

(** ** The shape of a run of the chain *)

(** The strategies entered inside the [try] around strategies 1 to 3. *)
Definition homepage_prefix (es : list nat) : Prop :=
  es = [1] \/ es = [1; 2] \/ es = [1; 2; 3].

(** The strategies entered when strategy [k] yields. *)
Definition reached (k : nat) (es : list nat) : Prop :=
  (k <= 3 /\ es = seq 0 (S k)) \/
  exists h, homepage_prefix h /\
            ((k = 4 /\ es = 0 :: h ++ [4]) \/ (k = 5 /\ es = 0 :: h ++ [4; 5])).

Definition homepage_inner_spec (base_url : string)
  (r : res (option string)) (t : list event) : Prop :=
  match r with
  | Ok (Some u) =>
      exists k, 1 <= k <= 3 /\ yields k u t /\ entered t = seq 1 k /\
                origin base_url k u
  | Ok None => founds t = [] /\ entered t = [1; 2; 3]
  | Raise _ => founds t = [] /\ homepage_prefix (entered t)
  end.

Definition homepage_spec (base_url : string)
  (r : res (option string)) (t : list event) : Prop :=
  match r with
  | Ok (Some u) =>
      exists k, 1 <= k <= 3 /\ yields k u t /\ entered t = seq 1 k /\
                origin base_url k u
  | Ok None => founds t = [] /\ homepage_prefix (entered t)
  | Raise _ => False
  end.

Definition chain_spec (base_url : string)
  (r : res (option string)) (t : list event) : Prop :=
  match r with
  | Ok (Some u) =>
      exists k, yields k u t /\ reached k (entered t) /\ origin base_url k u
  | Ok None =>
      founds t = [] /\
      exists h, homepage_prefix h /\ entered t = 0 :: h ++ [4; 5]
  | Raise _ => founds t = [] /\ entered t = [0]
  end.

(** The strategies of [es] are entered in increasing order, from 0 on. *)
Definition in_order (es : list nat) : Prop :=
  StronglySorted lt es /\ Forall (fun k => k < 6) es /\ hd_error es = Some 0.

Definition search_url (query : string) : string :=
  "https://www.google.com/search?q=" +:+ query.

(** Every candidate of strategies 0, 4 and 5 was navigated to. *)
Definition all_candidates_tried (base_url company_name : string)
  (t : list event) : Prop :=
  (forall urls, subdomain_urls base_url = Some urls ->
                forall u, In u urls -> In u (navigations t)) /\
  (forall p, In p URL_PATTERNS ->
             In (Py.rstrip_slash base_url +:+ p) (navigations t)) /\
  (forall q, In q (search_queries company_name) ->
             In (search_url q) (navigations t)).

(** ** The recorder *)


(** ** Scripted browsers *)

Definition a_moment : datetime :=
  {| year := 2025; month := 3; day := 14; hour := 9; minute := 26;
     second := 53 |}.

(** A browser without memory: every request has a fixed answer. *)
Definition scripted (answer : forall A, request A -> res A) : World :=
  {| state := unit;
     perform := fun A rq _ => (answer A rq, tt);
     now := fun _ => a_moment |}.

Definition unreachable : exn := Error "net::ERR_NAME_NOT_RESOLVED".

(** A site without career subdomains whose homepage has two links, the
    second a protocol-relative link to the company's Lever board. *)
Definition lever_site (A : Type) (rq : request A) : res A :=
  match rq in request T return res T with
  | LaunchSubdomainBrowser => Ok tt
  | CloseSubdomainBrowser => Ok tt
  | Goto SubdomainPage _ _ => Raise unreachable
  | Goto ThePage _ _ => Ok (Some 200%N)
  | WaitForLoadState _ => Ok tt
  | WaitForTimeout _ => Ok tt
  | Content _ => Ok ""
  | All => Ok 2
  | Count _ => Ok 0
  | GetHref (NthLink 0) => Ok (Some "/about")
  | GetHref (NthLink 1) => Ok (Some "//jobs.lever.co/acme")
  | GetHref _ => Ok None
  | Hover _ => Ok tt
  | TextContent _ => Ok None
  | Click _ => Ok tt
  | Url => Ok "about:blank"
  | OpenSession => Ok tt
  | CloseSession => Ok tt
  | NewPage => Ok tt
  | ClosePage => Ok tt
  | Sleep _ => Ok tt
  end.

(** A site without career subdomains whose homepage has a "Company" menu
    that cannot be hovered and a footer with a "Careers" link to
    [/careers]; no other page of the site exists. *)
Definition hover_fails_site (A : Type) (rq : request A) : res A :=
  match rq in request T return res T with
  | LaunchSubdomainBrowser => Ok tt
  | CloseSubdomainBrowser => Ok tt
  | Goto SubdomainPage _ _ => Raise unreachable
  | Goto ThePage url _ =>
      Ok (Some (if String.eqb url "https://acme.com" then 200%N else 404%N))
  | WaitForLoadState _ => Ok tt
  | WaitForTimeout _ => Ok tt
  | Content _ => Ok "Page not found"
  | All => Ok 0
  | Count (LinksMatching re) =>
      Ok (if String.eqb re "^company$" || String.eqb re "career" then 1 else 0)
  | Count FooterRegion => Ok 1
  | Count (FooterLinksMatching re) =>
      Ok (if String.eqb re "career" then 1 else 0)
  | Count _ => Ok 0
  | GetHref (LinksMatching _) => Ok (Some "/careers")
  | GetHref (FooterLinksMatching _) => Ok (Some "/careers")
  | GetHref _ => Ok None
  | Hover _ => Raise (Error "Timeout 30000ms exceeded")
  | TextContent _ => Ok None
  | Click _ => Ok tt
  | Url => Ok "about:blank"
  | OpenSession => Ok tt
  | CloseSession => Ok tt
  | NewPage => Ok tt
  | ClosePage => Ok tt
  | Sleep _ => Ok tt
  end.


Definition initech : input_row :=
  {| col_company := Some "Initech"; col_name := None;
     col_website := Some "initech.com"; col_url := None |}.

Definition acme_done : store_row :=
  {| company := "Acme"; website := "https://acme.com";
     career_url := "https://jobs.lever.co/acme";
     timestamp := "2025-03-14 09:26:53" |}.

(** ** The itinerary of the chain *)

(** The candidates of strategy 0; none when the website does not match. *)
Definition subdomain_candidates (base_url : string) : list string :=
  match subdomain_urls base_url with
  | Some urls => urls
  | None => []
  end.

Definition direct_candidates (base_url : string) : list string :=
  map (fun p => Py.rstrip_slash base_url +:+ p) URL_PATTERNS.

Definition search_candidates (company_name : string) : list string :=
  map search_url (search_queries company_name).

(** Every URL the chain can navigate to, in the order it would. *)
Definition itinerary (base_url company_name : string) : list string :=
  subdomain_candidates base_url ++ [base_url] ++
  direct_candidates base_url ++ search_candidates company_name.

(** The navigations of [t] follow [L] from its start: all of it when
    nothing is returned, an initial part of it otherwise. *)
Definition stops_within (L : list string) (r : res (option string))
  (t : list event) : Prop :=
  match r with
  | Ok None => navigations t = L
  | _ => exists rest, L = navigations t ++ rest
  end.

Section Silent.
Context {W : World}.

(** [m] issues no navigation. *)
Definition silent {A} (m : M A) : Prop :=
  sat m (fun _ t => navigations t = []).

End Silent.


(** ** The website as strategy 0 reads it *)

(** The capturing group [([^/]+)] followed by the rest [r] of a pattern,
    with the text captured so far: the loop inside [match_here]. *)
Definition group (ci : bool) (r : pattern) : string -> string -> option (list string) :=
  fix grp (s : string) (acc : string) {struct s} : option (list string) :=
    match s with
    | EmptyString => None
    | String c s' =>
        if Py.is_slash c then None
        else
          let acc' := acc +:+ String c EmptyString in
          match grp s' acc' with
          | Some caps => Some caps
          | None =>
              match match_here ci r s' with
              | Some caps => Some (acc' :: caps)
              | None => None
              end
          end
    end.

(** What follows the scheme of a website, if it has one. *)
Definition after_http (url : string) : option string :=
  if Py.startswith "https://" url
  then Some (String.substring 8 (String.length url - 8) url)
  else if Py.startswith "http://" url
  then Some (String.substring 7 (String.length url - 7) url)
  else None.

(** A host without its leading ["www."], unless nothing else is left. *)
Definition strip_www (host : string) : string :=
  if Py.startswith "www." host
  then match String.substring 4 (String.length host - 4) host with
       | EmptyString => host
       | h => h
       end
  else host.

(** The domain that [BASE_URL_RE] captures, in plain string terms: the
    text after the scheme up to the first slash, without a leading
    ["www."]; none when that text is empty. *)
Definition host_of (url : string) : option string :=
  match after_http url with
  | None => None
  | Some s =>
      match SpecResolver.upto_slash s with
      | EmptyString => None
      | String c h => Some (strip_www (String c h))
      end
  end.

(** [base_domain] of [check_subdomain_urls]. *)
Definition base_domain_of (domain : string) : string :=
  Py.join_dot (Py.last_two (Py.split_dot domain)).

(** No slash, no dot in a string. *)
Fixpoint slash_free (s : string) : bool :=
  match s with
  | EmptyString => true
  | String c s' => negb (Py.is_slash c) && slash_free s'
  end.

Fixpoint dot_free (s : string) : bool :=
  match s with
  | EmptyString => true
  | String c s' => negb (Ascii.eqb c "."%char) && dot_free s'
  end.


(** ** More scripted browsers *)

(** The site of [hover_fails_site] with a menu that can be hovered. *)
Definition menu_site (A : Type) (rq : request A) : res A :=
  match rq in request T return res T with
  | Hover _ => Ok tt
  | rq' => hover_fails_site _ rq'
  end.


(** The site of [lever_site] when no second browser can be launched. *)
Definition no_browser_site (A : Type) (rq : request A) : res A :=
  match rq in request T return res T with
  | LaunchSubdomainBrowser => Raise (Error "BrowserType.launch: failed")
  | rq' => lever_site _ rq'
  end.

(** ** The output file of [process_companies], record by record *)

Module Csv.

(** A CSV file as the [csv] module writes and reads it: its records, each
    a list of fields; [None] when there is no such file. *)
Definition record := list string.
Definition file := option (list record).

Definition fieldnames : record :=
  [ "company"; "website"; "career_url"; "timestamp" ].

(** [DictWriter.writerow] of a result. *)
Definition record_of (row : store_row) : record :=
  [ company row; website row; career_url row; timestamp row ].

(** [append_to_csv]: the header goes first when there was no file. *)
Definition append_to_csv (f : file) (row_dict : store_row) : file :=
  match f with
  | None => Some [fieldnames; record_of row_dict]
  | Some records => Some (records ++ [record_of row_dict])
  end.

(** [row.get(key)] for a row of [csv.DictReader] with the field names
    [header]: the fields are paired with the names in order, a later pair
    replaces an earlier one with the same name, a name without field gets
    [None], a field without name is set aside. *)
Definition get (header r : record) (key : string) : option string :=
  fold_left
    (fun found kv => if String.eqb (fst kv) key then snd kv else found)
    (combine header
       (map Some r ++ repeat None (List.length header - List.length r)))
    None.

(** The loop that fills [processed_companies], on the file: the first
    record gives the field names, blank records are passed over. *)
Definition load_processed (f : file) : gset string :=
  match f with
  | Some (header :: data) =>
      fold_left
        (fun processed r =>
           match r with
           | [] => processed
           | _ =>
               match get header r "career_url" with
               | Some u =>
                   if Py.truthy u then
                     match get header r "company" with
                     | Some c => {[ c ]} ∪ processed
                     | None => processed
                     end
                   else processed
               | None => processed
               end
           end)
        data ∅
  | _ => ∅
  end.

Section Run.
Context {W : World}.

(** The loop over [companies], writing to the file. *)
Fixpoint process_loop (companies : list input_row) (w : state W)
  (output_csv : file) (journal : list discovery)
  : res unit * state W * file * list discovery :=
  match companies with
  | [] => (Ok tt, w, output_csv, journal)
  | company :: rest =>
      let company_name := company_name_of company in
      let website := website_of company in
      match perform W _ NewPage w with
      | (Raise e, w1) => (Raise e, w1, output_csv, journal)
      | (Ok _, w1) =>
          let '(found, w2, t) :=
            find_career_page website company_name w1 [] in
          let journal1 :=
            journal ++ [ {| subject := company_name; outcome := found;
                            trace := t |} ] in
          let result :=
            {| company := company_name;
               website := website;
               career_url := career_url_of found;
               timestamp := strftime (now W w2) |} in
          let written := append_to_csv output_csv result in
          (* finally *)
          match perform W _ ClosePage w2 with
          | (Raise e, w3) => (Raise e, w3, written, journal1)
          | (Ok _, w3) =>
              match perform W _ (Sleep 2%N) w3 with
              | (Raise e, w4) => (Raise e, w4, written, journal1)
              | (Ok _, w4) => process_loop rest w4 written journal1
              end
          end
      end
  end.

(** [process_companies] on the file: the file is created with its header
    when it is missing, then read, then appended to. *)
Definition process_companies (input : list input_row) (output_csv : file)
  (w : state W) : res unit * state W * file * list discovery :=
  let created :=
    match output_csv with
    | None => Some [fieldnames]
    | Some _ => output_csv
    end in
  let processed_companies := load_processed created in
  let companies := companies_to_process processed_companies input in
  match perform W _ OpenSession w with
  | (Raise e, w1) => (Raise e, w1, created, [])
  | (Ok _, w1) =>
      match process_loop companies w1 created [] with
      | (Raise e, w2, written, journal) => (Raise e, w2, written, journal)
      | (Ok _, w2, written, journal) =>
          match perform W _ CloseSession w2 with
          | (Raise e, w3) => (Raise e, w3, written, journal)
          | (Ok _, w3) => (Ok tt, w3, written, journal)
          end
      end
  end.

End Run.

End Csv.

(** ** [job_scraper.py]: the agent, the collection of jobs, the export *)

(** The fragment of [re] that [parse_job_results] uses: alternatives made
    of literal characters and of [[\s\S]*]. *)
Module ReAny.

Inductive item :=
| Chr (c : ascii)           (* one literal character *)
| AnyStar.                  (* [\s\S]*, greedy *)

Definition branch := list item.

(** Match [p] at the start of [s]: the text matched and what follows it.
    The star takes as many characters as it can and gives them back one
    by one until the rest of the branch matches. *)
Fixpoint match_branch (p : branch) (s : string) : option (string * string) :=
  match p with
  | [] => Some (EmptyString, s)
  | Chr c :: r =>
      match s with
      | EmptyString => None
      | String a s' =>
          if Ascii.eqb a c then
            match match_branch r s' with
            | Some (m, rest) => Some (String a m, rest)
            | None => None
            end
          else None
      end
  | AnyStar :: r =>
      (fix star (s : string) : option (string * string) :=
         match s with
         | EmptyString => match_branch r EmptyString
         | String a s' =>
             match star s' with
             | Some (m, rest) => Some (String a m, rest)
             | None => match_branch r s
             end
         end) s
  end.

(** [A|B]: the first alternative that matches. *)
Fixpoint match_alt (bs : list branch) (s : string) : option (string * string) :=
  match bs with
  | [] => None
  | b :: bs' =>
      match match_branch b s with
      | Some found => Some found
      | None => match_alt bs' s
      end
  end.

(** [re.findall] for a pattern that is one group and matches no empty
    text: the matches from left to right, each search starting where the
    last match ended.  [skip] counts the characters of the last match that
    are still to be passed. *)
Fixpoint findall_from (bs : list branch) (skip : nat) (s : string)
  : list string :=
  match s with
  | EmptyString => []
  | String _ s' =>
      match skip with
      | S k => findall_from bs k s'
      | 0 =>
          match match_alt bs s with
          | Some (m, _) => m :: findall_from bs (String.length m - 1) s'
          | None => findall_from bs 0 s'
          end
      end
  end.

Definition findall (bs : list branch) (s : string) : list string :=
  findall_from bs 0 s.

End ReAny.

Module JobScraper.
Import ReAny Scraper.

(** A Python value: a scalar (as in a cell of a data frame), [None], a
    list or a [dict] with string keys. *)
Unset Elimination Schemes.
Inductive value :=
| VScalar (c : cell)
| VNone
| VList (items : list value)
| VDict (fields : gmap string value).
Set Elimination Schemes.

Definition VStr (s : string) : value := VScalar (CStr s).
Definition VInt (z : Z) : value := VScalar (CInt z).
Definition VBool (b : bool) : value := VScalar (CBool b).

(** What the proxy-lite agent is to the program: [RunnerConfig.from_dict],
    [Runner(config=config)], [runner.run] under [asyncio.wait_for], and
    [asyncio.sleep].  [result.result] is a string. *)
Inductive run_outcome :=
| Answer (text : string)
| TimedOut                  (* asyncio.TimeoutError *)
| Failed (e : exn).         (* any other Exception *)

Record Agent := {
  agent_state : Type;
  from_dict : value -> agent_state -> res unit * agent_state;
  new_runner : value -> agent_state -> res unit * agent_state;
  run_for : N -> string -> agent_state -> run_outcome * agent_state;
  sleep : N -> agent_state -> agent_state
}.

(** The result of [scrape_job_board]. *)
Record scrape_result := {
  result_company : cell;
  source_url : string;
  result_text : string
}.

Definition per_site_timeout : N := 600.
Definition max_steps : Z := 50.

(** The dictionary given to [RunnerConfig.from_dict]. *)
Definition runner_config (url : string) (headless : bool) : value :=
  VDict {[
    "environment" := VDict {[
      "name" := VStr "webbrowser";
      "homepage" := VStr url;
      "headless" := VBool headless;
      "viewport_width" := VInt 1280;
      "viewport_height" := VInt 1080;
      "screenshot_delay" := VScalar (CFloat 2 0);
      "include_poi_text" := VBool true ]};
    "solver" := VDict {[
      "name" := VStr "simple";
      "agent" := VDict {[
        "name" := VStr "proxy_lite";
        "client" := VDict {[
          "name" := VStr "convergence";
          "model_id" := VStr "convergence-ai/proxy-lite-3b";
          "api_base" := VStr "https://convergence-ai-demo-api.hf.space/v1"
        ]} ]} ]};
    "max_steps" := VInt max_steps;
    "action_timeout" := VInt 60;
    "environment_timeout" := VInt 60;
    "task_timeout" := VInt (Z.of_N per_site_timeout);
    "logger_level" := VStr "INFO" ]}.

Definition NO_RELEVANT_JOBS_FOUND : string := "NO_RELEVANT_JOBS_FOUND".

(** The f-string of the instructions; [company] is the company as the
    f-string formats it. *)
Definition scraping_instructions (company url : string) : string :=
  "You are now on the job board for " +:+ company +:+ " at " +:+ url +:+ ". "
  +:+ "Look for Senior/Lead/Principal Product Manager jobs in Bangalore/Bengaluru or remote. "
  +:+ "Focus ONLY on searching and browsing job listings - do not click on any other links. "
  +:+ "If after exploring the site you find that: "
  +:+ "1. There are no relevant job postings, or "
  +:+ "2. You cannot access the job listings due to blocks/errors, or "
  +:+ "3. You've searched through all available pages "
  +:+ "Then say 'NO_RELEVANT_JOBS_FOUND' and explain briefly why. "
  +:+ "Otherwise, collect the following for each relevant job listing: "
  +:+ "1. Job title, 2. Company name (" +:+ company
  +:+ "), 3. Full job description, 4. Job location, 5. Job URL, 6. Posted date (if available) "
  +:+ "Return the information in this JSON format: "
  +:+ "[{'title': 'Job Title', 'company': '" +:+ company
  +:+ "', 'description': 'Full description...', "
  +:+ "'location': 'Job Location', 'url': 'Job URL', 'posted_date': 'Date if available'}]".

Definition empty_json_array : string := "[]".

Section Scrape.
Context (A : Agent).
(** [str] of a cell, as an f-string formats it. *)
Variable format : cell -> string.

Definition scrape_job_board (job_board : job_board) (headless : bool)
  (s : agent_state A) : res scrape_result * agent_state A :=
  let company := board_company job_board in
  let url := board_url job_board in
  let nothing :=
    {| result_company := company; source_url := url;
       result_text := empty_json_array |} in
  let config := runner_config url headless in
  match from_dict A config s with
  | (Raise e, s1) => (Raise e, s1)
  | (Ok _, s1) =>
      match new_runner A config s1 with
      | (Raise _, s2) => (Ok nothing, s2)
      | (Ok _, s2) =>
          match run_for A per_site_timeout
                  (scraping_instructions (format company) url) s2 with
          | (Answer text, s3) =>
              if Py.contains NO_RELEVANT_JOBS_FOUND text
              then (Ok nothing, s3)
              else (Ok {| result_company := company; source_url := url;
                          result_text := text |}, s3)
          | (TimedOut, s3) => (Ok nothing, s3)
          | (Failed _, s3) => (Ok nothing, s3)
          end
      end
  end.


End Scrape.

(** [json_pattern] *)
Definition json_pattern : list branch :=
  [ [Chr "{"; AnyStar; Chr "}"]; [Chr "["; AnyStar; Chr "]"] ].

(** What [json.loads] does with a string. *)
Inductive loaded :=
| Loaded (data : value)
| DecodeError               (* json.JSONDecodeError *)
| OtherError (e : exn).     (* any other exception, a RecursionError say *)

(** ['title' in job] *)
Definition has_key (key : string) (d : gmap string value) : bool :=
  bool_decide (is_Some (d !! key)).

(** The three assignments to a job. *)
Definition stamp (company : cell) (url : string) (extracted_at : string)
  (job : gmap string value) : gmap string value :=
  <[ "extracted_at" := VStr extracted_at ]>
    (<[ "source_url" := VStr url ]>
       (<[ "company" := default (VScalar company) (job !! "company") ]> job)).

Section Collect.
(** [json.loads], and the text of the [n]-th reading of the clock,
    [datetime.now().isoformat()]. *)
Variable loads : string -> loaded.
Variable isoformat_now : nat -> string.

(** [for job in data: if isinstance(job, dict) and 'title' in job: ...];
    [tick] counts the readings of the clock. *)
Fixpoint take_jobs (company : cell) (url : string) (items : list value)
  (tick : nat) : list (gmap string value) * nat :=
  match items with
  | [] => ([], tick)
  | VDict job :: rest =>
      if has_key "title" job then
        let '(jobs, tick') := take_jobs company url rest (S tick) in
        (stamp company url (isoformat_now tick) job :: jobs, tick')
      else take_jobs company url rest tick
  | _ :: rest => take_jobs company url rest tick
  end.

(** What one parsed candidate adds to [all_jobs]. *)
Definition jobs_of_data (company : cell) (url : string) (data : value)
  (tick : nat) : list (gmap string value) * nat :=
  match data with
  | VList items => take_jobs company url items tick
  | VDict d =>
      match d !! "jobs" with
      | Some (VList items) => take_jobs company url items tick
      | _ =>
          if has_key "title" d
          then ([stamp company url (isoformat_now tick) d], S tick)
          else ([], tick)
      end
  | _ => ([], tick)
  end.

(** The loop over [json_matches]: a candidate that does not decode is
    passed over; any other exception ends the loop (the outer handler).
    What was appended before stays. *)
Fixpoint collect_matches (company : cell) (url : string)
  (json_matches : list string) (tick : nat)
  : list (gmap string value) * nat :=
  match json_matches with
  | [] => ([], tick)
  | json_str :: rest =>
      match loads json_str with
      | Loaded data =>
          let '(jobs, tick1) := jobs_of_data company url data tick in
          let '(jobs', tick2) := collect_matches company url rest tick1 in
          (jobs ++ jobs', tick2)
      | DecodeError => collect_matches company url rest tick
      | OtherError _ => ([], tick)
      end
  end.

(** The loop over [results] that fills [all_jobs]. *)
Fixpoint collect (results : list scrape_result) (tick : nat)
  : list (gmap string value) * nat :=
  match results with
  | [] => ([], tick)
  | result :: rest =>
      let '(jobs, tick1) :=
        collect_matches (result_company result) (source_url result)
          (findall json_pattern (result_text result)) tick in
      let '(jobs', tick2) := collect rest tick1 in
      (jobs ++ jobs', tick2)
  end.





(** The [n]-th reading of the clock, [datetime.now()]. *)
Variable now_at : nat -> datetime.




Section Main.
Context (A : Agent).
Variable format : cell -> string.


End Main.
End Collect.

End JobScraper.

(** ** Candidates of the JSON pattern *)

(** [s] split after the last occurrence of [c]. *)
Fixpoint upto_last (c : ascii) (s : string) : option (string * string) :=
  match s with
  | EmptyString => None
  | String a s' =>
      match upto_last c s' with
      | Some (m, rest) => Some (String a m, rest)
      | None =>
          if Ascii.eqb a c then Some (String a EmptyString, s') else None
      end
  end.

(** [c] occurs in [s]. *)
Fixpoint mem_char (c : ascii) (s : string) : bool :=
  match s with
  | EmptyString => false
  | String a s' => Ascii.eqb a c || mem_char c s'
  end.

(** [s] without its first [n] characters. *)
Fixpoint drop_chars (n : nat) (s : string) : string :=
  match n, s with
  | S k, String _ s' => drop_chars k s'
  | _, _ => s
  end.

(** How many of the two closing characters occur in [s]. *)
Definition closers (s : string) : nat :=
  (if mem_char "}" s then 1 else 0) + (if mem_char "]" s then 1 else 0).

(** Neither ["{"] nor ["["] occurs in [s]. *)
Definition no_opener (s : string) : bool :=
  negb (mem_char "{" s) && negb (mem_char "[" s).

(** [m] is a text in braces or in brackets. *)
Definition bracketed (m : string) : Prop :=
  exists body, m = "{" +:+ body +:+ "}" \/ m = "[" +:+ body +:+ "]".

(** ** Jobs collected and exported *)

(** [d] is a dict that the collection looks at in [data]: [data] itself,
    an element of [data], or an element of [data['jobs']]. *)
Definition listed (d : gmap string JobScraper.value) (data : JobScraper.value)
  : Prop :=
  match data with
  | JobScraper.VList items => In (JobScraper.VDict d) items
  | JobScraper.VDict top =>
      match top !! "jobs" with
      | Some (JobScraper.VList items) => In (JobScraper.VDict d) items
      | _ => top = d
      end
  | _ => False
  end.

(** [j] was collected from the result [r] at the clock reading [n]: it is
    a dict with a title, listed in what [loads] makes of a candidate of
    the result's text, after the three assignments. *)
Definition collected_from (loads : string -> JobScraper.loaded)
  (isoformat_now : nat -> string) (r : JobScraper.scrape_result) (n : nat)
  (j : gmap string JobScraper.value) : Prop :=
  exists d c data,
    In c (ReAny.findall JobScraper.json_pattern (JobScraper.result_text r)) /\
    loads c = JobScraper.Loaded data /\
    listed d data /\
    JobScraper.has_key "title" d = true /\
    j = JobScraper.stamp (JobScraper.result_company r)
          (JobScraper.source_url r) (isoformat_now n) d.

(** The output of a collecting loop started at the reading [tick]: one
    reading per job, in order, and [Q] of each job at its reading. *)
Definition stamped (Q : nat -> gmap string JobScraper.value -> Prop)
  (tick : nat) (out : list (gmap string JobScraper.value) * nat) : Prop :=
  snd out = tick + List.length (fst out) /\
  forall i j, fst out !! i = Some j -> Q (tick + i) j.


(** ** Scripted agents *)

(** An agent without memory that accepts every configuration. *)
Definition scripted_agent (answer : string -> JobScraper.run_outcome)
  : JobScraper.Agent :=
  {| JobScraper.agent_state := unit;
     JobScraper.from_dict := fun _ _ => (Ok tt, tt);
     JobScraper.new_runner := fun _ _ => (Ok tt, tt);
     JobScraper.run_for := fun _ instructions _ => (answer instructions, tt);
     JobScraper.sleep := fun _ _ => tt |}.

Definition quoted (s : string) : string :=
  String (ascii_of_nat 34) s +:+ String (ascii_of_nat 34) EmptyString.

(** The answer of an agent that found one job, and one that repeats its
    instructions before the same answer. *)
Definition one_job_text : string :=
  "[{" +:+ quoted "title" +:+ ": " +:+ quoted "Senior Product Manager"
  +:+ ", " +:+ quoted "location" +:+ ": " +:+ quoted "Bengaluru" +:+ "}]".


Definition repeats_task (instructions : string) : JobScraper.run_outcome :=
  JobScraper.Answer ("Task: " +:+ instructions +:+ " " +:+ one_job_text).

(** [json.loads] on the texts of these answers. *)
Definition sample_loads (s : string) : JobScraper.loaded :=
  if String.eqb s "[]" then JobScraper.Loaded (JobScraper.VList [])
  else if String.eqb s one_job_text then
    JobScraper.Loaded
      (JobScraper.VList
         [ JobScraper.VDict
             {[ "title" := JobScraper.VStr "Senior Product Manager";
                "location" := JobScraper.VStr "Bengaluru" ]} ])
  else JobScraper.DecodeError.

Definition sample_isoformat (n : nat) : string :=
  "2025-03-14T09:26:5" +:+ String (digit n) ".000000".

Definition sample_format (c : Scraper.cell) : string :=
  match c with
  | Scraper.CStr s => s
  | _ => "nan"
  end.

Definition lever_board : Scraper.job_board :=
  {| Scraper.board_company := Scraper.CStr "Acme";
     Scraper.board_url := "https://jobs.lever.co/acme" |}.

(** ** Observing the calls of a run *)

Definition is_ok {A} (r : res A) : bool :=
  match r with Ok _ => true | Raise _ => false end.

(** The browser [W] with a record of the calls that [watch] names, each
    with whether it succeeded. *)
Definition logged {T} (watch : forall A, request A -> option T) (W : World)
  : World :=
  {| state := state W * list (T * bool);
     perform := fun A rq s =>
       let (r, s') := perform W A rq (fst s) in
       (r, (s', snd s ++ match watch A rq with
                         | Some t => [(t, is_ok r)]
                         | None => []
                         end));
     now := fun s => now W (fst s) |}.

(** The calls that [process_companies] makes itself. *)
Inductive session_call :=
| SOpen | SNewPage | SClosePage | SSleep | SCloseSession.

Definition session_watch (A : Type) (rq : request A) : option session_call :=
  match rq with
  | OpenSession => Some SOpen
  | NewPage => Some SNewPage
  | ClosePage => Some SClosePage
  | Sleep _ => Some SSleep
  | CloseSession => Some SCloseSession
  | _ => None
  end.

(** The calls of a whole run over [n] companies. *)
Definition session_protocol (n : nat) : list session_call :=
  SOpen :: concat (repeat [SNewPage; SClosePage; SSleep] n)
  ++ [SCloseSession].

(** Calls that all succeeded. *)
Definition succeeded (calls : list session_call)
  : list (session_call * bool) :=
  map (fun c => (c, true)) calls.

(** The calls on the browser that [check_subdomain_urls] launches. *)
Inductive subdomain_call := SLaunch | SClose.

Definition subdomain_watch (A : Type) (rq : request A)
  : option subdomain_call :=
  match rq with
  | LaunchSubdomainBrowser => Some SLaunch
  | CloseSubdomainBrowser => Some SClose
  | _ => None
  end.

Section KeepsLog.
Context {T : Type} (watch : forall A, request A -> option T) (W : World).

(** [m] makes no call that [watch] names. *)
Definition keeps_log {A} (m : @M (logged watch W) A) : Prop :=
  forall s l, snd (snd (fst (m s l))) = snd s.

End KeepsLog.

Section Logs.
Context {T : Type} (watch : forall A, request A -> option T) (W : World).

(** [m] adds to the record of calls a list [made] that, with the result,
    satisfies [Q]. *)
Definition logs {A} (m : @M (logged watch W) A)
  (Q : res A -> list (T * bool) -> Prop) : Prop :=
  forall s l, exists made,
    snd (snd (fst (m s l))) = snd s ++ made /\ Q (fst (fst (m s l))) made.

End Logs.

Section Probe.
Context (W : World).

(** The body of the loop of [check_subdomain_urls], with the calls on the
    launched browser recorded. *)
Definition probe (url : string)
  : @M (logged subdomain_watch W) (option string) :=
  let* response := goto SubdomainPage url 8000%N in
  if response_ok response then
    let* content := call (Content SubdomainPage) in
    if search_any true SIGNAL_WORDS content then
      call CloseSubdomainBrowser >>
      emit (Found 0 url) >> ret (Some url)
    else ret None
  else ret None.

End Probe.

(** ** [process_companies] on its two files

    The input and the output are CSV files, record by record; a row is
    what [csv.DictReader] makes of a record under the first record of its
    file, so a row shorter than that record has [None] cells. *)

Module OnFiles.

(** [key in row]: the keys of a row are the field names. *)
Definition has_field (header : Csv.record) (key : string) : bool :=
  existsb (String.eqb key) header.

(** [row.get(key, default)]; [None] stands for Python's [None]. *)
Definition get_or (header r : Csv.record) (key : string)
  (default : option string) : option string :=
  if has_field header key then Csv.get header r key else default.

(** [row.get('company', row.get('name', ''))] *)
Definition company_name_of (header r : Csv.record) : option string :=
  get_or header r "company" (get_or header r "name" (Some "")).

(** [company.get('website', company.get('url', ''))] *)
Definition website_cell (header r : Csv.record) : option string :=
  get_or header r "website" (get_or header r "url" (Some "")).

(** The text of a value in an f-string, and the field that
    [DictWriter.writerow] writes for it. *)
Definition py_str (x : option string) : string :=
  match x with Some s => s | None => "None" end.

Definition csv_text (x : option string) : string :=
  match x with Some s => s | None => "" end.

Definition is_blank (r : Csv.record) : bool :=
  match r with [] => true | _ => false end.

(** The loop that fills [processed_companies]: the first record of the
    file gives the field names, blank records are passed over, and what is
    added is [row.get('company')], which may be [None]. *)
Definition load_processed (f : Csv.file) : gset (option string) :=
  match f with
  | Some (header :: data) =>
      fold_left
        (fun processed r =>
           if is_blank r then processed
           else
             match Csv.get header r "career_url" with
             | Some u =>
                 if Py.truthy u
                 then {[ Csv.get header r "company" ]} ∪ processed
                 else processed
             | None => processed
             end)
        data ∅
  | _ => ∅
  end.

(** The loop that fills [companies], over the records after the first. *)
Definition companies_to_process (processed : gset (option string))
  (header : Csv.record) (data : list Csv.record) : list Csv.record :=
  List.filter
    (fun r => negb (is_blank r)
              && negb (bool_decide (company_name_of header r ∈ processed)))
    data.

(** The discovery of one company, as instrumentation records it. *)
Record visit := {
  visited : option string;          (* company_name *)
  visited_site : string;            (* website, after the coercion *)
  returned : res (option string);   (* what find_career_page did *)
  events : list event
}.

Section Run.
Context {W : World}.

(** The loop over [companies].  A row without website cell makes
    [website.startswith] raise, outside the [try]; an exception of
    [new_page] or of the [finally] block ends the run as well. *)
Fixpoint process_loop (header : Csv.record) (companies : list Csv.record)
  (w : state W) (output_csv : Csv.file) (journal : list visit)
  : res unit * state W * Csv.file * list visit :=
  match companies with
  | [] => (Ok tt, w, output_csv, journal)
  | company :: rest =>
      let company_name := company_name_of header company in
      match website_cell header company with
      | None => (Raise (Error "AttributeError"), w, output_csv, journal)
      | Some cell =>
          let website :=
            if negb (Py.has_http_scheme cell) then "https://" +:+ cell
            else cell in
          match perform W _ NewPage w with
          | (Raise e, w1) => (Raise e, w1, output_csv, journal)
          | (Ok _, w1) =>
              let '(found, w2, t) :=
                find_career_page website (py_str company_name) w1 [] in
              let journal1 :=
                journal ++ [ {| visited := company_name;
                                visited_site := website;
                                returned := found; events := t |} ] in
              let result :=
                {| company := csv_text company_name;
                   website := website;
                   career_url :=
                     match found with
                     | Ok (Some career_url) => career_url
                     | Ok None => ""
                     | Raise _ => ""
                     end;
                   timestamp := strftime (now W w2) |} in
              let written := Csv.append_to_csv output_csv result in
              (* finally *)
              match perform W _ ClosePage w2 with
              | (Raise e, w3) => (Raise e, w3, written, journal1)
              | (Ok _, w3) =>
                  match perform W _ (Sleep 2%N) w3 with
                  | (Raise e, w4) => (Raise e, w4, written, journal1)
                  | (Ok _, w4) =>
                      process_loop header rest w4 written journal1
                  end
              end
          end
      end
  end.

(** [process_companies]: the output file is created with its header when
    it is missing, then read; the input file is read ([open] raises when
    it is missing); then the companies are processed. *)
Definition process_companies (input_csv output_csv : Csv.file)
  (w : state W) : res unit * state W * Csv.file * list visit :=
  let created :=
    match output_csv with
    | None => Some [Csv.fieldnames]
    | Some _ => output_csv
    end in
  let processed_companies := load_processed created in
  match input_csv with
  | None => (Raise (Error "FileNotFoundError"), w, created, [])
  | Some records =>
      let companies :=
        companies_to_process processed_companies (hd [] records)
          (tl records) in
      match perform W _ OpenSession w with
      | (Raise e, w1) => (Raise e, w1, created, [])
      | (Ok _, w1) =>
          match process_loop (hd [] records) companies w1 created [] with
          | (Raise e, w2, written, journal) =>
              (Raise e, w2, written, journal)
          | (Ok _, w2, written, journal) =>
              match perform W _ CloseSession w2 with
              | (Raise e, w3) => (Raise e, w3, written, journal)
              | (Ok _, w3) => (Ok tt, w3, written, journal)
              end
          end
      end
  end.

End Run.

End OnFiles.

(** ** Runs on the two files *)

(** The records of the output file before anything is appended. *)
Definition records_at_start (output_csv : Csv.file) : list Csv.record :=
  match output_csv with
  | None => [Csv.fieldnames]
  | Some records => records
  end.

(** The field names of the input file and the companies that a run is
    to process. *)
Definition header_of (input_csv : Csv.file) : Csv.record :=
  match input_csv with
  | Some records => hd [] records
  | None => []
  end.

Definition to_process (input_csv output_csv : Csv.file)
  : list Csv.record :=
  match input_csv with
  | Some records =>
      OnFiles.companies_to_process
        (OnFiles.load_processed (Some (records_at_start output_csv)))
        (hd [] records) (tl records)
  | None => []
  end.

(** Visit [v] and record [rec] are what processing the row [c] leaves
    behind: the record has the company name, the website, the URL that
    [find_career_page] returned - nothing when it returned [None] or
    raised - and a timestamp. *)
Definition visit_recorded {W : World} (header c : Csv.record)
  (v : OnFiles.visit) (rec : Csv.record) : Prop :=
  OnFiles.visited v = OnFiles.company_name_of header c /\
  (exists cell,
     OnFiles.website_cell header c = Some cell /\
     OnFiles.visited_site v
     = if Py.has_http_scheme cell then cell else "https://" +:+ cell) /\
  (exists w,
     OnFiles.returned v
     = run_result (find_career_page (OnFiles.visited_site v)
                     (OnFiles.py_str (OnFiles.visited v))) w /\
     OnFiles.events v
     = run_trace (find_career_page (OnFiles.visited_site v)
                    (OnFiles.py_str (OnFiles.visited v))) w) /\
  exists url t,
    rec = [ OnFiles.csv_text (OnFiles.visited v); OnFiles.visited_site v;
            url; strftime t ] /\
    match OnFiles.returned v with
    | Ok (Some u) => url = u
    | Ok None => url = ""
    | Raise _ => url = ""
    end.

(** The row of the row-level model for a record under its field names;
    the two agree on records that are not shorter than the field
    names. *)
Definition row_of (header r : Csv.record) : input_row :=
  {| col_company := if OnFiles.has_field header "company"
                    then Csv.get header r "company" else None;
     col_name := if OnFiles.has_field header "name"
                 then Csv.get header r "name" else None;
     col_website := if OnFiles.has_field header "website"
                    then Csv.get header r "website" else None;
     col_url := if OnFiles.has_field header "url"
                then Csv.get header r "url" else None |}.

(** The navigations that the journal attributes to a company name. *)
Definition navigations_of (name : option string) (j : list OnFiles.visit)
  : list string :=
  flat_map (fun v => if bool_decide (OnFiles.visited v = name)
                     then navigations (OnFiles.events v) else []) j.

(** Input files: the two companies, Acme alone, Acme twice, and one
    whose first row stops after the name. *)
Definition input_header : Csv.record := [ "company"; "website" ].

Definition acme_record : Csv.record := [ "Acme"; "https://acme.com" ].
Definition initech_record : Csv.record := [ "Initech"; "initech.com" ].

Definition two_companies : Csv.file :=
  Some [ input_header; acme_record; initech_record ].

Definition one_company : Csv.file := Some [ input_header; acme_record ].


Definition short_row : Csv.file :=
  Some [ input_header; [ "Initech" ]; acme_record ].

(** The record that a run at [a_moment] writes for Acme on
    [lever_site]. *)
Definition acme_found : Csv.record :=
  [ "Acme"; "https://acme.com"; "//jobs.lever.co/acme";
    "2025-03-14 09:26:53" ].




(** ** The links that the third-party scan asks *)

(** The calls [link.get_attribute("href")] of the scan, by the index of
    the link in [all_links]. *)
Definition link_watch (A : Type) (rq : request A) : option nat :=
  match rq with
  | GetHref (NthLink i) => Some i
  | _ => None
  end.

(** The watched calls of a run that starts without any. *)
Definition calls_made {T} {watch : forall A, request A -> option T}
  {W : World} {A} (m : @M (logged watch W) A) (w : state W)
  : list (T * bool) :=
  snd (snd (fst (m (w, []) []))).

(** What a scan over [n] links does, from link [first] on: it asks the
    links in order, whether or not the calls succeed, and stops only after
    the last link or with an href, which a successful call gave. *)
Definition scanned_links (first n : nat) (r : res (option string))
  (made : list (nat * bool)) : Prop :=
  exists k,
    k <= n /\ map fst made = seq first k /\
    match r with
    | Ok None => k = n
    | Ok (Some _) => exists pre, made = pre ++ [(first + k - 1, true)]
    | Raise _ => False
    end.

(** The homepage of [lever_site] with a first link whose attribute
    cannot be read. *)
Definition broken_link_site (A : Type) (rq : request A) : res A :=
  match rq in request T return res T with
  | GetHref (NthLink 0) => Raise (Error "Element is not attached to the DOM")
  | rq => lever_site _ rq
  end.

(** The clicks of a run: strategy 5 opens the first search result by a
    click, which loads a page that no [page.goto] names. *)
Definition click_watch (A : Type) (rq : request A) : option unit :=
  match rq with
  | Click _ => Some tt
  | _ => None
  end.

(** * Properties *)

(** ** The embedding at work *)

Module Examples.

Example rstrip_slash_trailing :
  Py.rstrip_slash "https://acme.com///" = "https://acme.com".
Proof. reflexivity. Qed.

Example base_url_re_www :
  re_match false BASE_URL_RE "https://www.acme.com/about" = Some ["acme.com"].
Proof. reflexivity. Qed.

Example base_url_re_no_scheme :
  re_match false BASE_URL_RE "acme.com" = None.
Proof. reflexivity. Qed.

Example subdomain_urls_first :
  option_map (firstn 2) (subdomain_urls "https://www.acme.com/about")
  = Some ["https://careers.acme.com"; "https://jobs.acme.com"].
Proof. reflexivity. Qed.

Example lever_case_insensitive :
  re_search true [Lit "jobs.lever.co/"; NonSlash] "HTTPS://JOBS.LEVER.CO/Acme/42"
  = Some ["Acme"].
Proof. reflexivity. Qed.

Example signal_in_content :
  search_any true SIGNAL_WORDS "<h1>Open Positions</h1>" = true.
Proof. reflexivity. Qed.

Example website_coerced : website_of initech = "https://initech.com".
Proof. reflexivity. Qed.

Example strftime_a_moment : strftime a_moment = "2025-03-14 09:26:53".
Proof. reflexivity. Qed.

Example footer_scan_alone :
  strategy_footer (W := scripted hover_fails_site) "https://acme.com/" tt []
  = (Ok (Some "https://acme.com/careers"), tt,
     [Found 2 "https://acme.com/careers"]).
Proof. reflexivity. Qed.

End Examples.

(** ** Strings *)

Module PyFacts.
Import Py.

Lemma append_nil_r (s : string) : s +:+ "" = s.
Proof. induction s as [|c s IH]; simpl; [reflexivity | now rewrite IH]. Qed.

Lemma append_assoc (s t u : string) : (s +:+ t) +:+ u = s +:+ (t +:+ u).
Proof. induction s as [|c s IH]; simpl; [reflexivity | now rewrite IH]. Qed.

Lemma startswith_iff (p s : string) :
  startswith p s = true <-> exists t, s = p +:+ t.
Proof.
  unfold startswith. revert s.
  induction p as [|a p IH]; intros s; simpl.
  - split; [intros _; now exists s | intros _; now destruct s].
  - destruct s as [|b s]; simpl.
    + split; [discriminate | intros [t Ht]; discriminate].
    + destruct (ascii_dec a b) as [->|Hne].
      * rewrite IH. split; intros [t Ht]; exists t; congruence.
      * split; [discriminate | intros [t Ht]; congruence].
Qed.

Lemma startswith_app (p s t : string) :
  startswith p s = true -> startswith p (s +:+ t) = true.
Proof.
  rewrite !startswith_iff. intros [u ->]. exists (u +:+ t).
  apply append_assoc.
Qed.

Lemma scheme_app (s t : string) :
  has_http_scheme s = true -> has_http_scheme (s +:+ t) = true.
Proof.
  unfold has_http_scheme. rewrite !orb_true_iff.
  intros [H|H]; [left | right]; now apply startswith_app.
Qed.

Lemma contains_iff (kw s : string) :
  contains kw s = true <-> exists pre post, s = pre +:+ kw +:+ post.
Proof.
  induction s as [|c s IH]; cbn [contains];
    rewrite orb_true_iff, startswith_iff.
  - split.
    + intros [[t Ht]|H]; [|discriminate]. now exists "", t.
    + intros (pre & post & H). left. destruct pre; [now exists post|discriminate].
  - rewrite IH. split.
    + intros [[t Ht]|(pre & post & H)].
      * now exists "", t.
      * exists (String c pre), post. simpl. now rewrite H.
    + intros (pre & post & H). destruct pre as [|a pre]; simpl in H.
      * left. now exists post.
      * right. exists pre, post. congruence.
Qed.



Lemma rstrip_slash_no_trailing (s : string) :
  ends_with_slash (rstrip_slash s) = false.
Proof.
  induction s as [|c s IH]; simpl; [reflexivity|].
  destruct (rstrip_slash s) as [|d r] eqn:E.
  - destruct (is_slash c) eqn:Ec; simpl; [reflexivity | exact Ec].
  - exact IH.
Qed.

Lemma rstrip_slash_spec (s : string) :
  exists t, s = rstrip_slash s +:+ t /\ all_slashes t = true.
Proof.
  induction s as [|c s (t & Ht & Hs)]; simpl.
  - now exists "".
  - destruct (rstrip_slash s) as [|d r] eqn:E.
    + simpl in Ht. subst t. destruct (is_slash c) eqn:Ec.
      * exists (String c s). simpl. now rewrite Ec, Hs.
      * exists s. simpl. now rewrite Hs.
    + exists t. simpl in Ht |- *. split; [now rewrite <- Ht | exact Hs].
Qed.

End PyFacts.

(** ** The URL resolver *)

Module ResolverFacts.
Import Py PyFacts.

Lemma scheme_not_slash (h : string) :
  has_http_scheme h = true -> startswith "/" h = false.
Proof.
  unfold has_http_scheme. rewrite orb_true_iff, !startswith_iff.
  intros [[t ->]|[t ->]]; reflexivity.
Qed.

Lemma resolve_absolute (b h : string) :
  has_http_scheme h = true -> resolve b h = h.
Proof.
  intros H. unfold resolve. now rewrite (scheme_not_slash h H), H.
Qed.

Lemma resolve_scheme (b h : string) :
  has_http_scheme (rstrip_slash b) = true ->
  has_http_scheme (resolve b h) = true.
Proof.
  intros Hb. unfold resolve. destruct (startswith "/" h).
  - now apply scheme_app.
  - destruct (has_http_scheme h) eqn:Hh; simpl; [exact Hh|].
    now apply scheme_app.
Qed.

(** C4 (as stated, fails).  With a base URL that has a path, a
    root-relative href is appended to the whole base and not to its scheme
    and host; an href that begins with two slashes leaves a doubled slash
    in the path; an href with a scheme other than http(s) is not returned
    unchanged. *)
Lemma resolve_contract_counterexample :
  (resolve "https://acme.com/en/" "/careers" = "https://acme.com/en/careers" /\
   SpecResolver.scheme_host "https://acme.com/en/" +:+ "/careers"
   = "https://acme.com/careers") /\
  (resolve "https://acme.com" "//cdn.acme.com/jobs"
   = "https://acme.com//cdn.acme.com/jobs" /\
   SpecResolver.double_slash_free
     (resolve "https://acme.com" "//cdn.acme.com/jobs") = false) /\
  resolve "https://acme.com" "mailto:jobs@acme.com"
  = "https://acme.com/mailto:jobs@acme.com".
Proof. repeat split; vm_compute; reflexivity. Qed.

(** C4 (amended).  An href that starts with a slash is appended to the
    base URL (the whole of it, path included) without its trailing
    slashes; an href that starts with [http://] or [https://] is returned
    unchanged; any other href is appended to the stripped base after one
    slash.  The href is always a suffix of the result, and the stripped
    base never ends in a slash. *)
Theorem resolve_contract (base_url href : string) :
  (startswith "/" href = true ->
     resolve base_url href = rstrip_slash base_url +:+ href) /\
  (has_http_scheme href = true -> resolve base_url href = href) /\
  (startswith "/" href = false -> has_http_scheme href = false ->
     resolve base_url href = rstrip_slash base_url +:+ "/" +:+ href) /\
  (exists pre, resolve base_url href = pre +:+ href) /\
  ends_with_slash (rstrip_slash base_url) = false.
Proof.
  repeat split.
  - intros H. unfold resolve. now rewrite H.
  - apply resolve_absolute.
  - intros H1 H2. unfold resolve. now rewrite H1, H2.
  - unfold resolve. destruct (startswith "/" href).
    + now exists (rstrip_slash base_url).
    + destruct (has_http_scheme href); simpl.
      * now exists "".
      * exists (rstrip_slash base_url +:+ "/"). now rewrite append_assoc.
  - apply rstrip_slash_no_trailing.
Qed.

Lemma resolve_contract_witness :
  resolve "https://acme.com/" "/careers" = "https://acme.com" +:+ "/careers"
  /\ resolve "https://acme.com/" "https://jobs.lever.co/acme"
     = "https://jobs.lever.co/acme"
  /\ resolve "https://acme.com/" "careers"
     = "https://acme.com" +:+ "/" +:+ "careers".
Proof.
  split; [|split].
  - apply (proj1 (resolve_contract "https://acme.com/" "/careers")).
    reflexivity.
  - apply (proj1 (proj2 (resolve_contract "https://acme.com/"
                           "https://jobs.lever.co/acme"))).
    reflexivity.
  - apply (proj1 (proj2 (proj2 (resolve_contract "https://acme.com/"
                                  "careers")))); reflexivity.
Defined.

(** C9 (as stated, fails).  For the base ["https://"], which a row with an
    empty website yields, the resolver's output has lost its scheme and a
    second pass changes it. *)
Lemma resolve_idempotent_counterexample :
  resolve "https://" "jobs" = "https:/jobs" /\
  resolve "https://" (resolve "https://" "jobs") = "https:/https:/jobs" /\
  has_http_scheme (resolve "https://" "jobs") = false.
Proof. repeat split; vm_compute; reflexivity. Qed.

(** C9 (amended).  An href that starts with [http://] or [https://] is
    returned unchanged; hence a second pass changes nothing whenever the
    first result starts with such a scheme, which it does for every href
    when the base URL, trailing slashes removed, starts with one. *)
Theorem resolve_idempotent (b h : string) :
  (has_http_scheme h = true -> resolve b h = h) /\
  (has_http_scheme (resolve b h) = true ->
     resolve b (resolve b h) = resolve b h) /\
  (has_http_scheme (rstrip_slash b) = true ->
     has_http_scheme (resolve b h) = true /\
     resolve b (resolve b h) = resolve b h).
Proof.
  split; [apply resolve_absolute|].
  split; [apply resolve_absolute|].
  intros Hb. pose proof (resolve_scheme b h Hb) as Hs.
  split; [exact Hs | now apply resolve_absolute].
Qed.

Lemma resolve_idempotent_witness :
  resolve "https://acme.com/" "https://jobs.lever.co/acme"
  = "https://jobs.lever.co/acme" /\
  resolve "https://acme.com/" (resolve "https://acme.com/" "careers")
  = resolve "https://acme.com/" "careers".
Proof.
  split.
  - apply (proj1 (resolve_idempotent "https://acme.com/"
                    "https://jobs.lever.co/acme")).
    reflexivity.
  - apply (proj2 (proj2 (resolve_idempotent "https://acme.com/" "careers"))).
    reflexivity.
Defined.

End ResolverFacts.

(** ** The third-party job-board classifier *)

Module ClassifierFacts.

Lemma first_search_some (ps : list pattern) (href : string) (caps : list string) :
  first_search ps href = Some caps ->
  exists i p,
    nth_error ps i = Some p /\ re_search true p href = Some caps /\
    forall j q, j < i -> nth_error ps j = Some q ->
                re_search true q href = None.
Proof.
  induction ps as [|p ps IH]; simpl; [discriminate|].
  destruct (re_search true p href) as [c|] eqn:E.
  - intros [= <-]. exists 0, p. repeat split; try assumption.
    intros j q Hj. lia.
  - intros H. destruct (IH H) as (i & p' & Hn & Hs & Hfirst).
    exists (S i), p'. repeat split; try assumption.
    intros [|j] q Hj Hq; simpl in Hq.
    + now injection Hq as <-.
    + apply (Hfirst j q); [lia | assumption].
Qed.

Lemma first_search_none (ps : list pattern) (href : string) :
  first_search ps href = None <->
  forall p, In p ps -> re_search true p href = None.
Proof.
  induction ps as [|p ps IH]; simpl.
  - split; [intros _ p [] | reflexivity].
  - destruct (re_search true p href) as [c|] eqn:E.
    + split; [discriminate|]. intros H. specialize (H p (or_introl eq_refl)).
      congruence.
    + rewrite IH. split.
      * intros H q [<-|Hq]; [assumption | now apply H].
      * intros H q Hq. apply H. now right.
Qed.

(** C7.  The patterns are tried in declared order and the first that
    matches decides: every earlier pattern fails on the href.  An href is
    rejected exactly when no pattern matches it.  The Lever URL matches the
    first pattern with the slug [acme], although the second pattern
    matches it too (with [jobs]); a company's own careers URL matches no
    pattern. *)
Theorem third_party_first_match :
  (forall href caps,
     third_party_match href = Some caps ->
     exists i p,
       nth_error THIRD_PARTY_PATTERNS i = Some p /\
       re_search true p href = Some caps /\
       forall j q, j < i -> nth_error THIRD_PARTY_PATTERNS j = Some q ->
                   re_search true q href = None) /\
  (forall href,
     third_party_match href = None <->
     forall p, In p THIRD_PARTY_PATTERNS -> re_search true p href = None) /\
  third_party_match "https://jobs.lever.co/acme" = Some ["acme"] /\
  (nth_error THIRD_PARTY_PATTERNS 1 = Some [NonSlash; Lit ".lever.co"] /\
   re_search true [NonSlash; Lit ".lever.co"] "https://jobs.lever.co/acme"
   = Some ["jobs"]) /\
  third_party_match "https://acme.com/careers" = None.
Proof.
  split; [intros href caps; apply first_search_some|].
  split; [intros href; apply first_search_none|].
  repeat split; vm_compute; reflexivity.
Qed.

Lemma third_party_first_match_witness :
  exists i p,
    nth_error THIRD_PARTY_PATTERNS i = Some p /\
    re_search true p "https://boards.greenhouse.io/acme/jobs/1"
    = Some ["acme"] /\
    forall j q, j < i -> nth_error THIRD_PARTY_PATTERNS j = Some q ->
                re_search true q "https://boards.greenhouse.io/acme/jobs/1"
                = None.
Proof.
  apply (proj1 third_party_first_match
           "https://boards.greenhouse.io/acme/jobs/1" ["acme"]).
  vm_compute. reflexivity.
Defined.

End ClassifierFacts.

(** ** The job filter and the job-board loader *)

Module ScraperFacts.
Import Py PyFacts Scraper.







Lemma filter_jobs_total (jobs : list job) :
  Forall textual jobs -> exists kept, filter_jobs jobs = Ok kept.
Proof.
  induction 1 as [|j jobs Hj _ [rest IH]]; simpl; [now exists []|].
  assert (G : forall key, In key ["title"; "description"; "location"] ->
                          exists s, get_lower j key = Ok s).
  { intros key Hk. unfold get_lower.
    destruct (Hj key Hk) as [->|[s ->]]; eauto. }
  destruct (G "title") as [t ->]; [simpl; tauto|].
  destruct (G "description") as [d ->]; [simpl; tauto|].
  destruct (G "location") as [l ->]; [simpl; tauto|].
  rewrite IH. eauto.
Qed.


End ScraperFacts.

Module LoaderFacts.
Import Py PyFacts Scraper.

Lemma load_job_boards_in (df : list frame_row) (e : job_board) :
  In e (load_job_boards df) <->
  exists row u,
    In row df /\ iloc_last row = CStr u /\ has_http_scheme u = true /\
    e = {| board_company := iloc_first row; board_url := u |}.
Proof.
  unfold has_http_scheme.
  induction df as [|row df IH]; simpl.
  - split; [intros [] | intros (row & u & [] & _)].
  - assert (Skip :
      (forall u, iloc_last row = CStr u ->
                 startswith "http://" u || startswith "https://" u = false) ->
      In e (load_job_boards df) <->
      exists row0 u,
        (row = row0 \/ In row0 df) /\ iloc_last row0 = CStr u /\
        startswith "http://" u || startswith "https://" u = true /\
        e = {| board_company := iloc_first row0; board_url := u |}).
    { intros Hno. rewrite IH. split.
      - intros (r & u & Hin & H). exists r, u. tauto.
      - intros (r & u & [<-|Hin] & Hl & Hs & He).
        + rewrite (Hno u Hl) in Hs. discriminate.
        + exists r, u. tauto. }
    destruct (iloc_last row) as [u| | | |] eqn:El.
    2-5: apply Skip; intros u' Hu; discriminate Hu.
    destruct (startswith "http://" u || startswith "https://" u) eqn:Es.
    + simpl. rewrite IH. split.
      * intros [<-|(r & u' & Hin & H)].
        -- exists row, u. rewrite El. tauto.
        -- exists r, u'. tauto.
      * intros (r & u' & [<-|Hin] & Hl & Hs & ->).
        -- left. rewrite El in Hl. now injection Hl as ->.
        -- right. exists r, u'. tauto.
    + apply Skip. intros u' Hu. injection Hu as <-. exact Es.
Qed.





End LoaderFacts.

(** ** Traces of the discovery chain *)

Create Rewrite HintDb traces.

Section Sat.
Context {W : World}.

Lemma sat_ret {A} (a : A) (Q : res A -> list event -> Prop) :
  Q (Ok a) [] -> sat (ret a) Q.
Proof. intros H w l. exists []. simpl. now rewrite app_nil_r. Qed.

Lemma sat_emit (e : event) (Q : res unit -> list event -> Prop) :
  Q (Ok tt) [e] -> sat (emit e) Q.
Proof. intros H w l. now exists [e]. Qed.

Lemma sat_call {A} (rq : request A) (Q : res A -> list event -> Prop) :
  (forall r, Q r []) -> sat (call rq) Q.
Proof.
  intros H w l. exists []. unfold call.
  destruct (perform W A rq w) as [r w']. simpl. now rewrite app_nil_r.
Qed.

Lemma sat_weaken {A} (m : M A) (P Q : res A -> list event -> Prop) :
  sat m P -> (forall r t, P r t -> Q r t) -> sat m Q.
Proof.
  intros Hm HPQ w l. destruct (Hm w l) as (t & Ht & HP). exists t. auto.
Qed.

Lemma sat_and {A} (m : M A) (P Q : res A -> list event -> Prop) :
  sat m P -> sat m Q -> sat m (fun r t => P r t /\ Q r t).
Proof.
  intros HP HQ w l. destruct (HP w l) as (t & Ht & Hp).
  destruct (HQ w l) as (t' & Ht' & Hq). exists t. repeat split; try assumption.
  rewrite Ht in Ht'. apply app_inv_head in Ht'. now subst t'.
Qed.

Lemma sat_bind {A B} (m : M A) (f : A -> M B)
  (P : res A -> list event -> Prop) (Q : res B -> list event -> Prop) :
  sat m P ->
  (forall a t1, P (Ok a) t1 -> sat (f a) (fun r t2 => Q r (t1 ++ t2))) ->
  (forall e t1, P (Raise e) t1 -> Q (Raise e) t1) ->
  sat (bind m f) Q.
Proof.
  intros Hm Hf He w l. unfold bind.
  destruct (Hm w l) as (t1 & Ht1 & HP).
  destruct (m w l) as [[[a|e] w1] l1]; simpl in *; subst l1.
  - destruct (Hf a t1 HP w1 (l ++ t1)) as (t2 & Ht2 & HQ).
    exists (t1 ++ t2). rewrite Ht2. split; [now rewrite app_assoc | exact HQ].
  - exists t1. auto.
Qed.

Lemma sat_try {A} (m : M A) (h : exn -> M A)
  (P Q : res A -> list event -> Prop) :
  sat m P ->
  (forall a t, P (Ok a) t -> Q (Ok a) t) ->
  (forall e t1, P (Raise e) t1 -> sat (h e) (fun r t2 => Q r (t1 ++ t2))) ->
  sat (try_catch m h) Q.
Proof.
  intros Hm Hok Hh w l. unfold try_catch.
  destruct (Hm w l) as (t1 & Ht1 & HP).
  destruct (m w l) as [[[a|e] w1] l1]; simpl in *; subst l1.
  - exists t1. auto.
  - destruct (Hh e t1 HP w1 (l ++ t1)) as (t2 & Ht2 & HQ).
    exists (t1 ++ t2). rewrite Ht2. split; [now rewrite app_assoc | exact HQ].
Qed.

(** What [sat] says about a run from an empty log. *)
Lemma sat_run {A} (m : M A) (Q : res A -> list event -> Prop) (w : state W) :
  sat m Q -> Q (fst (fst (m w []))) (snd (m w [])).
Proof. intros H. destruct (H w []) as (t & Ht & HQ). now rewrite Ht. Qed.

End Sat.

Lemma entered_app (t1 t2 : list event) :
  entered (t1 ++ t2) = entered t1 ++ entered t2.
Proof. apply flat_map_app. Qed.

Lemma founds_app (t1 t2 : list event) :
  founds (t1 ++ t2) = founds t1 ++ founds t2.
Proof. apply flat_map_app. Qed.

Lemma quiet_nil : quiet [].
Proof. now split. Qed.

Lemma quiet_app (t1 t2 : list event) : quiet t1 -> quiet t2 -> quiet (t1 ++ t2).
Proof.
  intros [E1 F1] [E2 F2]. split.
  - now rewrite entered_app, E1, E2.
  - now rewrite founds_app, F1, F2.
Qed.

Lemma quiet_navigate (u : string) : quiet [Navigate u].
Proof. now split. Qed.

Lemma quiet_caught (h : handler) : quiet [Caught h].
Proof. now split. Qed.

Lemma piece_quiet_app k U r (t1 t2 : list event) :
  quiet t1 -> piece k U r t2 -> piece k U r (t1 ++ t2).
Proof.
  intros Hq. destruct r as [[u|]|e]; simpl; try (now apply quiet_app).
  intros (HU & pre & -> & Hpre). split; [assumption|].
  exists (t1 ++ pre). split; [now rewrite app_assoc | now apply quiet_app].
Qed.

Lemma piece_mono k (U V : string -> Prop) r t :
  (forall u, U u -> V u) -> piece k U r t -> piece k V r t.
Proof.
  intros H. destruct r as [[u|]|e]; simpl; try tauto.
  intros (HU & Hp). split; [now apply H | exact Hp].
Qed.

Section Pieces.
Context {W : World}.

(** [m] only issues navigations and swallows exceptions before it goes on
    with [f]. *)
Lemma sat_quiet_then {A} k U (m : M A) (f : A -> M (option string)) :
  sat m (fun _ t => quiet t) ->
  (forall a, sat (f a) (piece k U)) ->
  sat (bind m f) (piece k U).
Proof.
  intros Hm Hf. apply sat_bind with (P := fun _ t => quiet t).
  - exact Hm.
  - intros a t1 Hq. eapply sat_weaken; [apply Hf|].
    intros r t2. now apply piece_quiet_app.
  - intros e t1 Hq. exact Hq.
Qed.

Lemma sat_call_quiet {A} (rq : request A) : sat (call rq) (fun _ t => quiet t).
Proof. apply sat_call. intros _. apply quiet_nil. Qed.

Lemma sat_goto_quiet p url timeout : sat (goto p url timeout) (fun _ t => quiet t).
Proof.
  unfold goto. apply sat_bind with (P := fun _ t => t = [Navigate url]).
  - now apply sat_emit.
  - intros _ t1 ->. apply sat_call. intros _. apply quiet_navigate.
  - intros e t1 ->. apply quiet_navigate.
Qed.

Lemma sat_emit_then {B} (e : event) (f : unit -> M B)
  (Q : res B -> list event -> Prop) :
  sat (f tt) (fun r t => Q r (e :: t)) -> sat (bind (emit e) f) Q.
Proof.
  intros H. apply sat_bind with (P := fun r t => r = Ok tt /\ t = [e]).
  - now apply sat_emit.
  - intros [] t1 [_ ->]. exact H.
  - intros x t1 [Hx _]. discriminate Hx.
Qed.

Lemma sat_found k (U : string -> Prop) (u : string) :
  U u -> sat (emit (Found k u) >> ret (Some u)) (piece k U).
Proof.
  intros HU. apply sat_emit_then, sat_ret. simpl. split; [assumption|].
  exists []. split; [reflexivity | apply quiet_nil].
Qed.

Lemma sat_none k U : sat (ret None) (piece k U).
Proof. apply sat_ret. apply quiet_nil. Qed.

Lemma sat_for_each {A} k U (body : A -> M (option string)) (xs : list A) :
  (forall x, In x xs -> sat (body x) (piece k U)) ->
  sat (for_each body xs) (piece k U).
Proof.
  induction xs as [|x xs IH]; intros Hb; simpl.
  - apply sat_none.
  - apply sat_bind with (P := piece k U).
    + apply Hb. now left.
    + intros [u|] t1 H1.
      * apply sat_ret. now rewrite app_nil_r.
      * eapply sat_weaken; [apply IH; intros y Hy; apply Hb; now right|].
        intros r t2. now apply piece_quiet_app.
    + intros e t1 H1. exact H1.
Qed.

(** A guarded loop over pieces of strategy [k] is a piece of strategy [k]
    and never raises. *)
Lemma sat_for_each_guarded {A} h k U (body : A -> M (option string))
  (xs : list A) :
  (forall x, In x xs -> sat (body x) (piece k U)) ->
  sat (for_each_guarded h body xs) (fun r t => piece k U r t /\ returns r).
Proof.
  induction xs as [|x xs IH]; intros Hb; simpl.
  - apply sat_ret. split; [apply quiet_nil | now exists None].
  - apply sat_bind with (P := fun r t => piece k U r t /\ returns r).
    + apply sat_try with (P := piece k U).
      * apply Hb. now left.
      * intros a t H. split; [exact H | now exists a].
      * intros e t1 H1. apply sat_emit_then, sat_ret. split; [|now exists None].
        simpl in *. apply quiet_app; [exact H1 | apply quiet_caught].
    + intros [u|] t1 [H1 _].
      * apply sat_ret. rewrite app_nil_r. split; [exact H1 | now exists (Some u)].
      * eapply sat_weaken; [apply IH; intros y Hy; apply Hb; now right|].
        intros r t2 [H2 Hr]. split; [now apply piece_quiet_app | exact Hr].
    + intros e t1 [_ [a Ha]]. discriminate Ha.
Qed.

Lemma sat_after_quiet k U (m : M (option string)) (t1 : list event) :
  quiet t1 -> sat m (piece k U) ->
  sat m (fun r t2 => piece k U r (t1 ++ t2)).
Proof.
  intros Hq Hm. eapply sat_weaken; [exact Hm|].
  intros r t2. now apply piece_quiet_app.
Qed.

End Pieces.

Ltac qbind x :=
  cbv beta; apply sat_quiet_then;
  [ first [apply sat_call_quiet | apply sat_goto_quiet] | intros x ].

Ltac qskip := let x := fresh "ignored" in qbind x.

Lemma subdomain_urls_scheme (base_url : string) (urls : list string) (u : string) :
  subdomain_urls base_url = Some urls -> In u urls ->
  Py.has_http_scheme u = true.
Proof.
  unfold subdomain_urls.
  destruct (re_match false BASE_URL_RE base_url) as [[|domain caps]|];
    try discriminate.
  intros [= <-] Hin. simpl in Hin.
  repeat (destruct Hin as [<-|Hin]; [reflexivity|]). contradiction.
Qed.

Section Strategies.
Context {W : World}.

Lemma check_subdomain_urls_piece (base_url company_name : string) :
  sat (check_subdomain_urls base_url company_name)
      (piece 0 (fun u => Py.has_http_scheme u = true)).
Proof.
  unfold check_subdomain_urls.
  destruct (subdomain_urls base_url) as [urls|] eqn:E; [|apply sat_none].
  qskip.
  apply sat_bind
    with (P := fun r t => piece 0 (fun u => Py.has_http_scheme u = true) r t
                          /\ returns r).
  - apply sat_for_each_guarded. intros url Hin.
    qbind response. destruct (response_ok response); [|apply sat_none].
    qbind content.
    destruct (search_any true SIGNAL_WORDS content); [|apply sat_none].
    qskip. apply sat_found. eapply subdomain_urls_scheme; eassumption.
  - intros [u|] t1 [H1 _].
    + apply sat_ret. now rewrite app_nil_r.
    + apply sat_after_quiet; [exact H1|]. qskip. apply sat_none.
  - intros e t1 [_ [a' Ha]]. discriminate Ha.
Qed.

Lemma career_link_scan_piece (k : nat) (links : string -> locator)
  (base_url : string) :
  sat (career_link_scan k links base_url) (piece k (resolved base_url)).
Proof.
  unfold career_link_scan. apply sat_for_each. intros career_text _.
  qbind n. destruct (Nat.ltb 0 n); [|apply sat_none].
  qbind href. destruct href as [h|]; [|apply sat_none].
  destruct (Py.truthy h) eqn:Eh; [|apply sat_none].
  apply sat_found. now exists h.
Qed.

Lemma third_party_scan_piece (n : nat) :
  sat (third_party_scan n) (fun r t => piece 1 third_party r t /\ returns r).
Proof.
  unfold third_party_scan. apply sat_for_each_guarded. intros i _.
  qbind href. destruct href as [h|]; [|apply sat_none].
  destruct (Py.truthy h) eqn:Eh; [|apply sat_none].
  destruct (third_party_match h) as [caps|] eqn:Em; [|apply sat_none].
  apply sat_found. split; [assumption | now exists caps].
Qed.

Lemma navigation_menus_piece (base_url : string) :
  sat (navigation_menus base_url) (piece 1 (resolved base_url)).
Proof.
  unfold navigation_menus. apply sat_for_each. intros nav_text _.
  qbind n. destruct (Nat.ltb 0 n); [|apply sat_none].
  qskip. qskip. apply career_link_scan_piece.
Qed.

Lemma strategy_navigation_piece (base_url : string) :
  sat (strategy_navigation base_url) (piece 1 (navigation_url base_url)).
Proof.
  unfold strategy_navigation. qskip. qskip. qbind n.
  apply sat_bind with (P := fun r t => piece 1 third_party r t /\ returns r).
  - apply third_party_scan_piece.
  - intros [u|] t1 [H1 _].
    + apply sat_ret. rewrite app_nil_r.
      eapply piece_mono; [|exact H1]. intros u'. now left.
    + apply sat_after_quiet; [exact H1|].
      eapply sat_weaken; [apply navigation_menus_piece|].
      intros r t2 H2. eapply piece_mono; [|exact H2]. intros u'. now right.
  - intros e t1 [_ [a' Ha]]. discriminate Ha.
Qed.

Lemma strategy_footer_piece (base_url : string) :
  sat (strategy_footer base_url) (piece 2 (resolved base_url)).
Proof.
  unfold strategy_footer. qbind n.
  destruct (Nat.ltb 0 n); [apply career_link_scan_piece | apply sat_none].
Qed.

Lemma strategy_full_page_piece (base_url : string) :
  sat (strategy_full_page base_url) (piece 3 (resolved base_url)).
Proof. apply career_link_scan_piece. Qed.

Lemma strategy_direct_piece (base_url : string) :
  sat (strategy_direct base_url)
      (fun r t => piece 4 (direct base_url) r t /\ returns r).
Proof.
  unfold strategy_direct. apply sat_for_each_guarded. intros p Hp.
  qbind response. destruct (response_ok response); [|apply sat_none].
  qbind content. destruct (search_any true SIGNAL_WORDS_DIRECT content);
    [|apply sat_none].
  apply sat_found. now exists p.
Qed.

Lemma strategy_search_piece (company_name : string) :
  sat (strategy_search company_name)
      (fun r t => piece 5 (fun _ => True) r t /\ returns r).
Proof.
  unfold strategy_search.
  apply sat_try
    with (P := fun r t => piece 5 (fun _ => True) r t /\ returns r).
  - apply sat_for_each_guarded. intros query _.
    qskip. qskip. qbind n. destruct (Nat.ltb 0 n); [|apply sat_none].
    qskip. qskip. qskip. qbind current_url. qbind content.
    destruct (search_any true SIGNAL_WORDS content); [|apply sat_none].
    now apply sat_found.
  - tauto.
  - intros e t1 [_ [a' Ha]]. discriminate Ha.
Qed.

End Strategies.

Lemma yields_app (k : nat) (u : string) (t1 t2 : list event) :
  founds t1 = [] -> yields k u t2 -> yields k u (t1 ++ t2).
Proof.
  intros H1 (pre & -> & Hpre). exists (t1 ++ pre).
  split; [now rewrite app_assoc | now rewrite founds_app, H1, Hpre].
Qed.

Lemma yields_entered (k : nat) (u : string) (t : list event) :
  yields k u t -> founds t = [(k, u)].
Proof. intros (pre & -> & Hpre). now rewrite founds_app, Hpre. Qed.

(** What a piece of strategy [k] contributes to a trace. *)
Lemma piece_yield k U u (t : list event) :
  piece k U (Ok (Some u)) t -> U u /\ yields k u t /\ entered t = [].
Proof.
  intros (HU & pre & -> & [He Hf]). split; [assumption|]. split.
  - now exists pre.
  - now rewrite entered_app, He.
Qed.

Lemma piece_silent k U (r : res (option string)) (t : list event) :
  piece k U r t -> (forall u, r <> Ok (Some u)) ->
  founds t = [] /\ entered t = [].
Proof.
  destruct r as [[u|]|e]; simpl; intros H Hr;
    [now destruct (Hr u) | destruct H; now split ..].
Qed.

Lemma entered_enter (k : nat) (t : list event) :
  entered (Enter k :: t) = k :: entered t.
Proof. reflexivity. Qed.

Lemma founds_enter (k : nat) (t : list event) :
  founds (Enter k :: t) = founds t.
Proof. reflexivity. Qed.

Lemma entered_caught (h : handler) (t : list event) :
  entered (Caught h :: t) = entered t.
Proof. reflexivity. Qed.

Lemma founds_caught (h : handler) (t : list event) :
  founds (Caught h :: t) = founds t.
Proof. reflexivity. Qed.

Lemma entered_nil : entered [] = [].
Proof. reflexivity. Qed.

Lemma founds_nil : founds [] = [].
Proof. reflexivity. Qed.

#[local] Hint Rewrite entered_enter founds_enter entered_caught founds_caught
  entered_nil founds_nil entered_app founds_app app_nil_r : traces.

Lemma yields_enter (j k : nat) (u : string) (t : list event) :
  yields k u t -> yields k u (Enter j :: t).
Proof. intros H. now apply (yields_app k u [Enter j]). Qed.

Ltac traces :=
  cbv beta; unfold homepage_inner_spec, homepage_spec, chain_spec;
  autorewrite with traces.

Section Chain.
Context {W : World}.

Lemma homepage_inner (base_url : string) :
  sat (emit (Enter 1) >>
       let* r := strategy_navigation base_url in
       match r with
       | Some u => ret (Some u)
       | None =>
           emit (Enter 2) >>
           let* r := strategy_footer base_url in
           match r with
           | Some u => ret (Some u)
           | None => emit (Enter 3) >> strategy_full_page base_url
           end
       end)
      (homepage_inner_spec base_url).
Proof.
  apply sat_emit_then.
  apply sat_bind with (P := piece 1 (navigation_url base_url));
    [apply strategy_navigation_piece | |].
  2: { intros e t1 H1. apply piece_silent in H1 as [F1 E1]; [|discriminate].
       traces. rewrite F1, E1. split; [reflexivity | now left]. }
  intros [u|] t1 H1.
  { apply sat_ret. apply piece_yield in H1 as (HU & Hy & E1).
    exists 1. traces. rewrite E1. repeat split; try lia; try assumption.
    now apply yields_enter. }
  apply piece_silent in H1 as [F1 E1]; [|discriminate].
  apply sat_emit_then.
  apply sat_bind with (P := piece 2 (resolved base_url));
    [apply strategy_footer_piece | |].
  2: { intros e t2 H2. apply piece_silent in H2 as [F2 E2]; [|discriminate].
       traces. rewrite F1, E1, F2, E2. split; [reflexivity|].
       right. now left. }
  intros [u|] t2 H2.
  { apply sat_ret. apply piece_yield in H2 as (HU & Hy & E2).
    exists 2. traces. rewrite E1, E2. repeat split; try lia; try assumption.
    apply yields_enter, yields_app; [assumption|]. now apply yields_enter. }
  apply piece_silent in H2 as [F2 E2]; [|discriminate].
  apply sat_emit_then.
  eapply sat_weaken; [apply strategy_full_page_piece|].
  intros [[u|]|e] t3 H3.
  - apply piece_yield in H3 as (HU & Hy & E3).
    exists 3. traces. rewrite E1, E2, E3. repeat split; try lia; try assumption.
    apply yields_enter, yields_app; [assumption|].
    apply yields_enter, yields_app; [assumption|]. now apply yields_enter.
  - apply piece_silent in H3 as [F3 E3]; [|discriminate].
    traces. now rewrite F1, E1, F2, E2, F3, E3.
  - apply piece_silent in H3 as [F3 E3]; [|discriminate].
    traces. rewrite F1, E1, F2, E2, F3, E3. split; [reflexivity|].
    right. now right.
Qed.

(** Strategies 1 to 3 with their handler: a yield, or nothing, never an
    exception. *)
Lemma homepage_strategies_spec (base_url : string) :
  sat (homepage_strategies base_url) (homepage_spec base_url).
Proof.
  unfold homepage_strategies.
  apply sat_try with (P := homepage_inner_spec base_url);
    [apply homepage_inner | |].
  - intros [u|] t H; [exact H|]. destruct H as [F E]. split; [exact F|].
    rewrite E. right. now right.
  - intros e t1 [F1 E1]. apply sat_emit_then, sat_ret. traces.
    now rewrite F1.
Qed.

End Chain.

Lemma scheme_truthy (u : string) :
  Py.has_http_scheme u = true -> Py.truthy u = true.
Proof. destruct u; [discriminate | reflexivity]. Qed.

Section ChainSpec.
Context {W : World}.

(** Every run of the chain has one of the shapes of [chain_spec]. *)
Lemma find_career_page_spec (base_url company_name : string) :
  sat (find_career_page base_url company_name) (chain_spec base_url).
Proof.
  unfold find_career_page. apply sat_emit_then.
  apply sat_bind with (P := piece 0 (fun u => Py.has_http_scheme u = true));
    [apply check_subdomain_urls_piece | |].
  2: { intros e t0 H0. apply piece_silent in H0 as [F0 E0]; [|discriminate].
       traces. now rewrite F0, E0. }
  intros [u|] t0 H0.
  { apply piece_yield in H0 as (HU & Hy & E0).
    cbn [Py.truthy_opt]. rewrite (scheme_truthy u HU).
    apply sat_ret. exists 0. traces. rewrite E0.
    repeat split; [now apply yields_enter | | assumption].
    left. split; [lia | reflexivity]. }
  apply piece_silent in H0 as [F0 E0]; [|discriminate].
  cbn [Py.truthy_opt].
  apply sat_bind with (P := homepage_spec base_url);
    [apply homepage_strategies_spec | | intros e t1 []].
  intros [u|] t1 H1.
  { destruct H1 as (k & Hk & Hy & E1 & Ho).
    apply sat_ret. exists k. traces. rewrite E0, E1.
    repeat split; [| |assumption].
    - apply yields_enter, yields_app; assumption.
    - left. split; [lia | reflexivity]. }
  destruct H1 as [F1 E1].
  apply sat_emit_then.
  apply sat_bind
    with (P := fun r t => piece 4 (direct base_url) r t /\ returns r);
    [apply strategy_direct_piece | | intros e t4 [_ [a Ha]]; discriminate Ha].
  intros [u|] t4 [H4 _].
  { apply piece_yield in H4 as (HU & Hy & E4).
    apply sat_ret. exists 4. traces. rewrite E0, E4.
    repeat split; [| |assumption].
    - apply yields_enter, yields_app; [assumption|].
      apply yields_app; [assumption|]. now apply yields_enter.
    - right. exists (entered t1). split; [assumption|]. left. now split. }
  apply piece_silent in H4 as [F4 E4]; [|discriminate].
  apply sat_emit_then.
  apply sat_bind
    with (P := fun r t => piece 5 (fun _ => True) r t /\ returns r);
    [apply strategy_search_piece | | intros e t5 [_ [a Ha]]; discriminate Ha].
  intros [u|] t5 [H5 _]; apply sat_ret.
  - apply piece_yield in H5 as (_ & Hy & E5).
    exists 5. traces. rewrite E0, E4, E5.
    repeat split.
    + apply yields_enter, yields_app; [assumption|].
      apply yields_app; [assumption|].
      apply yields_enter, yields_app; [assumption|]. now apply yields_enter.
    + right. exists (entered t1). split; [assumption|]. right. now split.
  - apply piece_silent in H5 as [F5 E5]; [|discriminate].
    traces. rewrite F0, F1, F4, F5, E0, E4, E5. split; [reflexivity|].
    now exists (entered t1).
Qed.

End ChainSpec.

(** ** Every candidate is tried *)

Section Extends.
Context {W : World}.

Lemma extends_ret {A} (a : A) : extends (ret a).
Proof. now apply sat_ret. Qed.

Lemma extends_emit (e : event) : extends (emit e).
Proof. now apply sat_emit. Qed.

Lemma extends_call {A} (rq : request A) : extends (call rq).
Proof. now apply sat_call. Qed.

Lemma extends_bind {A B} (m : M A) (f : A -> M B) :
  extends m -> (forall a, extends (f a)) -> extends (bind m f).
Proof.
  intros Hm Hf. apply sat_bind with (P := fun _ _ => True); auto.
  intros a t1 _. eapply sat_weaken; [apply Hf | auto].
Qed.

Lemma extends_try {A} (m : M A) (h : exn -> M A) :
  extends m -> (forall e, extends (h e)) -> extends (try_catch m h).
Proof.
  intros Hm Hh. apply sat_try with (P := fun _ _ => True); auto.
  intros e t1 _. eapply sat_weaken; [apply Hh | auto].
Qed.

Lemma extends_for_each {A} (body : A -> M (option string)) (xs : list A) :
  (forall x, extends (body x)) -> extends (for_each body xs).
Proof.
  intros Hb. induction xs as [|x xs IH]; simpl; [apply extends_ret|].
  apply extends_bind; [apply Hb|]. intros [u|]; [apply extends_ret | exact IH].
Qed.

Lemma extends_for_each_guarded {A} h (body : A -> M (option string))
  (xs : list A) :
  (forall x, extends (body x)) -> extends (for_each_guarded h body xs).
Proof.
  intros Hb. induction xs as [|x xs IH]; simpl; [apply extends_ret|].
  apply extends_bind.
  - apply extends_try; [apply Hb|]. intros e.
    apply extends_bind; [apply extends_emit | intros _; apply extends_ret].
  - intros [u|]; [apply extends_ret | exact IH].
Qed.

Lemma for_each_guarded_returns {A} h (body : A -> M (option string))
  (xs : list A) :
  (forall x, extends (body x)) ->
  sat (for_each_guarded h body xs) (fun r _ => returns r).
Proof.
  intros Hb. induction xs as [|x xs IH]; simpl.
  - apply sat_ret. now exists None.
  - apply sat_bind with (P := fun r _ => returns r).
    + eapply sat_try; [apply Hb | |].
      * intros a t _. now exists a.
      * intros e t1 _. apply sat_emit_then, sat_ret. now exists None.
    + intros [u|] t1 _; [apply sat_ret; now exists (Some u)|].
      eapply sat_weaken; [apply IH | auto].
    + intros e t1 [a Ha]. discriminate Ha.
Qed.

End Extends.

Ltac extends_tac :=
  repeat first
    [ apply extends_ret
    | apply extends_emit
    | apply extends_call
    | apply extends_for_each; intros ?
    | apply extends_for_each_guarded; intros ?
    | apply extends_try; [|intros ?]
    | apply extends_bind; [|intros ?]
    | match goal with
      | |- extends (if ?b then _ else _) => destruct b
      | |- extends (match ?x with _ => _ end) => destruct x
      end
    | progress cbv beta ].

Section Cover.
Context {W : World}.

Lemma navigations_app (t1 t2 : list event) :
  navigations (t1 ++ t2) = navigations t1 ++ navigations t2.
Proof. apply flat_map_app. Qed.

(** A computation that starts with a navigation to [url]. *)
Lemma goto_first {B} p url timeout (f : option N -> M B) :
  (forall a, extends (f a)) ->
  sat (bind (goto p url timeout) f) (fun _ t => In url (navigations t)).
Proof.
  intros Hf. unfold goto.
  apply sat_bind with (P := fun _ t => t = [Navigate url]).
  - apply sat_emit_then, sat_call. reflexivity.
  - intros a t1 ->. eapply sat_weaken; [apply Hf|].
    intros r t2 _. now left.
  - intros e t1 ->. now left.
Qed.

(** A guarded loop that yields nothing has run its body on every item. *)
Lemma for_each_guarded_cover {A} h (nav : A -> string)
  (body : A -> M (option string)) (xs : list A) :
  (forall x, sat (body x) (fun _ t => In (nav x) (navigations t))) ->
  sat (for_each_guarded h body xs)
      (fun r t => r = Ok None ->
                  forall x, In x xs -> In (nav x) (navigations t)).
Proof.
  intros Hb. induction xs as [|x xs IH]; simpl.
  - apply sat_ret. intros _ x [].
  - apply sat_bind with (P := fun _ t => In (nav x) (navigations t)).
    + eapply sat_try; [apply Hb | auto |].
      intros e t1 H1. apply sat_emit_then, sat_ret.
      rewrite navigations_app. apply in_or_app. now left.
    + intros [u|] t1 H1; [apply sat_ret; discriminate|].
      eapply sat_weaken; [apply IH|]. intros r t2 H2 Hr y [<-|Hy];
        rewrite navigations_app; apply in_or_app; [now left | right; auto].
    + intros e t1 _. discriminate.
Qed.

Lemma strategy_direct_cover (base_url : string) :
  sat (strategy_direct base_url)
      (fun r t => r = Ok None ->
                  forall p, In p URL_PATTERNS ->
                            In (Py.rstrip_slash base_url +:+ p) (navigations t)).
Proof.
  unfold strategy_direct.
  apply (for_each_guarded_cover HDirect
           (fun p => Py.rstrip_slash base_url +:+ p)).
  intros p. apply goto_first. intros response. extends_tac.
Qed.

Lemma strategy_search_cover (company_name : string) :
  sat (strategy_search company_name)
      (fun r t => r = Ok None ->
                  forall q, In q (search_queries company_name) ->
                            In (search_url q) (navigations t)).
Proof.
  unfold strategy_search.
  eapply sat_try
    with (P := fun r t => (r = Ok None ->
                           forall q, In q (search_queries company_name) ->
                                     In (search_url q) (navigations t))
                          /\ returns r).
  - apply sat_and.
    + apply (for_each_guarded_cover HQuery search_url).
      intros q. apply goto_first. intros response. extends_tac.
    + apply for_each_guarded_returns. intros q. unfold goto. extends_tac.
  - tauto.
  - intros e t1 [_ [a Ha]]. discriminate Ha.
Qed.

Lemma check_subdomain_urls_cover (base_url company_name : string) :
  sat (check_subdomain_urls base_url company_name)
      (fun r t => r = Ok None ->
                  forall urls, subdomain_urls base_url = Some urls ->
                  forall u, In u urls -> In u (navigations t)).
Proof.
  unfold check_subdomain_urls.
  destruct (subdomain_urls base_url) as [urls|];
    [|apply sat_ret; intros _ urls' [=]].
  apply sat_bind with (P := fun _ t => t = []);
    [now apply sat_call | | intros e t1 _; discriminate].
  intros _ t1 ->. cbn [app].
  eapply sat_bind;
    [apply (for_each_guarded_cover HSubdomain (fun u => u)) | |].
  - intros url. apply goto_first. intros response. extends_tac.
  - intros [u|] t2 H2; [apply sat_ret; discriminate|].
    eapply sat_weaken; [apply extends_bind;
                        [apply extends_call | intros _; apply extends_ret]|].
    intros r t3 _ Hr urls' [= <-] u Hu.
    rewrite navigations_app. apply in_or_app. left. now apply H2.
  - intros e t2 _. discriminate.
Qed.

Lemma homepage_strategies_extends (base_url : string) :
  extends (homepage_strategies base_url).
Proof.
  unfold homepage_strategies, strategy_navigation, strategy_footer,
    strategy_full_page, navigation_menus, third_party_scan,
    career_link_scan, goto.
  extends_tac.
Qed.

(** A run of the chain that finds nothing has tried every candidate. *)
Lemma find_career_page_cover (base_url company_name : string) :
  sat (find_career_page base_url company_name)
      (fun r t => r = Ok None -> all_candidates_tried base_url company_name t).
Proof.
  unfold find_career_page. apply sat_emit_then.
  eapply sat_bind;
    [apply sat_and;
     [apply check_subdomain_urls_piece
     |apply (check_subdomain_urls_cover base_url company_name)] | |].
  2: { intros e t0 _. discriminate. }
  intros [u|] t0 [H0 C0].
  { apply piece_yield in H0 as (HU & _). cbn [Py.truthy_opt].
    rewrite (scheme_truthy u HU). apply sat_ret. discriminate. }
  cbn [Py.truthy_opt]. specialize (C0 eq_refl).
  apply sat_bind with (P := fun _ _ => True);
    [apply homepage_strategies_extends | | intros e t1 _; discriminate].
  intros [u|] t1 _; [apply sat_ret; discriminate|].
  apply sat_emit_then.
  eapply sat_bind;
    [apply (strategy_direct_cover base_url) | | intros e t4 _; discriminate].
  intros [u|] t4 C4; [apply sat_ret; discriminate|]. specialize (C4 eq_refl).
  apply sat_emit_then.
  eapply sat_bind;
    [apply (strategy_search_cover company_name) | |
     intros e t5 _; discriminate].
  intros [u|] t5 C5; apply sat_ret; [discriminate|]. specialize (C5 eq_refl).
  intros _. unfold all_candidates_tried.
  change (Enter 0 :: ?x) with ([Enter 0] ++ x).
  repeat split.
  - intros urls Hurls x Hx. specialize (C0 urls Hurls x Hx).
    rewrite !navigations_app, !in_app_iff. tauto.
  - intros p Hp. specialize (C4 p Hp).
    change (Enter 4 :: ?x) with ([Enter 4] ++ x).
    rewrite !navigations_app, !in_app_iff. tauto.
  - intros q Hq. specialize (C5 q Hq).
    change (Enter 4 :: ?x) with ([Enter 4] ++ x).
    change (Enter 5 :: ?x) with ([Enter 5] ++ x).
    rewrite !navigations_app, !in_app_iff. tauto.
Qed.

End Cover.

(** ** The chain: order, short circuit, errors *)

Lemma yields_unique (k0 k : nat) (u0 u : string) (pre0 pre post : list event) :
  founds pre0 = [] ->
  pre0 ++ [Found k0 u0] = pre ++ Found k u :: post ->
  post = [] /\ k = k0 /\ u = u0.
Proof.
  intros F0 E. destruct (exists_last (l := Found k u :: post)) as (q & x & Hq);
    [discriminate|].
  rewrite Hq, app_assoc in E. apply app_inj_tail in E as [E Ex].
  destruct post as [|y post].
  - destruct q; [|destruct q; discriminate Hq].
    injection Hq as <-. now injection Ex as <- <-.
  - exfalso. destruct q as [|z q]; [discriminate Hq|].
    injection Hq as <- _. subst pre0.
    rewrite founds_app in F0. apply app_eq_nil in F0 as [_ F0]. discriminate F0.
Qed.

Lemma no_yield (k : nat) (u : string) (pre post : list event) :
  founds (pre ++ Found k u :: post) <> [].
Proof.
  rewrite founds_app. intros E. apply app_eq_nil in E as [_ E]. discriminate E.
Qed.

Lemma reached_in_order (k : nat) (es : list nat) :
  reached k es -> in_order es /\ In k es /\ forall j, In j es -> j <= k.
Proof.
  intros [[Hk ->]|(h & Hh & [[-> ->]|[-> ->]])].
  - destruct k as [|[|[|[|k]]]]; [| | | |lia];
      (split; [repeat split; repeat constructor; lia|]);
      (split; [simpl; tauto|]); simpl; intros j Hj; lia.
  - destruct Hh as [->|[->| ->]];
      (split; [repeat split; repeat constructor; lia|]);
      (split; [simpl; tauto|]); simpl; intros j Hj; lia.
  - destruct Hh as [->|[->| ->]];
      (split; [repeat split; repeat constructor; lia|]);
      (split; [simpl; tauto|]); simpl; intros j Hj; lia.
Qed.

Lemma chain_in_order (base_url : string) (r : res (option string))
  (t : list event) :
  chain_spec base_url r t -> in_order (entered t).
Proof.
  destruct r as [[u|]|e]; simpl.
  - intros (k & _ & Hr & _). now apply reached_in_order in Hr.
  - intros (_ & h & Hh & ->).
    destruct Hh as [->|[->| ->]]; repeat split; repeat constructor; lia.
  - intros (_ & ->). repeat split; repeat constructor; lia.
Qed.

Section ChainTheorems.
Context {W : World}.

(** C2.  In every run the strategies are entered in increasing order
    starting with strategy 0.  As soon as a strategy yields a URL the run
    is over: the yield is the last event, its URL is the result, and the
    yielding strategy is the last one entered.  A URL is only ever
    returned that way. *)
Theorem chain_short_circuits (base_url company_name : string) (w : state W) :
  in_order (entered (run_trace (find_career_page base_url company_name) w)) /\
  (forall k u pre post,
     run_trace (find_career_page base_url company_name) w
       = pre ++ Found k u :: post ->
     post = [] /\
     run_result (find_career_page base_url company_name) w = Ok (Some u) /\
     In k (entered (run_trace (find_career_page base_url company_name) w)) /\
     forall j,
       In j (entered (run_trace (find_career_page base_url company_name) w)) ->
       j <= k) /\
  (forall u,
     run_result (find_career_page base_url company_name) w = Ok (Some u) ->
     exists k,
       yields k u (run_trace (find_career_page base_url company_name) w)).
Proof.
  pose proof (sat_run _ _ w (find_career_page_spec base_url company_name)) as H.
  fold (run_result (find_career_page base_url company_name) w) in H.
  fold (run_trace (find_career_page base_url company_name) w) in H.
  split; [eapply chain_in_order; exact H|].
  destruct (run_result (find_career_page base_url company_name) w)
    as [[u0|]|e]; simpl in H; (split; [|intros u [= <-] || intros u [=]]).
  - destruct H as (k0 & (pre0 & E0 & F0) & Hr & _).
    intros k u pre post E. rewrite E0 in E.
    destruct (yields_unique _ _ _ _ _ _ _ F0 E) as (-> & -> & ->).
    apply reached_in_order in Hr as (_ & Hin & Hle). auto.
  - destruct H as (k0 & Hy & _). now exists k0.
  - destruct H as [F _]. intros k u pre post E. rewrite E in F.
    now apply no_yield in F.
  - destruct H as [F _]. intros k u pre post E. rewrite E in F.
    now apply no_yield in F.
Qed.

(** X14.  What holds of the URLs that are returned: with a base URL that
    keeps its scheme once its trailing slashes are gone, every URL returned
    starts with [http://] or [https://], unless it is a third-party href
    that strategy 1 returns as found or the browser's location after a
    search (strategy 5). *)
Lemma found_url_scheme (base_url company_name : string) (w : state W)
  (u : string) :
  Py.has_http_scheme (Py.rstrip_slash base_url) = true ->
  run_result (find_career_page base_url company_name) w = Ok (Some u) ->
  exists k,
    yields k u (run_trace (find_career_page base_url company_name) w) /\
    (Py.has_http_scheme u = true \/ (k = 1 /\ third_party u) \/ k = 5).
Proof.
  intros Hb Hr.
  pose proof (sat_run _ _ w (find_career_page_spec base_url company_name)) as H.
  fold (run_result (find_career_page base_url company_name) w) in H.
  fold (run_trace (find_career_page base_url company_name) w) in H.
  rewrite Hr in H. destruct H as (k & Hy & Hk & Ho).
  exists k. split; [exact Hy|].
  assert (Hres : forall x, resolved base_url x -> Py.has_http_scheme x = true).
  { intros x (h & _ & ->).
    now apply (ResolverFacts.resolve_scheme base_url h). }
  destruct k as [|[|[|[|[|k]]]]]; simpl in Ho.
  - now left.
  - destruct Ho as [Ho|Ho]; [right; left; now split | left; now apply Hres].
  - left. now apply Hres.
  - left. now apply Hres.
  - left. destruct Ho as (p & _ & ->). now apply PyFacts.scheme_app.
  - right. right.
    destruct Hk as [[Hk _]|(h & _ & [[Hk _]|[Hk _]])]; lia.
Qed.

End ChainTheorems.

(** C1 (the code falls short).  On a homepage with a protocol-relative
    link to a Lever board the chain returns the href as found, which has
    no scheme; the resolver that the other link scans apply would have
    given it one. *)
Theorem third_party_href_returned_raw :
  run_result (find_career_page (W := scripted lever_site)
                "https://acme.com" "Acme") tt
  = Ok (Some "//jobs.lever.co/acme") /\
  Py.has_http_scheme "//jobs.lever.co/acme" = false /\
  Py.has_http_scheme (resolve "https://acme.com" "//jobs.lever.co/acme") = true.
Proof. repeat split; vm_compute; reflexivity. Qed.

(** C3 (as stated, fails).  The "Company" menu of the homepage cannot be
    hovered: the exception raised during strategy 1 is caught by the
    handler around strategies 1 to 3, strategies 2 and 3 are never
    entered, and nothing is found, although the footer scan, run on that
    page, yields the careers link. *)
Lemma strategy_1_error_skips_footer :
  entered (run_trace (find_career_page (W := scripted hover_fails_site)
                        "https://acme.com" "Acme") tt) = [0; 1; 4; 5] /\
  In HHomepage
     (caught (run_trace (find_career_page (W := scripted hover_fails_site)
                           "https://acme.com" "Acme") tt)) /\
  run_result (find_career_page (W := scripted hover_fails_site)
                "https://acme.com" "Acme") tt = Ok None /\
  run_result (strategy_footer (W := scripted hover_fails_site)
                "https://acme.com") tt = Ok (Some "https://acme.com/careers").
Proof.
  repeat split; try (vm_compute; reflexivity).
  vm_compute. do 13 right. now left.
Qed.

Lemma chain_short_circuits_witness :
  run_result (find_career_page (W := scripted lever_site)
                "https://acme.com" "Acme") tt
  = Ok (Some "//jobs.lever.co/acme").
Proof.
  pose proof (chain_short_circuits (W := scripted lever_site)
                "https://acme.com" "Acme" tt) as (_ & H & _).
  specialize (H 1 "//jobs.lever.co/acme"
                (removelast
                   (run_trace (find_career_page (W := scripted lever_site)
                                 "https://acme.com" "Acme") tt))
                []).
  refine (proj1 (proj2 (H _))). vm_compute. reflexivity.
Defined.

(** ** The recorder *)

Lemma truthy_iff (s : string) : Py.truthy s = true <-> s <> "".
Proof. destruct s; simpl; split; congruence. Qed.

Lemma load_processed_from (rows : list store_row) (acc : gset string)
  (name : string) :
  name ∈ fold_left
           (fun processed row =>
              if Py.truthy (career_url row) then {[ company row ]} ∪ processed
              else processed)
           rows acc <->
  name ∈ acc \/
  exists row, In row rows /\ company row = name /\ career_url row <> "".
Proof.
  revert acc. induction rows as [|row rows IH]; intros acc; simpl.
  - split; [now left | intros [H|(row & [] & _)]; exact H].
  - rewrite IH. destruct (Py.truthy (career_url row)) eqn:E.
    + apply truthy_iff in E. rewrite elem_of_union, elem_of_singleton. split.
      * intros [[->|H]|(r & Hin & H)]; [right; exists row | now left |
                                         right; exists r]; tauto.
      * intros [H|(r & [<-|Hin] & <- & H)]; [tauto | tauto |].
        right. now exists r.
    + assert (E' : career_url row = "") by (destruct (career_url row); [reflexivity | discriminate]).
      split.
      * intros [H|(r & Hin & H)]; [now left | right; exists r; tauto].
      * intros [H|(r & [<-|Hin] & Hc & H)]; [now left | congruence |].
        right. now exists r.
Qed.

Lemma load_processed_iff (output : list store_row) (name : string) :
  name ∈ load_processed output <->
  exists row, In row output /\ company row = name /\ career_url row <> "".
Proof.
  unfold load_processed. rewrite load_processed_from. split.
  - intros [H|H]; [|exact H]. now apply not_elem_of_empty in H.
  - intros H. now right.
Qed.


Section RecorderFacts.
Context {W : World}.


End RecorderFacts.

Lemma in_firstn {A} (n : nat) (l : list A) (x : A) :
  In x (firstn n l) -> In x l.
Proof.
  revert n. induction l as [|a l IH]; intros [|n]; simpl; try tauto.
  intros [H|H]; [now left | right; eauto].
Qed.

Lemma NoDup_map_filter {A B} (f : A -> B) (p : A -> bool) (l : list A) :
  List.NoDup (map f l) -> List.NoDup (map f (List.filter p l)).
Proof.
  induction l as [|a l IH]; simpl; [auto|].
  intros H. apply List.NoDup_cons_iff in H as [Hn Hd].
  destruct (p a); simpl; [|auto].
  apply List.NoDup_cons_iff. split; [|auto].
  intros Hin. apply Hn. apply in_map_iff in Hin as (x & Hx & Hin).
  apply List.filter_In in Hin as [Hin _].
  apply in_map_iff. now exists x.
Qed.


Section RunFacts.
Context {W : World}.



End RunFacts.

(** ** Runs on scripted browsers *)


(** ** The itinerary of the chain *)

Section SilentFacts.
Context {W : World}.

Lemma navigations_app' (t1 t2 : list event) :
  navigations (t1 ++ t2) = navigations t1 ++ navigations t2.
Proof. apply flat_map_app. Qed.

Lemma silent_ret {A} (a : A) : silent (ret a).
Proof. now apply sat_ret. Qed.

Lemma silent_call {A} (rq : request A) : silent (call rq).
Proof. now apply sat_call. Qed.

Lemma silent_enter (k : nat) : silent (emit (Enter k)).
Proof. now apply sat_emit. Qed.

Lemma silent_found (k : nat) (u : string) : silent (emit (Found k u)).
Proof. now apply sat_emit. Qed.

Lemma silent_caught (h : handler) : silent (emit (Caught h)).
Proof. now apply sat_emit. Qed.

Lemma silent_bind {A B} (m : M A) (f : A -> M B) :
  silent m -> (forall a, silent (f a)) -> silent (bind m f).
Proof.
  intros Hm Hf.
  apply sat_bind with (P := fun _ t => navigations t = []); auto.
  intros a t1 H1. eapply sat_weaken; [apply Hf|].
  intros r t2 H2. now rewrite navigations_app', H1, H2.
Qed.

Lemma silent_try {A} (m : M A) (h : exn -> M A) :
  silent m -> (forall e, silent (h e)) -> silent (try_catch m h).
Proof.
  intros Hm Hh.
  apply sat_try with (P := fun _ t => navigations t = []); auto.
  intros e t1 H1. eapply sat_weaken; [apply Hh|].
  intros r t2 H2. now rewrite navigations_app', H1, H2.
Qed.

Lemma silent_for_each {A} (body : A -> M (option string)) (xs : list A) :
  (forall x, silent (body x)) -> silent (for_each body xs).
Proof.
  intros Hb. induction xs as [|x xs IH]; simpl; [apply silent_ret|].
  apply silent_bind; [apply Hb|]. intros [u|]; [apply silent_ret | exact IH].
Qed.

Lemma silent_for_each_guarded {A} h (body : A -> M (option string))
  (xs : list A) :
  (forall x, silent (body x)) -> silent (for_each_guarded h body xs).
Proof.
  intros Hb. induction xs as [|x xs IH]; simpl; [apply silent_ret|].
  apply silent_bind.
  - apply silent_try; [apply Hb|]. intros e.
    apply silent_bind; [apply silent_caught | intros _; apply silent_ret].
  - intros [u|]; [apply silent_ret | exact IH].
Qed.

End SilentFacts.

Ltac silent_tac :=
  repeat first
    [ apply silent_ret
    | apply silent_enter
    | apply silent_found
    | apply silent_caught
    | apply silent_call
    | apply silent_for_each; intros ?
    | apply silent_for_each_guarded; intros ?
    | apply silent_try; [|intros ?]
    | apply silent_bind; [|intros ?]
    | match goal with
      | |- silent (if ?b then _ else _) => destruct b
      | |- silent (match ?x with _ => _ end) => destruct x
      end
    | progress cbv beta ].

Section Itinerary.
Context {W : World}.

(** A computation that navigates to [url] and then no more. *)
Lemma goto_only {B} p url timeout (f : option N -> M B) :
  (forall a, silent (f a)) ->
  sat (bind (goto p url timeout) f) (fun _ t => navigations t = [url]).
Proof.
  intros Hf. unfold goto.
  apply sat_bind with (P := fun _ t => t = [Navigate url]).
  - apply sat_emit_then, sat_call. reflexivity.
  - intros a t1 ->. eapply sat_weaken; [apply Hf|].
    intros r t2 H2. now rewrite navigations_app', H2.
  - intros e t1 ->. reflexivity.
Qed.

Lemma stops_within_app (L1 L2 : list string) (r : res (option string))
  (t1 t2 : list event) :
  navigations t1 = L1 -> stops_within L2 r t2 ->
  stops_within (L1 ++ L2) r (t1 ++ t2).
Proof.
  intros H1. unfold stops_within. rewrite navigations_app', H1.
  destruct r as [[u|]|e].
  - intros [rest ->]. exists rest. now rewrite app_assoc.
  - now intros ->.
  - intros [rest ->]. exists rest. now rewrite app_assoc.
Qed.

Lemma stops_within_cons (L : list string) (r : res (option string))
  (k : nat) (t : list event) :
  stops_within L r t -> stops_within L r (Enter k :: t).
Proof. intros H. exact H. Qed.

Lemma stops_within_early (L1 L2 : list string) (r : res (option string))
  (t : list event) :
  r <> Ok None -> stops_within L1 r t -> stops_within (L1 ++ L2) r t.
Proof.
  unfold stops_within. destruct r as [[u|]|e]; [|congruence|];
    intros _ [rest ->]; exists (rest ++ L2); now rewrite app_assoc.
Qed.

(** A guarded loop whose body navigates to [nav x] and nowhere else. *)
Lemma for_each_guarded_itinerary {A} h (nav : A -> string)
  (body : A -> M (option string)) (xs : list A) :
  (forall x, sat (body x) (fun _ t => navigations t = [nav x])) ->
  sat (for_each_guarded h body xs)
      (fun r t => stops_within (map nav xs) r t /\ returns r).
Proof.
  intros Hb. induction xs as [|x xs IH]; simpl.
  - apply sat_ret. split; [reflexivity | now exists None].
  - apply sat_bind
      with (P := fun r t => navigations t = [nav x] /\ returns r).
    + eapply sat_try; [apply Hb | |].
      * intros a t H. split; [exact H | now exists a].
      * intros e t1 H1. apply sat_emit_then, sat_ret.
        split; [|now exists None].
        rewrite navigations_app', H1. reflexivity.
    + intros [u|] t1 [H1 _].
      * apply sat_ret. rewrite app_nil_r. split; [|now exists (Some u)].
        exists (map nav xs). now rewrite H1.
      * eapply sat_weaken; [apply IH|]. intros r t2 [H2 Hr].
        split; [|exact Hr].
        now apply (stops_within_app [nav x] (map nav xs)).
    + intros e t1 [_ [a Ha]]. discriminate Ha.
Qed.

Lemma check_subdomain_urls_itinerary (base_url company_name : string) :
  sat (check_subdomain_urls base_url company_name)
      (stops_within (subdomain_candidates base_url)).
Proof.
  unfold check_subdomain_urls, subdomain_candidates.
  destruct (subdomain_urls base_url) as [urls|]; [|now apply sat_ret].
  apply sat_bind with (P := fun _ t => t = []);
    [now apply sat_call | | intros e t1 ->; exists urls; reflexivity].
  intros _ t1 ->. cbn [app].
  eapply sat_bind;
    [apply (for_each_guarded_itinerary HSubdomain (fun u => u)) | |].
  - intros url. apply goto_only. intros response. silent_tac.
  - rewrite map_id. intros [u|] t2 [H2 _].
    + apply sat_ret. now rewrite app_nil_r.
    + simpl in H2. eapply sat_weaken;
        [apply silent_bind; [apply silent_call | intros _; apply silent_ret]|].
      intros r t3 H3. unfold stops_within.
      rewrite navigations_app', H3, app_nil_r, H2.
      destruct r as [[u|]|e];
        [exists []; now rewrite app_nil_r | reflexivity
        |exists []; now rewrite app_nil_r].
  - intros e t2 [_ [a Ha]]. discriminate Ha.
Qed.

Lemma strategy_navigation_itinerary (base_url : string) :
  sat (strategy_navigation base_url) (fun _ t => navigations t = [base_url]).
Proof.
  unfold strategy_navigation. apply goto_only. intros response.
  unfold navigation_menus, third_party_scan, career_link_scan. silent_tac.
Qed.

Lemma homepage_strategies_itinerary (base_url : string) :
  sat (homepage_strategies base_url)
      (fun _ t => navigations t = [base_url]).
Proof.
  unfold homepage_strategies.
  apply sat_try with (P := fun _ t => navigations t = [base_url]).
  - apply sat_emit_then.
    eapply sat_bind; [apply strategy_navigation_itinerary | |].
    + intros r t1 H1. eapply sat_weaken.
      * assert (S : silent
                      match r with
                      | Some u => ret (Some u)
                      | None =>
                          emit (Enter 2) >>
                          let* r0 := strategy_footer base_url in
                          match r0 with
                          | Some u => ret (Some u)
                          | None =>
                              emit (Enter 3) >> strategy_full_page base_url
                          end
                      end).
        { unfold strategy_footer, strategy_full_page, career_link_scan.
          silent_tac. }
        exact S.
      * intros r' t2 H2. cbn [navigations flat_map app].
        fold (navigations (t1 ++ t2)). now rewrite navigations_app', H1, H2.
    + intros e t1 H1. exact H1.
  - auto.
  - intros e t1 H1. apply sat_emit_then, sat_ret.
    now rewrite navigations_app', H1.
Qed.

Lemma strategy_direct_itinerary (base_url : string) :
  sat (strategy_direct base_url)
      (fun r t => stops_within (direct_candidates base_url) r t /\ returns r).
Proof.
  unfold strategy_direct, direct_candidates.
  apply (for_each_guarded_itinerary HDirect
           (fun p => Py.rstrip_slash base_url +:+ p)).
  intros p. apply goto_only. intros response. silent_tac.
Qed.

Lemma strategy_search_itinerary (company_name : string) :
  sat (strategy_search company_name)
      (fun r t => stops_within (search_candidates company_name) r t
                  /\ returns r).
Proof.
  unfold strategy_search, search_candidates.
  eapply sat_try;
    [apply (for_each_guarded_itinerary HQuery search_url) | |].
  - intros q. apply goto_only. intros response. silent_tac.
  - intros a t H. exact H.
  - intros e t1 [_ [a Ha]]. discriminate Ha.
Qed.

Lemma find_career_page_itinerary (base_url company_name : string) :
  sat (find_career_page base_url company_name)
      (stops_within (itinerary base_url company_name)).
Proof.
  unfold find_career_page, itinerary. apply sat_emit_then.
  eapply sat_bind;
    [apply sat_and;
     [apply check_subdomain_urls_piece
     |apply (check_subdomain_urls_itinerary base_url company_name)] | |].
  2: { intros e t0 [_ H0]. apply stops_within_cons.
       now apply stops_within_early. }
  intros [u|] t0 [H0 I0].
  { apply piece_yield in H0 as (HU & _). cbn [Py.truthy_opt].
    rewrite (scheme_truthy u HU). apply sat_ret. rewrite app_nil_r.
    apply stops_within_cons. now apply stops_within_early. }
  cbn [Py.truthy_opt]. cbn [stops_within] in I0.
  eapply sat_bind;
    [apply sat_and;
     [apply homepage_strategies_spec
     |apply (homepage_strategies_itinerary base_url)] | |].
  2: { intros e t1 [[] _]. }
  intros [u|] t1 [_ I1].
  { apply sat_ret. rewrite app_nil_r.
    apply stops_within_cons, stops_within_app; [exact I0|].
    apply stops_within_early; [discriminate|].
    exists []. now rewrite I1. }
  apply sat_emit_then.
  eapply sat_bind; [apply (strategy_direct_itinerary base_url) | |].
  2: { intros e t4 [_ [a Ha]]. discriminate Ha. }
  intros [u|] t4 [I4 _].
  { apply sat_ret. rewrite app_nil_r.
    apply stops_within_cons, stops_within_app; [exact I0|].
    apply stops_within_app; [exact I1|].
    apply stops_within_cons. now apply stops_within_early. }
  apply sat_emit_then.
  eapply sat_bind; [apply (strategy_search_itinerary company_name) | |].
  2: { intros e t5 [_ [a Ha]]. discriminate Ha. }
  intros r5 t5 [I5 _].
  assert (G : stops_within
                (subdomain_candidates base_url ++ [base_url] ++
                 direct_candidates base_url ++ search_candidates company_name)
                (Ok r5)
                (Enter 0 :: t0 ++ t1 ++ Enter 4 :: t4 ++ Enter 5 :: t5)).
  { apply stops_within_cons, stops_within_app; [exact I0|].
    apply stops_within_app; [exact I1|].
    apply stops_within_cons, stops_within_app; [exact I4|].
    apply stops_within_cons. exact I5. }
  destruct r5 as [u|]; apply sat_ret; rewrite app_nil_r; exact G.
Qed.

Lemma itinerary_length (base_url company_name : string) :
  List.length (itinerary base_url company_name) <= 80.
Proof.
  unfold itinerary, subdomain_candidates, subdomain_urls, direct_candidates,
    search_candidates.
  rewrite !length_app, !length_map.
  destruct (re_match false BASE_URL_RE base_url) as [[|d caps]|];
    simpl; try rewrite length_map; simpl; lia.
Qed.

End Itinerary.

(** ** The website as strategy 0 reads it *)

Lemma match_here_group (ci : bool) (r : pattern) (s : string) :
  match_here ci (NonSlash :: r) s = group ci r s "".
Proof. reflexivity. Qed.

Lemma strip_exact (l s s' : string) :
  strip false l s = Some s' <-> s = l +:+ s'.
Proof.
  revert s. induction l as [|a l IH]; intros s; simpl.
  - split; [now intros [= ->] | now intros ->].
  - destruct s as [|b s]; [split; discriminate|].
    unfold fold. destruct (Ascii.eqb_spec a b) as [->|Hne].
    + rewrite IH. split; [now intros -> | now intros [= ->]].
    + split; [discriminate | intros [= E _]; now destruct Hne].
Qed.

Lemma strip_literal (ci : bool) (l s : string) : strip ci l (l +:+ s) = Some s.
Proof.
  induction l as [|a l IH]; simpl; [reflexivity|].
  now rewrite Ascii.eqb_refl.
Qed.

(** The group at the end of a pattern captures up to the first slash. *)
Lemma group_last (ci : bool) (s acc : string) :
  group ci [] s acc =
  match SpecResolver.upto_slash s with
  | EmptyString => None
  | p => Some [acc +:+ p]
  end.
Proof.
  revert acc. induction s as [|c s IH]; intros acc; [reflexivity|].
  cbn [group SpecResolver.upto_slash].
  destruct (Py.is_slash c); [reflexivity|].
  fold (group ci []). rewrite IH.
  destruct (SpecResolver.upto_slash s) as [|d p]; cbn [match_here].
  - reflexivity.
  - now rewrite PyFacts.append_assoc.
Qed.

Lemma startswith_strip (l s : string) :
  Py.startswith l s = true <-> exists s', strip false l s = Some s'.
Proof.
  rewrite PyFacts.startswith_iff. split; intros [t H]; exists t;
    now apply strip_exact.
Qed.

Lemma substring_after (l s : string) :
  String.substring (String.length l) (String.length (l +:+ s) - String.length l)
    (l +:+ s) = s.
Proof.
  induction l as [|a l IH]; simpl.
  - rewrite Nat.sub_0_r. induction s as [|c s IHs]; simpl; [reflexivity|].
    now rewrite IHs.
  - exact IH.
Qed.

Lemma upto_slash_prefix (s : string) :
  exists r, s = SpecResolver.upto_slash s +:+ r.
Proof.
  induction s as [|c s [r IH]]; simpl; [now exists ""|].
  destruct (Py.is_slash c); [now exists (String c s)|].
  exists r. simpl. now rewrite <- IH.
Qed.

Lemma after_http_https (x : string) : after_http ("https://" +:+ x) = Some x.
Proof.
  unfold after_http.
  assert (E : Py.startswith "https://" ("https://" +:+ x) = true)
    by (apply PyFacts.startswith_iff; now exists x).
  rewrite E. f_equal. apply (substring_after "https://" x).
Qed.

Lemma after_http_http (x : string) : after_http ("http://" +:+ x) = Some x.
Proof.
  unfold after_http.
  assert (E : Py.startswith "http://" ("http://" +:+ x) = true)
    by (apply PyFacts.startswith_iff; now exists x).
  rewrite E.
  destruct (Py.startswith "https://" ("http://" +:+ x)) eqn:E'.
  - apply PyFacts.startswith_iff in E' as [t Ht]. discriminate Ht.
  - f_equal. apply (substring_after "http://" x).
Qed.

Lemma after_http_none (b : string) :
  after_http b = None <->
  Py.startswith "http://" b = false /\ Py.startswith "https://" b = false.
Proof.
  unfold after_http.
  destruct (Py.startswith "https://" b), (Py.startswith "http://" b);
    split; try discriminate; try tauto; intros [? ?]; discriminate.
Qed.

(** The part [(?:www\.)?([^/]+)] of the pattern. *)
Lemma domain_match (x : string) :
  match_here false [Opt "www."; NonSlash] x =
  match SpecResolver.upto_slash x with
  | EmptyString => None
  | String c h => Some [strip_www (String c h)]
  end.
Proof.
  change (match_here false [Opt "www."; NonSlash] x)
    with (match match strip false "www." x with
                | Some s' => group false [] s' ""
                | None => None
                end with
          | Some caps => Some caps
          | None => group false [] x ""
          end).
  rewrite (group_last false x).
  destruct (strip false "www." x) as [x4|] eqn:E.
  - apply strip_exact in E. subst x. rewrite group_last.
    change (SpecResolver.upto_slash ("www." +:+ x4))
      with ("www." +:+ SpecResolver.upto_slash x4).
    assert (S : Py.startswith "www." ("www." +:+ SpecResolver.upto_slash x4)
                = true)
      by (apply PyFacts.startswith_iff; now eexists).
    assert (T : strip_www ("www." +:+ SpecResolver.upto_slash x4)
                = match SpecResolver.upto_slash x4 with
                  | EmptyString => "www."
                  | h => h
                  end).
    { unfold strip_www. rewrite S.
      change 4 with (String.length "www.").
      rewrite (substring_after "www." (SpecResolver.upto_slash x4)).
      now destruct (SpecResolver.upto_slash x4). }
    change ("www." +:+ SpecResolver.upto_slash x4)
      with (String "w" ("ww." +:+ SpecResolver.upto_slash x4)) in T |- *.
    cbv iota. rewrite T.
    now destruct (SpecResolver.upto_slash x4).
  - destruct (SpecResolver.upto_slash x) as [|c host] eqn:H; [reflexivity|].
    unfold strip_www.
    destruct (Py.startswith "www." (String c host)) eqn:S; [|reflexivity].
    exfalso. apply PyFacts.startswith_iff in S as [t Ht].
    destruct (upto_slash_prefix x) as [r Hr]. rewrite H, Ht in Hr.
    rewrite PyFacts.append_assoc in Hr.
    assert (E' : strip false "www." x = Some (t +:+ r))
      by now apply strip_exact.
    congruence.
Qed.

Lemma match_here_lit (ci : bool) (l : string) (r : pattern) (s : string) :
  match_here ci (Lit l :: r) s =
  match strip ci l s with
  | Some s' => match_here ci r s'
  | None => None
  end.
Proof. reflexivity. Qed.

Lemma match_here_opt (ci : bool) (l : string) (r : pattern) (s : string) :
  match_here ci (Opt l :: r) s =
  match match strip ci l s with
        | Some s' => match_here ci r s'
        | None => None
        end with
  | Some caps => Some caps
  | None => match_here ci r s
  end.
Proof. reflexivity. Qed.

Lemma base_url_re_match (b : string) :
  re_match false BASE_URL_RE b =
  match after_http b with
  | Some x => match_here false [Opt "www."; NonSlash] x
  | None => None
  end.
Proof.
  unfold re_match, BASE_URL_RE.
  set (D := match_here false [Opt "www."; NonSlash]).
  destruct (Py.startswith "https://" b) eqn:Es.
  { apply PyFacts.startswith_iff in Es as [x ->].
    rewrite after_http_https.
    change ("https://" +:+ x) with ("http" +:+ ("s" +:+ ("://" +:+ x))).
    rewrite match_here_lit, strip_literal, match_here_opt, strip_literal,
      match_here_lit, strip_literal.
    fold D. now destruct (D x). }
  destruct (Py.startswith "http://" b) eqn:Eh.
  { apply PyFacts.startswith_iff in Eh as [x ->].
    rewrite after_http_http.
    change ("http://" +:+ x) with ("http" +:+ ("://" +:+ x)).
    rewrite match_here_lit, strip_literal, match_here_opt.
    change (strip false "s" ("://" +:+ x)) with (@None string).
    cbv iota. now rewrite match_here_lit, strip_literal. }
  rewrite (proj2 (after_http_none b) (conj Eh Es)).
  rewrite match_here_lit.
  destruct (strip false "http" b) as [s1|] eqn:E1; [|reflexivity].
  apply strip_exact in E1. subst b. rewrite match_here_opt.
  destruct (strip false "s" s1) as [s2|] eqn:E2.
  - apply strip_exact in E2. subst s1. rewrite !match_here_lit.
    destruct (strip false "://" s2) as [s3|] eqn:E3.
    + apply strip_exact in E3. subst s2.
      assert (X : Py.startswith "https://" ("http" +:+ "s" +:+ "://" +:+ s3)
                  = true) by (apply PyFacts.startswith_iff; now exists s3).
      congruence.
    + destruct (strip false "://" ("s" +:+ s2)) as [s3|] eqn:E4;
        [|reflexivity].
      apply strip_exact in E4. discriminate E4.
  - rewrite match_here_lit.
    destruct (strip false "://" s1) as [s3|] eqn:E3; [|reflexivity].
    apply strip_exact in E3. subst s1.
    assert (X : Py.startswith "http://" ("http" +:+ "://" +:+ s3) = true)
      by (apply PyFacts.startswith_iff; now exists s3).
    congruence.
Qed.

(** The candidates of strategy 0, without regular expressions. *)
Lemma subdomain_urls_closed (b : string) :
  subdomain_urls b =
  match host_of b with
  | Some d =>
      Some (map (fun pattern =>
                   "https://" +:+ pattern +:+ "." +:+ base_domain_of d)
                SUBDOMAIN_PATTERNS)
  | None => None
  end.
Proof.
  unfold subdomain_urls, host_of. rewrite base_url_re_match.
  destruct (after_http b) as [x|]; [|reflexivity].
  rewrite domain_match.
  destruct (SpecResolver.upto_slash x) as [|c host]; reflexivity.
Qed.

Lemma upto_slash_free (s : string) :
  slash_free s = true -> SpecResolver.upto_slash s = s.
Proof.
  induction s as [|c s IH]; simpl; [reflexivity|].
  destruct (Py.is_slash c); simpl; [discriminate|].
  intros H. now rewrite IH.
Qed.

Lemma upto_slash_path (host path : string) :
  slash_free host = true ->
  SpecResolver.upto_slash (host +:+ String "/" path) = host.
Proof.
  induction host as [|c s IH]; [reflexivity|].
  cbn [String.append SpecResolver.upto_slash slash_free].
  destruct (Py.is_slash c); cbn [negb andb]; [discriminate|].
  intros H. now rewrite IH.
Qed.

Lemma split_dot_aux_app (cur x w : string) :
  Py.split_dot_aux cur (x +:+ "." +:+ w)
  = Py.split_dot_aux cur x ++ Py.split_dot w.
Proof.
  revert cur. induction x as [|c x IH]; intros cur; [reflexivity|].
  cbn [String.append Py.split_dot_aux].
  destruct (Ascii.eqb c "."); [|apply IH].
  cbn [app]. f_equal. apply IH.
Qed.

Lemma split_dot_aux_free (cur z : string) :
  dot_free z = true -> Py.split_dot_aux cur z = [cur +:+ z].
Proof.
  revert cur. induction z as [|c z IH]; intros cur; simpl.
  - now rewrite PyFacts.append_nil_r.
  - destruct (Ascii.eqb c "."); simpl; [discriminate|].
    intros H. rewrite (IH _ H). now rewrite PyFacts.append_assoc.
Qed.

Lemma base_domain_last_two (x y z : string) :
  dot_free y = true -> dot_free z = true ->
  base_domain_of (x +:+ "." +:+ y +:+ "." +:+ z) = y +:+ "." +:+ z.
Proof.
  intros Hy Hz. unfold base_domain_of, Py.split_dot.
  rewrite split_dot_aux_app. unfold Py.split_dot.
  rewrite split_dot_aux_app. unfold Py.split_dot.
  rewrite (split_dot_aux_free "" y Hy), (split_dot_aux_free "" z Hz).
  cbn [String.append app]. unfold Py.last_two.
  rewrite length_app. cbn [List.length].
  replace (List.length (Py.split_dot_aux "" x) + 2 - 2)
    with (List.length (Py.split_dot_aux "" x) + 0) by lia.
  rewrite skipn_app, Nat.add_0_r, skipn_all.
  replace (List.length (Py.split_dot_aux "" x)
           - List.length (Py.split_dot_aux "" x)) with 0 by lia.
  reflexivity.
Qed.

Lemma host_of_https (host : string) (c : ascii) (h : string) :
  host = String c h -> slash_free host = true ->
  host_of ("https://" +:+ host) = Some (strip_www host).
Proof.
  intros E Hs. unfold host_of. rewrite after_http_https.
  rewrite (upto_slash_free host Hs). now subst host.
Qed.

Section StrategyZero.
Context {W : World}.

(** X2.  Strategy 0 has candidates exactly for a website that goes on,
    after [http://] or [https://], with a character other than a slash.
    For any other website - an empty cell, coerced to [https://], is one -
    it launches no browser and issues no request at all. *)
Theorem strategy_0_needs_host (base_url company_name : string)
  (w : state W) (l : list event) :
  (subdomain_urls base_url <> None <->
   exists c rest,
     Py.is_slash c = false /\
     (base_url = "http://" +:+ String c rest \/
      base_url = "https://" +:+ String c rest)) /\
  (subdomain_urls base_url = None ->
   check_subdomain_urls base_url company_name w l = (Ok None, w, l)).
Proof.
  split.
  - rewrite subdomain_urls_closed. unfold host_of. split.
    + intros H. destruct (after_http base_url) as [x|] eqn:Ea;
        [|now destruct H].
      destruct x as [|c rest]; [now destruct H|].
      simpl in H. destruct (Py.is_slash c) eqn:Ec; [now destruct H|].
      exists c, rest. split; [exact Ec|].
      unfold after_http in Ea.
      destruct (Py.startswith "https://" base_url) eqn:Es.
      * right. apply PyFacts.startswith_iff in Es as [t ->].
        change 8 with (String.length "https://") in Ea.
        rewrite substring_after in Ea. congruence.
      * destruct (Py.startswith "http://" base_url) eqn:Eh; [|discriminate].
        left. apply PyFacts.startswith_iff in Eh as [t ->].
        change 7 with (String.length "http://") in Ea.
        rewrite substring_after in Ea. congruence.
    + intros (c & rest & Ec & [->| ->]).
      * rewrite after_http_http. simpl. now rewrite Ec.
      * rewrite after_http_https. simpl. now rewrite Ec.
  - intros H. unfold check_subdomain_urls. now rewrite H.
Qed.

End StrategyZero.

(** X3.  The candidates of strategy 0 depend on the host of the website
    only: neither a path after the host nor the scheme nor a leading
    ["www."] changes them. *)
Theorem subdomain_candidates_ignore_path_and_www (host path : string) :
  slash_free host = true ->
  subdomain_urls ("https://" +:+ host +:+ "/" +:+ path)
  = subdomain_urls ("https://" +:+ host) /\
  subdomain_urls ("http://" +:+ host +:+ "/" +:+ path)
  = subdomain_urls ("https://" +:+ host) /\
  (host <> "" -> Py.startswith "www." host = false ->
   subdomain_urls ("https://" +:+ "www." +:+ host)
   = subdomain_urls ("https://" +:+ host)).
Proof.
  intros Hs. rewrite !subdomain_urls_closed. unfold host_of.
  rewrite !after_http_https, after_http_http.
  change ("/" +:+ path) with (String "/" path).
  rewrite (upto_slash_path host path Hs), (upto_slash_free host Hs).
  split; [reflexivity|]. split; [reflexivity|].
  intros Hne Hnw.
  assert (Hw : slash_free ("www." +:+ host) = true) by exact Hs.
  rewrite (upto_slash_free _ Hw).
  destruct host as [|c h]; [now destruct Hne|].
  assert (E : strip_www ("www." +:+ String c h) = String c h).
  { unfold strip_www.
    assert (S : Py.startswith "www." ("www." +:+ String c h) = true)
      by (apply PyFacts.startswith_iff; now eexists).
    rewrite S. change 4 with (String.length "www.").
    now rewrite (substring_after "www." (String c h)). }
  assert (E' : strip_www (String c h) = String c h)
    by (unfold strip_www; now rewrite Hnw).
  change ("www." +:+ String c h) with (String "w" ("ww." +:+ String c h))
    in E |- *.
  cbv iota. now rewrite E, E'.
Qed.

Lemma subdomain_candidates_ignore_path_and_www_witness :
  subdomain_urls ("https://" +:+ "acme.com" +:+ "/" +:+ "en/about")
  = subdomain_urls ("https://" +:+ "acme.com") /\
  subdomain_urls ("http://" +:+ "acme.com" +:+ "/" +:+ "en/about")
  = subdomain_urls ("https://" +:+ "acme.com") /\
  subdomain_urls ("https://" +:+ "www." +:+ "acme.com")
  = subdomain_urls ("https://" +:+ "acme.com").
Proof.
  pose proof (subdomain_candidates_ignore_path_and_www "acme.com" "en/about"
                eq_refl) as (H1 & H2 & H3).
  split; [exact H1|]. split; [exact H2|].
  apply H3; [discriminate | reflexivity].
Defined.

(** X4.  Only the last two labels of the host count: whatever precedes
    them is dropped, also when the last two labels are a suffix such as
    [co.uk]. *)
Theorem subdomain_candidates_last_two_labels (x y z : string) :
  slash_free (x +:+ "." +:+ y +:+ "." +:+ z) = true ->
  dot_free y = true -> dot_free z = true ->
  Py.startswith "www." (x +:+ "." +:+ y +:+ "." +:+ z) = false ->
  subdomain_urls ("https://" +:+ x +:+ "." +:+ y +:+ "." +:+ z)
  = Some (map (fun pattern =>
                 "https://" +:+ pattern +:+ "." +:+ y +:+ "." +:+ z)
              SUBDOMAIN_PATTERNS).
Proof.
  intros Hs Hy Hz Hw. rewrite subdomain_urls_closed.
  assert (Hne : exists c h, x +:+ "." +:+ y +:+ "." +:+ z = String c h)
    by (destruct x; simpl; eauto).
  destruct Hne as (c & h & E).
  rewrite (host_of_https _ c h E Hs).
  unfold strip_www. rewrite Hw.
  now rewrite (base_domain_last_two x y z Hy Hz).
Qed.

Lemma subdomain_candidates_last_two_labels_witness :
  subdomain_urls ("https://" +:+ "shop" +:+ "." +:+ "co" +:+ "." +:+ "uk")
  = Some (map (fun pattern =>
                 "https://" +:+ pattern +:+ "." +:+ "co" +:+ "." +:+ "uk")
              SUBDOMAIN_PATTERNS).
Proof.
  apply (subdomain_candidates_last_two_labels "shop" "co" "uk");
    reflexivity.
Defined.

(** ** Third-party hrefs *)

Lemma re_search_here (ci : bool) (p : pattern) (s : string) :
  match_here ci p s <> None -> re_search ci p s <> None.
Proof.
  destruct s; simpl; destruct (match_here ci p _); congruence.
Qed.

Lemma re_search_anywhere (ci : bool) (p : pattern) (pre s : string) :
  match_here ci p s <> None -> re_search ci p (pre +:+ s) <> None.
Proof.
  intros H. induction pre as [|c pre IH]; [now apply re_search_here|].
  cbn [String.append re_search].
  destruct (match_here ci p (String c (pre +:+ s))); [discriminate | exact IH].
Qed.

Lemma first_search_in (ps : list pattern) (p : pattern) (href : string) :
  In p ps -> re_search true p href <> None -> first_search ps href <> None.
Proof.
  intros Hin Hp. intros E.
  apply (proj1 (ClassifierFacts.first_search_none ps href)) with (p := p) in E;
    [contradiction | exact Hin].
Qed.

Lemma not_none_some {A} (o : option A) : o <> None -> exists a, o = Some a.
Proof. destruct o as [a|]; [now exists a | congruence]. Qed.

(** X5.  The third-party test is a search, not a test of the host: an href
    is taken for a job-board link as soon as one pattern matches at any
    position of it.  For the patterns that end in the slug - Lever,
    Greenhouse, Ashby, SmartRecruiters - any text may precede the board's
    name and anything may follow the first character of the slug. *)
Theorem third_party_match_anywhere (p : pattern) (pre : string) :
  In p THIRD_PARTY_PATTERNS ->
  (forall s, match_here true p s <> None ->
             exists caps, third_party_match (pre +:+ s) = Some caps) /\
  (forall l c rest,
     p = [Lit l; NonSlash] -> Py.is_slash c = false ->
     exists caps,
       third_party_match (pre +:+ l +:+ String c rest) = Some caps).
Proof.
  intros Hin.
  assert (G : forall s, match_here true p s <> None ->
                        exists caps, third_party_match (pre +:+ s) = Some caps).
  { intros s Hm. apply not_none_some. unfold third_party_match.
    apply (first_search_in _ p); [exact Hin|].
    now apply re_search_anywhere. }
  split; [exact G|].
  intros l c rest -> Hc. apply G.
  rewrite match_here_lit, strip_literal, match_here_group, group_last.
  cbn [SpecResolver.upto_slash]. rewrite Hc. discriminate.
Qed.

Lemma third_party_match_anywhere_witness :
  exists caps,
    third_party_match
      ("https://example.org/out?to=" +:+ "jobs.lever.co/" +:+ "acme")
    = Some caps.
Proof.
  apply (proj2 (third_party_match_anywhere [Lit "jobs.lever.co/"; NonSlash]
                  "https://example.org/out?to=" (or_introl eq_refl))
           "jobs.lever.co/" "a"%char "cme");
    reflexivity.
Defined.

(** ** Trailing slashes of the website *)

Lemma rstrip_slash_slashes (b s : string) :
  all_slashes s = true -> Py.rstrip_slash (b +:+ s) = Py.rstrip_slash b.
Proof.
  intros Hs.
  assert (Z : Py.rstrip_slash s = "").
  { induction s as [|c s IH]; [reflexivity|]. simpl in Hs |- *.
    apply andb_true_iff in Hs as [Hc Hs]. now rewrite (IH Hs), Hc. }
  induction b as [|c b IH]; [exact Z|].
  cbn [String.append Py.rstrip_slash]. now rewrite IH.
Qed.

(** X6.  Slashes at the end of the website change neither the resolution
    of an href nor the URLs that strategy 4 probes. *)
Theorem trailing_slashes_ignored (base_url slashes : string) :
  all_slashes slashes = true ->
  (forall href,
     resolve (base_url +:+ slashes) href = resolve base_url href) /\
  direct_candidates (base_url +:+ slashes) = direct_candidates base_url.
Proof.
  intros Hs. split.
  - intros href. unfold resolve. now rewrite (rstrip_slash_slashes _ _ Hs).
  - unfold direct_candidates. now rewrite (rstrip_slash_slashes _ _ Hs).
Qed.

Lemma trailing_slashes_ignored_witness :
  resolve ("https://acme.com" +:+ "//") "careers"
  = resolve "https://acme.com" "careers".
Proof.
  apply (trailing_slashes_ignored "https://acme.com" "//" eq_refl).
Defined.

(** ** Runs in sequence *)




Section Resume.
Context {W : World}.





End Resume.


(** ** More on the filter and the loader *)

Module ScraperMore.
Import Py PyFacts Scraper ScraperFacts.

Lemma get_lower_ok (j : job) (key : string) :
  (exists s, get_lower j key = Ok s) <->
  j !! key = None \/ exists s, j !! key = Some (JStr s).
Proof.
  unfold get_lower. destruct (j !! key) as [[s| | | |]|]; split;
    try (intros [s' H]; discriminate H);
    try (intros [H|[s' H]]; discriminate H); eauto.
Qed.

Lemma filter_jobs_ok (jobs : list job) :
  (exists kept, filter_jobs jobs = Ok kept) -> Forall textual jobs.
Proof.
  induction jobs as [|j jobs IH]; simpl; [constructor|].
  destruct (get_lower j "title") as [t|] eqn:Et;
    [|intros [k H]; discriminate H].
  destruct (get_lower j "description") as [d|] eqn:Ed;
    [|intros [k H]; discriminate H].
  destruct (get_lower j "location") as [l|] eqn:El;
    [|intros [k H]; discriminate H].
  destruct (filter_jobs jobs) as [rest|]; [|intros [k H]; discriminate H].
  intros _. constructor; [|apply IH; now exists rest].
  intros key [<-|[<-|[<-|[]]]]; apply get_lower_ok; eauto.
Qed.

(** X10.  The filter returns exactly when every job has strings (or
    nothing) for title, description and location: a single job with, say,
    a [null] description makes the whole filter raise, and then no job is
    returned at all. *)
Theorem filter_jobs_raises_iff (jobs : list job) :
  (exists e, filter_jobs jobs = Raise e) <-> ~ Forall textual jobs.
Proof.
  split.
  - intros [e He] Hall.
    destruct (filter_jobs_total jobs Hall) as [kept Hk]. congruence.
  - intros Hn. destruct (filter_jobs jobs) as [kept|e] eqn:E.
    + destruct Hn. apply filter_jobs_ok. now exists kept.
    + now exists e.
Qed.

Lemma filter_jobs_sublist (jobs kept : list job) :
  filter_jobs jobs = Ok kept -> sublist kept jobs.
Proof.
  revert kept. induction jobs as [|j jobs IH]; intros kept; simpl.
  - intros [= <-]. constructor.
  - destruct (get_lower j "title"); [|discriminate].
    destruct (get_lower j "description"); [|discriminate].
    destruct (get_lower j "location"); [|discriminate].
    destruct (filter_jobs jobs) as [rest|]; [|discriminate].
    specialize (IH rest eq_refl). intros [= <-].
    destruct (_ && _); now constructor.
Qed.

Lemma filter_jobs_fixed (jobs kept : list job) :
  filter_jobs jobs = Ok kept -> filter_jobs kept = Ok kept.
Proof.
  revert kept. induction jobs as [|j jobs IH]; intros kept; simpl.
  - now intros [= <-].
  - destruct (get_lower j "title") as [t|] eqn:Et; [|discriminate].
    destruct (get_lower j "description") as [d|] eqn:Ed; [|discriminate].
    destruct (get_lower j "location") as [l|] eqn:El; [|discriminate].
    destruct (filter_jobs jobs) as [rest|]; [|discriminate].
    specialize (IH rest eq_refl). intros [= <-].
    destruct (role_match t && seniority_match t && location_match l d) eqn:K;
      [|exact IH].
    simpl. now rewrite Et, Ed, El, IH, K.
Qed.

(** X11.  The filter only selects: what it returns is a subsequence of the
    parsed jobs, in their order, and filtering the result again changes
    nothing. *)
Theorem filter_jobs_selects (jobs kept : list job) :
  filter_jobs jobs = Ok kept ->
  sublist kept jobs /\ filter_jobs kept = Ok kept.
Proof.
  intros H. split; [now apply filter_jobs_sublist | now apply (filter_jobs_fixed jobs)].
Qed.

Lemma contains_trans (a b s : string) :
  contains a b = true -> contains b s = true -> contains a s = true.
Proof.
  rewrite !contains_iff. intros (p1 & q1 & ->) (p2 & q2 & ->).
  exists (p2 +:+ p1), (q1 +:+ q2). now rewrite !append_assoc.
Qed.

(** X12.  A title with "product lead" in it passes the seniority test by
    itself, because "lead" is a seniority keyword: for such a job only the
    location decides. *)
Theorem product_lead_is_senior (title : string) :
  contains "product lead" (lower title) = true ->
  role_match title = true /\ seniority_match title = true.
Proof.
  intros H. unfold role_match, seniority_match. split; apply existsb_exists.
  - exists "product lead". split; [simpl; tauto | exact H].
  - exists "lead". split; [simpl; tauto|].
    now apply (contains_trans "lead" "product lead").
Qed.

End ScraperMore.

Module LoaderMore.
Import Py PyFacts Scraper.

Lemma load_job_boards_app (df1 df2 : list frame_row) :
  load_job_boards (df1 ++ df2) = load_job_boards df1 ++ load_job_boards df2.
Proof.
  induction df1 as [|row df1 IH]; simpl; [reflexivity|].
  destruct (iloc_last row); try exact IH.
  destruct (_ || _); simpl; now rewrite IH.
Qed.

Lemma load_job_boards_sublist (df : list frame_row) :
  sublist (map board_url (load_job_boards df))
          (omap (fun row => match iloc_last row with
                            | CStr u => Some u
                            | _ => None
                            end) df).
Proof.
  induction df as [|row df IH]; simpl; [constructor|].
  destruct (iloc_last row) as [u| | | |]; try exact IH.
  destruct (_ || _); simpl; now constructor.
Qed.

(** X13.  Loading keeps the order of the file and treats every row by
    itself: the boards of two frames put together are the boards of the
    first followed by those of the second, and there are never more boards
    than rows.  In a file with a single column the first cell is the last
    one, so a loaded board has its URL as company name. *)
Theorem load_job_boards_rowwise :
  (forall df1 df2,
     load_job_boards (df1 ++ df2)
     = load_job_boards df1 ++ load_job_boards df2) /\
  (forall df, List.length (load_job_boards df) <= List.length df) /\
  (forall df e,
     Forall (fun row => other_cells row = []) df ->
     In e (load_job_boards df) -> board_company e = CStr (board_url e)).
Proof.
  split; [exact load_job_boards_app|]. split.
  - induction df as [|row df IH]; simpl; [lia|].
    destruct (iloc_last row); try lia.
    destruct (_ || _); simpl; lia.
  - intros df e Hall Hin.
    apply LoaderFacts.load_job_boards_in in Hin as (row & u & Hrow & Hl & _ & ->).
    rewrite List.Forall_forall in Hall. specialize (Hall row Hrow).
    unfold iloc_last in Hl. rewrite Hall in Hl. simpl in Hl.
    simpl. unfold iloc_first. exact Hl.
Qed.

Lemma load_job_boards_rowwise_witness :
  board_company {| board_company := CStr "https://jobs.lever.co/acme";
                   board_url := "https://jobs.lever.co/acme" |}
  = CStr (board_url {| board_company := CStr "https://jobs.lever.co/acme";
                       board_url := "https://jobs.lever.co/acme" |}).
Proof.
  apply (proj2 (proj2 load_job_boards_rowwise)
           [ {| first_cell := CStr "https://jobs.lever.co/acme";
                other_cells := [] |} ]).
  - apply List.Forall_cons; [reflexivity | apply List.Forall_nil].
  - vm_compute. left. reflexivity.
Defined.

End LoaderMore.

(** ** On sample data *)

Lemma filter_jobs_selects_witness :
  sublist [senior_pm] [senior_pm; engineer] /\
  Scraper.filter_jobs [senior_pm] = Ok [senior_pm].
Proof.
  apply (ScraperMore.filter_jobs_selects [senior_pm; engineer] [senior_pm]).
  vm_compute. reflexivity.
Defined.

Lemma product_lead_is_senior_witness :
  Scraper.role_match "Product Lead, Payments" = true /\
  Scraper.seniority_match "Product Lead, Payments" = true.
Proof.
  apply (ScraperMore.product_lead_is_senior "Product Lead, Payments").
  vm_compute. reflexivity.
Defined.

Lemma found_url_scheme_witness :
  exists k,
    yields k "https://acme.com/careers"
      (run_trace (find_career_page (W := scripted menu_site)
                    "https://acme.com" "Acme") tt) /\
    (Py.has_http_scheme "https://acme.com/careers" = true \/
     (k = 1 /\ third_party "https://acme.com/careers") \/ k = 5).
Proof.
  apply (found_url_scheme (W := scripted menu_site)
           "https://acme.com" "Acme" tt "https://acme.com/careers");
    vm_compute; reflexivity.
Defined.

(** ** The candidates of the JSON pattern *)

Module CandidateFacts.
Import ReAny JobScraper.

Lemma star_upto_last (c : ascii) (s : string) :
  match_branch [AnyStar; Chr c] s = upto_last c s.
Proof.
  cbn [match_branch].
  induction s as [|a s IH]; [reflexivity|].
  cbn [upto_last]. rewrite IH.
  destruct (upto_last c s) as [[m rest]|]; [reflexivity|].
  destruct (Ascii.eqb a c); reflexivity.
Qed.

Lemma match_delimited (o c : ascii) (s : string) :
  match_branch [Chr o; AnyStar; Chr c] s
  = match s with
    | EmptyString => None
    | String a s' =>
        if Ascii.eqb a o then
          match upto_last c s' with
          | Some (m, rest) => Some (String a m, rest)
          | None => None
          end
        else None
    end.
Proof.
  destruct s as [|a s]; [reflexivity|].
  change (match_branch [Chr o; AnyStar; Chr c] (String a s))
    with (if Ascii.eqb a o then
            match match_branch [AnyStar; Chr c] s with
            | Some (m, rest) => Some (String a m, rest)
            | None => None
            end
          else None).
  now rewrite star_upto_last.
Qed.

Lemma upto_last_none (c : ascii) (s : string) :
  upto_last c s = None <-> mem_char c s = false.
Proof.
  induction s as [|a s IH]; simpl; [tauto|].
  destruct (upto_last c s) as [[m rest]|].
  - split; [discriminate|]. intros H. apply orb_false_iff in H as [_ H].
    apply IH in H. discriminate.
  - destruct (Ascii.eqb a c); simpl; [split; discriminate|].
    split; intros _; [now apply IH | reflexivity].
Qed.

Lemma upto_last_some (c : ascii) (s m rest : string) :
  upto_last c s = Some (m, rest) ->
  s = m +:+ rest /\ mem_char c rest = false /\
  exists body, m = body +:+ String c EmptyString.
Proof.
  revert m rest. induction s as [|a s IH]; intros m rest; simpl; [discriminate|].
  destruct (upto_last c s) as [[m' rest']|] eqn:E.
  - intros [= <- <-]. destruct (IH m' rest' eq_refl) as (-> & Hm & body & ->).
    split; [reflexivity|]. split; [exact Hm|]. now exists (String a body).
  - destruct (Ascii.eqb a c) eqn:Ea; [|discriminate].
    intros [= <- <-]. apply Ascii.eqb_eq in Ea as ->.
    split; [reflexivity|]. split; [now apply upto_last_none|].
    now exists EmptyString.
Qed.

Lemma upto_last_app (c : ascii) (body post : string) :
  mem_char c post = false ->
  upto_last c (body +:+ String c post)
  = Some (body +:+ String c EmptyString, post).
Proof.
  intros Hp. induction body as [|a body IH]; simpl.
  - apply upto_last_none in Hp. rewrite Hp. now rewrite Ascii.eqb_refl.
  - now rewrite IH.
Qed.

Lemma match_alt_json (s : string) :
  match_alt json_pattern s
  = match s with
    | EmptyString => None
    | String a s' =>
        if Ascii.eqb a "{" && mem_char "}" s' then
          match upto_last "}" s' with
          | Some (m, rest) => Some (String a m, rest)
          | None => None
          end
        else if Ascii.eqb a "[" then
          match upto_last "]" s' with
          | Some (m, rest) => Some (String a m, rest)
          | None => None
          end
        else None
    end.
Proof.
  unfold json_pattern. cbn [match_alt]. rewrite !match_delimited.
  destruct s as [|a s]; [reflexivity|].
  destruct (Ascii.eqb a "{") eqn:E1; simpl.
  - apply Ascii.eqb_eq in E1 as ->. simpl.
    destruct (upto_last "}" s) as [[m rest]|] eqn:E.
    + assert (H : mem_char "}" s = true).
      { destruct (mem_char "}" s) eqn:M; [reflexivity|].
        apply upto_last_none in M. congruence. }
      now rewrite H.
    + apply upto_last_none in E. now rewrite E.
  - destruct (Ascii.eqb a "["); [|reflexivity].
    now destruct (upto_last "]" s) as [[m rest]|].
Qed.

Lemma match_alt_json_some (s m rest : string) :
  match_alt json_pattern s = Some (m, rest) ->
  s = m +:+ rest /\ bracketed m /\ 1 <= String.length m /\
  closers rest < closers s.
Proof.
  rewrite match_alt_json. destruct s as [|a s]; [discriminate|].
  assert (Hmono : forall c x y, mem_char c y = true ->
                                mem_char c (x +:+ y) = true).
  { intros c x y Hy. induction x as [|b x IH]; simpl; [exact Hy|].
    rewrite IH. apply orb_true_r. }
  assert (Hle : forall c x y,
            (if mem_char c y then 1 else 0)
            <= (if mem_char c (x +:+ y) then 1 else 0)).
  { intros c x y. destruct (mem_char c y) eqn:E; [|lia].
    now rewrite (Hmono c x y E). }
  assert (Hcl : forall c body, mem_char c (body +:+ String c "") = true).
  { intros c body. apply Hmono. simpl. now rewrite Ascii.eqb_refl. }
  assert (Happ : forall c x y, mem_char c x = true ->
                               mem_char c (x +:+ y) = true).
  { intros c x y. induction x as [|b x IH]; simpl; [discriminate|].
    destruct (Ascii.eqb b c); simpl; [reflexivity | exact IH]. }
  destruct (Ascii.eqb a "{" && mem_char "}" s) eqn:E1.
  - apply andb_true_iff in E1 as [Ea _]. apply Ascii.eqb_eq in Ea as ->.
    destruct (upto_last "}" s) as [[m' rest']|] eqn:E; [|discriminate].
    intros [= <- <-].
    apply upto_last_some in E as (-> & Hr & body & ->).
    split; [reflexivity|]. split; [exists body; now left|].
    split; [simpl; lia|].
    unfold closers. rewrite Hr.
    change (String "{" ((body +:+ "}") +:+ rest'))
      with (("{" +:+ body +:+ "}") +:+ rest').
    pose proof (Hle "]"%char ("{" +:+ body +:+ "}") rest').
    rewrite (Happ "}"%char ("{" +:+ body +:+ "}") rest'
               (Hcl "}"%char (String "{" body))).
    lia.
  - destruct (Ascii.eqb a "[") eqn:Ea; [|discriminate].
    apply Ascii.eqb_eq in Ea as ->.
    destruct (upto_last "]" s) as [[m' rest']|] eqn:E; [|discriminate].
    intros [= <- <-].
    apply upto_last_some in E as (-> & Hr & body & ->).
    split; [reflexivity|]. split; [exists body; now right|].
    split; [simpl; lia|].
    unfold closers. rewrite Hr.
    change (String "[" ((body +:+ "]") +:+ rest'))
      with (("[" +:+ body +:+ "]") +:+ rest').
    pose proof (Hle "}"%char ("[" +:+ body +:+ "]") rest').
    rewrite (Happ "]"%char ("[" +:+ body +:+ "]") rest'
               (Hcl "]"%char (String "[" body))).
    lia.
Qed.

Lemma drop_chars_app (m rest : string) :
  drop_chars (String.length m) (m +:+ rest) = rest.
Proof. induction m as [|a m IH]; simpl; [now destruct rest | exact IH]. Qed.

Lemma closers_tail (a : ascii) (s : string) :
  closers s <= closers (String a s).
Proof.
  unfold closers. simpl.
  destruct (mem_char "}" s), (mem_char "]" s);
    rewrite ?orb_true_r; simpl;
    destruct (Ascii.eqb a "}"), (Ascii.eqb a "]"); simpl; lia.
Qed.

Lemma findall_from_closers (skip : nat) (s : string) :
  List.length (findall_from json_pattern skip s)
  <= closers (drop_chars skip s).
Proof.
  revert skip. induction s as [|a s IH]; intros skip.
  - destruct skip; simpl; lia.
  - destruct skip as [|k]; cbn [findall_from drop_chars].
    + destruct (match_alt json_pattern (String a s)) as [[m rest]|] eqn:E.
      * apply match_alt_json_some in E as (Es & _ & Hl & Hc).
        destruct m as [|b m]; [simpl in Hl; lia|].
        injection Es as <- ->.
        replace (String.length (String a m) - 1) with (String.length m)
          by (simpl; lia).
        cbn [List.length].
        specialize (IH (String.length m)).
        rewrite drop_chars_app in IH. lia.
      * specialize (IH 0). pose proof (closers_tail a s).
        assert (drop_chars 0 s = s) by now destruct s.
        rewrite H0 in IH. lia.
    + apply IH.
Qed.

Lemma findall_from_skip (bs : list branch) (skip : nat) (s : string) :
  findall_from bs skip s = findall_from bs 0 (drop_chars skip s).
Proof.
  revert skip. induction s as [|a s IH]; intros [|k]; try reflexivity.
  cbn [findall_from drop_chars]. apply IH.
Qed.

Lemma findall_from_in (skip : nat) (s m : string) :
  In m (findall_from json_pattern skip s) ->
  occurs_in m s /\ bracketed m.
Proof.
  revert skip. induction s as [|a s IH]; intros skip; [simpl; tauto|].
  assert (Hs : forall k, In m (findall_from json_pattern k s) ->
                         occurs_in m (String a s) /\ bracketed m).
  { intros k H. destruct (IH k H) as ((pre & post & ->) & Hb).
    split; [|exact Hb]. now exists (String a pre), post. }
  destruct skip as [|k]; cbn [findall_from]; [|apply Hs].
  destruct (match_alt json_pattern (String a s)) as [[m0 rest]|] eqn:E;
    [|apply Hs].
  intros [<-|H]; [|now apply (Hs _ H)].
  apply match_alt_json_some in E as (-> & Hb & _).
  split; [|exact Hb]. now exists EmptyString, rest.
Qed.

(** X15.  However long the agent's answer, the pattern finds at most two
    candidates in it: a match runs to the last closing character of its
    kind, so that after it no text of that kind is left.  Every candidate
    is a piece of the answer in braces or in brackets. *)
Theorem json_candidates_at_most_two (text : string) :
  List.length (findall json_pattern text) <= 2 /\
  forall m, In m (findall json_pattern text) ->
            occurs_in m text /\ bracketed m.
Proof.
  split.
  - pose proof (findall_from_closers 0 text) as H. unfold findall.
    assert (closers (drop_chars 0 text) <= 2).
    { unfold closers. destruct (mem_char "}" _), (mem_char "]" _); lia. }
    lia.
  - intros m. apply findall_from_in.
Qed.

Lemma match_alt_no_opener (pre s : string) :
  no_opener pre = true ->
  findall_from json_pattern 0 (pre +:+ s) = findall_from json_pattern 0 s.
Proof.
  induction pre as [|a pre IH]; intros H; [reflexivity|].
  unfold no_opener in H. simpl in H.
  rewrite !negb_orb in H.
  apply andb_true_iff in H as [H1 H2].
  apply andb_true_iff in H1 as [Ha1 Hp1].
  apply andb_true_iff in H2 as [Ha2 Hp2].
  apply negb_true_iff in Ha1, Ha2.
  change ((String a pre) +:+ s) with (String a (pre +:+ s)).
  cbn [findall_from]. rewrite match_alt_json, Ha1, Ha2. simpl.
  apply IH. unfold no_opener. now rewrite Hp1, Hp2.
Qed.

(** X16.  A match is greedy.  In an answer whose first opening character
    is a bracket, the first candidate runs from that bracket to the last
    closing bracket of the whole answer, whatever lies between: two JSON
    arrays with prose between them are one candidate.  The same holds of
    braces.  The search then goes on after the candidate. *)
Theorem json_candidates_greedy (pre body post : string) :
  no_opener pre = true ->
  (mem_char "]" post = false ->
   findall json_pattern (pre +:+ "[" +:+ body +:+ "]" +:+ post)
   = ("[" +:+ body +:+ "]") :: findall json_pattern post) /\
  (mem_char "}" post = false ->
   findall json_pattern (pre +:+ "{" +:+ body +:+ "}" +:+ post)
   = ("{" +:+ body +:+ "}") :: findall json_pattern post).
Proof.
  intros Hpre. unfold findall. split; intros Hpost;
    rewrite (match_alt_no_opener pre _ Hpre).
  - change ("[" +:+ body +:+ "]" +:+ post)
      with (String "[" (body +:+ String "]" post)).
    cbn [findall_from]. rewrite match_alt_json.
    rewrite (upto_last_app "]" body post Hpost). cbn [Ascii.eqb Bool.eqb andb].
    change (String "[" (body +:+ "]")) with ("[" +:+ body +:+ "]").
    f_equal. rewrite findall_from_skip. f_equal.
    change (String.length ("[" +:+ body +:+ "]") - 1)
      with (String.length (body +:+ "]") - 0).
    rewrite Nat.sub_0_r.
    replace (body +:+ String "]" post) with ((body +:+ "]") +:+ post)
      by (now rewrite PyFacts.append_assoc).
    apply drop_chars_app.
  - change ("{" +:+ body +:+ "}" +:+ post)
      with (String "{" (body +:+ String "}" post)).
    cbn [findall_from]. rewrite match_alt_json.
    rewrite (upto_last_app "}" body post Hpost).
    assert (M : mem_char "}" (body +:+ String "}" post) = true).
    { clear. induction body as [|b body IH]; simpl; [reflexivity|].
      rewrite IH. apply orb_true_r. }
    rewrite M. cbn [Ascii.eqb Bool.eqb andb].
    change (String "{" (body +:+ "}")) with ("{" +:+ body +:+ "}").
    f_equal. rewrite findall_from_skip. f_equal.
    change (String.length ("{" +:+ body +:+ "}") - 1)
      with (String.length (body +:+ "}") - 0).
    rewrite Nat.sub_0_r.
    replace (body +:+ String "}" post) with ((body +:+ "}") +:+ post)
      by (now rewrite PyFacts.append_assoc).
    apply drop_chars_app.
Qed.

Lemma json_candidates_greedy_witness :
  findall json_pattern
    ("Jobs: " +:+ "[" +:+ "{'title': 'PM'}] and [{'title': 'Lead'}" +:+ "]"
     +:+ ".")
  = ["[" +:+ "{'title': 'PM'}] and [{'title': 'Lead'}" +:+ "]"].
Proof.
  apply (proj1 (json_candidates_greedy "Jobs: "
                  "{'title': 'PM'}] and [{'title': 'Lead'}" "." eq_refl)).
  reflexivity.
Defined.

End CandidateFacts.

(** ** The agent *)

Module AgentFacts.
Import Py PyFacts Scraper ReAny JobScraper.

Lemma instructions_name_marker (company url : string) :
  occurs_in NO_RELEVANT_JOBS_FOUND (scraping_instructions company url).
Proof.
  exists ("You are now on the job board for " +:+ company +:+ " at " +:+ url
          +:+ ". "
          +:+ "Look for Senior/Lead/Principal Product Manager jobs in Bangalore/Bengaluru or remote. "
          +:+ "Focus ONLY on searching and browsing job listings - do not click on any other links. "
          +:+ "If after exploring the site you find that: "
          +:+ "1. There are no relevant job postings, or "
          +:+ "2. You cannot access the job listings due to blocks/errors, or "
          +:+ "3. You've searched through all available pages "
          +:+ "Then say '"),
         ("' and explain briefly why. "
          +:+ "Otherwise, collect the following for each relevant job listing: "
          +:+ "1. Job title, 2. Company name (" +:+ company
          +:+ "), 3. Full job description, 4. Job location, 5. Job URL, 6. Posted date (if available) "
          +:+ "Return the information in this JSON format: "
          +:+ "[{'title': 'Job Title', 'company': '" +:+ company
          +:+ "', 'description': 'Full description...', "
          +:+ "'location': 'Job Location', 'url': 'Job URL', 'posted_date': 'Date if available'}]").
  unfold scraping_instructions, NO_RELEVANT_JOBS_FOUND.
  rewrite !append_assoc. reflexivity.
Qed.

Lemma contains_within (kw pre s post : string) :
  occurs_in kw s -> contains kw (pre +:+ s +:+ post) = true.
Proof.
  intros (a & b & ->). apply contains_iff.
  exists (pre +:+ a), (b +:+ post). now rewrite !append_assoc.
Qed.

Section ScrapeFacts.
Context (A : Agent) (format : cell -> string).

(** X17.  [scrape_job_board] raises only what [RunnerConfig.from_dict]
    raises.  Once the configuration is built it returns a result for the
    board whatever the agent does - fail to start, fail, run out of time
    or answer; the result carries the board's company and URL, and its
    text is ['[]'] or else the agent's answer as given.  The text never
    contains the marker NO_RELEVANT_JOBS_FOUND. *)
Theorem scrape_job_board_outcome (job_board : job_board) (headless : bool)
  (s : agent_state A) :
  match from_dict A (runner_config (board_url job_board) headless) s with
  | (Raise e, s1) =>
      scrape_job_board A format job_board headless s = (Raise e, s1)
  | (Ok _, _) =>
      exists r s',
        scrape_job_board A format job_board headless s = (Ok r, s') /\
        result_company r = board_company job_board /\
        source_url r = board_url job_board /\
        contains NO_RELEVANT_JOBS_FOUND (result_text r) = false /\
        (result_text r = "[]" \/
         exists s2,
           run_for A 600
             (scraping_instructions (format (board_company job_board))
                (board_url job_board)) s2
           = (Answer (result_text r), s'))
  end.
Proof.
  unfold scrape_job_board.
  destruct (from_dict A _ s) as [[[]|e] s1]; [|reflexivity].
  destruct (new_runner A _ s1) as [[[]|e] s2].
  - destruct (run_for A per_site_timeout _ s2) as [[text| |e] s3] eqn:R.
    + destruct (contains NO_RELEVANT_JOBS_FOUND text) eqn:C.
      * eexists _, _. split; [reflexivity|]. cbn [result_company source_url
          result_text]. repeat split. now left.
      * eexists _, _. split; [reflexivity|]. cbn [result_company source_url
          result_text]. repeat split; [exact C|].
        right. exists s2. exact R.
    + eexists _, _. split; [reflexivity|]. repeat split. now left.
    + eexists _, _. split; [reflexivity|]. repeat split. now left.
  - eexists _, _. split; [reflexivity|]. repeat split. now left.
Qed.

(** X18.  The instructions given to the agent contain the marker.  An
    answer that repeats them - before or after a list of jobs - is
    therefore replaced by ['[]']: the jobs in it are lost. *)
Theorem repeated_instructions_discard_answer (job_board : job_board)
  (headless : bool) (s s1 s2 s3 : agent_state A) (pre post : string) :
  from_dict A (runner_config (board_url job_board) headless) s = (Ok tt, s1) ->
  new_runner A (runner_config (board_url job_board) headless) s1
  = (Ok tt, s2) ->
  run_for A 600
    (scraping_instructions (format (board_company job_board))
       (board_url job_board)) s2
  = (Answer (pre +:+ scraping_instructions (format (board_company job_board))
                       (board_url job_board) +:+ post), s3) ->
  scrape_job_board A format job_board headless s
  = (Ok {| result_company := board_company job_board;
           source_url := board_url job_board;
           result_text := "[]" |}, s3).
Proof.
  intros H1 H2 H3. unfold scrape_job_board. rewrite H1, H2.
  change per_site_timeout with 600%N. rewrite H3.
  now rewrite (contains_within _ _ _ _ (instructions_name_marker _ _)).
Qed.



End ScrapeFacts.

End AgentFacts.

Lemma repeated_instructions_discard_answer_witness :
  JobScraper.scrape_job_board (scripted_agent repeats_task) sample_format
    lever_board true tt
  = (Ok {| JobScraper.result_company := Scraper.CStr "Acme";
           JobScraper.source_url := "https://jobs.lever.co/acme";
           JobScraper.result_text := "[]" |}, tt).
Proof.
  apply (AgentFacts.repeated_instructions_discard_answer
           (scripted_agent repeats_task) sample_format lever_board true
           tt tt tt tt "Task: " (" " +:+ one_job_text));
    reflexivity.
Defined.

(** ** The collection of jobs *)

Module CollectFacts.
Import Py PyFacts Scraper ReAny JobScraper.

Lemma stamped_nil Q (tick : nat) : stamped Q tick ([], tick).
Proof. split; simpl; [lia | intros i j H; discriminate H]. Qed.

Lemma stamped_app Q (tick t1 t2 : nat) (js1 js2 : list (gmap string value)) :
  stamped Q tick (js1, t1) -> stamped Q t1 (js2, t2) ->
  stamped Q tick (js1 ++ js2, t2).
Proof.
  intros [E1 H1] [E2 H2]. simpl in *. split; simpl.
  - rewrite length_app. lia.
  - intros i j H. apply lookup_app_Some in H as [H|[Hle H]].
    + now apply H1.
    + apply H2 in H. subst t1.
      replace (tick + i) with (tick + List.length js1 + (i - List.length js1))
        by lia. exact H.
Qed.

Lemma stamped_weaken (Q Q' : nat -> gmap string value -> Prop) tick out :
  (forall n j, Q n j -> Q' n j) -> stamped Q tick out -> stamped Q' tick out.
Proof. intros HQ [E H]. split; [exact E | intros i j Hj; auto]. Qed.

Section Collected.
Variable loads : string -> loaded.
Variable isoformat_now : nat -> string.

Lemma take_jobs_stamped (company : cell) (url : string) (items : list value)
  (tick : nat) :
  stamped (fun n j => exists d, In (VDict d) items /\
                                has_key "title" d = true /\
                                j = stamp company url (isoformat_now n) d)
    tick (take_jobs isoformat_now company url items tick).
Proof.
  revert tick. induction items as [|v items IH]; intros tick;
    [apply stamped_nil|].
  assert (Hw : forall t,
            stamped (fun n j => exists d, In (VDict d) (v :: items) /\
                                          has_key "title" d = true /\
                                          j = stamp company url
                                                (isoformat_now n) d)
              t (take_jobs isoformat_now company url items t)).
  { intros t. eapply stamped_weaken; [|apply IH].
    intros n j (d & Hin & H). exists d. split; [now right | exact H]. }
  destruct v as [c| |l|d]; cbn [take_jobs]; try apply Hw.
  destruct (has_key "title" d) eqn:T; [|apply Hw].
  specialize (Hw (S tick)).
  destruct (take_jobs isoformat_now company url items (S tick))
    as [jobs tick'].
  destruct Hw as [E H]. simpl in E. split; simpl; [lia|].
  intros [|i] j Hj; simpl in Hj.
  - injection Hj as <-. rewrite Nat.add_0_r. exists d.
    split; [now left | now split].
  - replace (tick + S i) with (S tick + i) by lia. now apply H.
Qed.

Lemma jobs_of_data_stamped (company : cell) (url : string) (data : value)
  (tick : nat) :
  stamped (fun n j => exists d, listed d data /\
                                has_key "title" d = true /\
                                j = stamp company url (isoformat_now n) d)
    tick (jobs_of_data isoformat_now company url data tick).
Proof.
  assert (Hone : forall d, has_key "title" d = true ->
            stamped (fun n j => exists d', d = d' /\
                                  has_key "title" d' = true /\
                                  j = stamp company url (isoformat_now n) d')
              tick ([stamp company url (isoformat_now tick) d], S tick)).
  { intros d T. split; simpl; [lia|]. intros [|i] j Hj; [|discriminate Hj].
    injection Hj as <-. rewrite Nat.add_0_r. now exists d. }
  destruct data as [c| |items|d]; cbn [jobs_of_data listed];
    try apply stamped_nil; [apply take_jobs_stamped|].
  destruct (d !! "jobs") as [[c| |items|d']|];
    try (destruct (has_key "title" d) eqn:T;
         [now apply Hone | apply stamped_nil]).
  apply take_jobs_stamped.
Qed.

Lemma collect_matches_stamped (company : cell) (url : string)
  (json_matches : list string) (tick : nat) :
  stamped (fun n j => exists d c data,
             In c json_matches /\ loads c = Loaded data /\ listed d data /\
             has_key "title" d = true /\
             j = stamp company url (isoformat_now n) d)
    tick (collect_matches loads isoformat_now company url json_matches tick).
Proof.
  revert tick. induction json_matches as [|c cs IH]; intros tick;
    [apply stamped_nil|].
  assert (Hw : forall t,
            stamped (fun n j => exists d c' data,
                       In c' (c :: cs) /\ loads c' = Loaded data /\
                       listed d data /\ has_key "title" d = true /\
                       j = stamp company url (isoformat_now n) d)
              t (collect_matches loads isoformat_now company url cs t)).
  { intros t. eapply stamped_weaken; [|apply IH].
    intros n j (d & c' & data & Hin & H). exists d, c', data.
    split; [now right | exact H]. }
  cbn [collect_matches]. destruct (loads c) as [data| |e] eqn:L;
    [|apply Hw|apply stamped_nil].
  pose proof (jobs_of_data_stamped company url data tick) as H1.
  destruct (jobs_of_data isoformat_now company url data tick) as [jobs t1].
  specialize (Hw t1).
  destruct (collect_matches loads isoformat_now company url cs t1)
    as [jobs' t2].
  apply (stamped_app _ tick t1 t2); [|exact Hw].
  eapply stamped_weaken; [|exact H1].
  intros n j (d & Hl & H). exists d, c, data.
  split; [now left|]. now split.
Qed.

Lemma collect_stamped (results : list scrape_result) (tick : nat) :
  stamped (fun n j => exists r, In r results /\
                                collected_from loads isoformat_now r n j)
    tick (collect loads isoformat_now results tick).
Proof.
  revert tick. induction results as [|r rs IH]; intros tick;
    [apply stamped_nil|].
  cbn [collect].
  pose proof (collect_matches_stamped (result_company r) (source_url r)
                (findall json_pattern (result_text r)) tick) as H1.
  destruct (collect_matches loads isoformat_now (result_company r)
              (source_url r) (findall json_pattern (result_text r)) tick)
    as [jobs t1].
  specialize (IH t1).
  destruct (collect loads isoformat_now rs t1) as [jobs' t2].
  apply (stamped_app _ tick t1 t2).
  - eapply stamped_weaken; [|exact H1].
    intros n j H. exists r. split; [now left | exact H].
  - eapply stamped_weaken; [|exact IH].
    intros n j (r' & Hin & H). exists r'. split; [now right | exact H].
Qed.

Lemma stamp_lookup (company : cell) (url at_ : string)
  (d : gmap string value) :
  stamp company url at_ d !! "extracted_at" = Some (VStr at_) /\
  stamp company url at_ d !! "source_url" = Some (VStr url) /\
  stamp company url at_ d !! "company"
  = Some (default (VScalar company) (d !! "company")) /\
  forall key, key <> "extracted_at" -> key <> "source_url" ->
              key <> "company" ->
              stamp company url at_ d !! key = d !! key.
Proof.
  unfold stamp. split; [apply lookup_insert_eq|]. split.
  { rewrite lookup_insert_ne by discriminate. apply lookup_insert_eq. }
  split.
  { rewrite !lookup_insert_ne by discriminate. apply lookup_insert_eq. }
  intros key H1 H2 H3. now rewrite !lookup_insert_ne by congruence.
Qed.

(** X19.  Every job that the collection appends is a dict with a title
    that [json.loads] gave for a candidate of some result's text - the
    value itself, an element of it, or an element of its ['jobs'] - with
    three fields set: the result's source URL, the company of the dict if
    it has one and the result's company otherwise, and a timestamp.  The
    clock is read once per job: the job at index [i] carries reading
    [tick + i].  Every other field, the title included, is as parsed. *)
Theorem collected_jobs_stamped (results : list scrape_result) (tick : nat) :
  snd (collect loads isoformat_now results tick)
  = tick + List.length (fst (collect loads isoformat_now results tick)) /\
  forall i j,
    fst (collect loads isoformat_now results tick) !! i = Some j ->
    exists r d c data,
      In r results /\
      In c (findall json_pattern (result_text r)) /\
      loads c = Loaded data /\ listed d data /\
      is_Some (d !! "title") /\
      j !! "title" = d !! "title" /\
      j !! "source_url" = Some (VStr (source_url r)) /\
      j !! "extracted_at" = Some (VStr (isoformat_now (tick + i))) /\
      j !! "company"
      = Some (default (VScalar (result_company r)) (d !! "company")) /\
      forall key, key <> "extracted_at" -> key <> "source_url" ->
                  key <> "company" -> j !! key = d !! key.
Proof.
  destruct (collect_stamped results tick) as [E H]. split; [exact E|].
  intros i j Hj.
  destruct (H i j Hj) as (r & Hr & d & c & data & Hc & Hl & Hd & T & ->).
  destruct (stamp_lookup (result_company r) (source_url r)
              (isoformat_now (tick + i)) d) as (L1 & L2 & L3 & L4).
  exists r, d, c, data. repeat split; try assumption.
  - unfold has_key in T. now apply bool_decide_eq_true in T.
  - now apply L4.
Qed.

Lemma collect_app (rs1 rs2 : list scrape_result) (tick : nat) :
  collect loads isoformat_now (rs1 ++ rs2) tick
  = let '(jobs, tick1) := collect loads isoformat_now rs1 tick in
    let '(jobs', tick2) := collect loads isoformat_now rs2 tick1 in
    (jobs ++ jobs', tick2).
Proof.
  revert tick. induction rs1 as [|r rs1 IH]; intros tick; simpl.
  - now destruct (collect loads isoformat_now rs2 tick).
  - destruct (collect_matches loads isoformat_now _ _ _ tick) as [j1 t1].
    rewrite IH.
    destruct (collect loads isoformat_now rs1 t1) as [j2 t2].
    destruct (collect loads isoformat_now rs2 t2) as [j3 t3].
    now rewrite app_assoc.
Qed.

Lemma no_closer_no_candidate (text : string) :
  closers text = 0 -> findall json_pattern text = [].
Proof.
  intros H. pose proof (CandidateFacts.findall_from_closers 0 text) as L.
  replace (drop_chars 0 text) with text in L by now destruct text.
  unfold findall. destruct (findall_from json_pattern 0 text);
    [reflexivity | simpl in L; lia].
Qed.

(** X20.  A result adds nothing to the collection, and costs no reading
    of the clock, when its text has neither a closing brace nor a closing
    bracket, and also when its text is ['[]'] - what [scrape_job_board]
    writes for a board without jobs, a timeout or an error - as long as
    [json.loads] reads ['[]'] as the empty list. *)
Theorem empty_results_add_nothing (rs1 rs2 : list scrape_result)
  (r : scrape_result) (tick : nat) :
  closers (result_text r) = 0 \/
  (result_text r = "[]" /\ loads "[]" = Loaded (VList [])) ->
  collect loads isoformat_now (rs1 ++ r :: rs2) tick
  = collect loads isoformat_now (rs1 ++ rs2) tick.
Proof.
  intros H. rewrite !collect_app.
  destruct (collect loads isoformat_now rs1 tick) as [j1 t1].
  cbn [collect].
  assert (E : collect_matches loads isoformat_now (result_company r)
                (source_url r) (findall json_pattern (result_text r)) t1
              = ([], t1)).
  { destruct H as [H|[H L]].
    - now rewrite (no_closer_no_candidate _ H).
    - rewrite H.
      change (findall json_pattern "[]") with ["[]"].
      cbn [collect_matches]. rewrite L. reflexivity. }
  rewrite E. now destruct (collect loads isoformat_now rs2 t1).
Qed.

End Collected.

End CollectFacts.

Lemma empty_results_add_nothing_witness :
  JobScraper.collect sample_loads sample_isoformat
    ([] ++ {| JobScraper.result_company := Scraper.CStr "Acme";
              JobScraper.source_url := "https://jobs.lever.co/acme";
              JobScraper.result_text := "[]" |} :: []) 0
  = JobScraper.collect sample_loads sample_isoformat ([] ++ []) 0.
Proof.
  apply (CollectFacts.empty_results_add_nothing sample_loads
           sample_isoformat [] []).
  right. split; reflexivity.
Defined.

(** ** From the file of boards to the export *)

Module MainFacts.
Import Py PyFacts Scraper ReAny JobScraper.

Section Pipeline.
Variable loads : string -> loaded.
Variable isoformat_now : nat -> string.
Variable now_at : nat -> datetime.
Context (A : Agent) (format : cell -> string).




End Pipeline.

End MainFacts.


(** ** The output file *)

Module CsvFacts.

Lemma get_fieldnames (row : store_row) :
  Csv.get Csv.fieldnames (Csv.record_of row) "company" = Some (company row) /\
  Csv.get Csv.fieldnames (Csv.record_of row) "career_url"
  = Some (career_url row).
Proof. split; reflexivity. Qed.

Lemma load_processed_records (output : list store_row) (acc : gset string) :
  fold_left
    (fun processed r =>
       match r with
       | [] => processed
       | _ =>
           match Csv.get Csv.fieldnames r "career_url" with
           | Some u =>
               if Py.truthy u then
                 match Csv.get Csv.fieldnames r "company" with
                 | Some c => {[ c ]} ∪ processed
                 | None => processed
                 end
               else processed
           | None => processed
           end
       end)
    (map Csv.record_of output) acc
  = fold_left
      (fun processed row =>
         if Py.truthy (career_url row) then {[ company row ]} ∪ processed
         else processed)
      output acc.
Proof.
  revert acc. induction output as [|row output IH]; intros acc;
    [reflexivity|].
  cbn [map fold_left]. rewrite <- IH. f_equal.
Qed.

Lemma load_processed_file (output : list store_row) :
  Csv.load_processed (Some (Csv.fieldnames :: map Csv.record_of output))
  = load_processed output.
Proof. apply load_processed_records. Qed.

Section FileRuns.
Context {W : World}.

Lemma process_loop_from (companies : list input_row) (w : state W)
  (r : run) :
  process_loop companies w r
  = let '(result, w', r') :=
      process_loop companies w {| rows := []; journal := [] |} in
    (result, w', {| rows := rows r ++ rows r';
                    journal := journal r ++ journal r' |}).
Proof.
  revert w r. induction companies as [|c cs IH]; intros w r.
  - simpl. destruct r. simpl. now rewrite !app_nil_r.
  - cbn [process_loop].
    destruct (perform W unit NewPage w) as [[[]|e] w1].
    2:{ destruct r. simpl. now rewrite !app_nil_r. }
    destruct (find_career_page (website_of c) (company_name_of c) w1 [])
      as [[found w2] t].
    destruct (perform W unit ClosePage w2) as [[[]|e] w3].
    2:{ destruct r. reflexivity. }
    destruct (perform W unit (Sleep 2) w3) as [[[]|e] w4].
    2:{ destruct r. reflexivity. }
    rewrite IH. symmetry. rewrite IH. symmetry.
    destruct (process_loop cs w4 {| rows := []; journal := [] |})
      as [[result w'] r'].
    unfold append_to_csv, record_discovery. cbn [rows journal].
    now rewrite <- !app_assoc.
Qed.

Lemma file_loop (companies : list input_row) (w : state W)
  (records : list Csv.record) (j : list discovery) :
  Csv.process_loop companies w (Some records) j
  = let '(result, w', r) :=
      process_loop companies w {| rows := []; journal := [] |} in
    (result, w', Some (records ++ map Csv.record_of (rows r)),
     j ++ journal r).
Proof.
  revert w records j. induction companies as [|c cs IH]; intros w records j.
  - cbn [Csv.process_loop process_loop rows journal map].
    now rewrite !app_nil_r.
  - cbn [Csv.process_loop process_loop].
    destruct (perform W unit NewPage w) as [[[]|e] w1].
    2:{ cbn [rows journal map]. now rewrite !app_nil_r. }
    destruct (find_career_page (website_of c) (company_name_of c) w1 [])
      as [[found w2] t].
    destruct (perform W unit ClosePage w2) as [[[]|e] w3].
    2:{ reflexivity. }
    destruct (perform W unit (Sleep 2) w3) as [[[]|e] w4].
    2:{ reflexivity. }
    cbn [Csv.append_to_csv]. rewrite IH.
    rewrite (process_loop_from cs w4 (append_to_csv _ _)).
    destruct (process_loop cs w4 {| rows := []; journal := [] |})
      as [[result w'] r'].
    cbn [append_to_csv record_discovery rows journal app map].
    now rewrite <- !app_assoc.
Qed.

(** X22.  The store of rows is a sound reading of the file.  On a file
    made of the header and one record per row, the processed set read
    with [csv.DictReader] is the one computed from the rows, and a run
    leaves the header followed by the records of the rows that the run on
    the store leaves, with the same result, browser state and
    discoveries.  A missing file behaves like an empty store: it is
    created with its header, which is then never written again. *)
Theorem file_run_refines_store_run (input : list input_row)
  (output : list store_row) (w : state W) :
  Csv.load_processed (Some (Csv.fieldnames :: map Csv.record_of output))
  = load_processed output /\
  Csv.process_companies input
    (Some (Csv.fieldnames :: map Csv.record_of output)) w
  = (let '(result, w', r) := process_companies input output w in
     (result, w',
      Some (Csv.fieldnames :: map Csv.record_of (rows r)), journal r)) /\
  Csv.process_companies input None w
  = Csv.process_companies input (Some [Csv.fieldnames]) w.
Proof.
  split; [apply load_processed_file|]. split; [|reflexivity].
  unfold Csv.process_companies, process_companies.
  rewrite load_processed_file.
  destruct (perform W unit OpenSession w) as [[[]|e] w1]; [|reflexivity].
  rewrite file_loop.
  rewrite (process_loop_from _ w1 {| rows := output; journal := [] |}).
  destruct (process_loop (companies_to_process (load_processed output) input)
              w1 {| rows := []; journal := [] |}) as [[[[]|e] w2] r].
  - cbn [rows journal app].
    destruct (perform W unit CloseSession w2) as [[[]|e] w3];
      cbn [rows journal]; now rewrite List.map_app.
  - cbn [rows journal app]. now rewrite List.map_app.
Qed.




End FileRuns.

End CsvFacts.

(** ** The calls of a run *)

Section KeepsLogFacts.
Context {T : Type} (watch : forall A, request A -> option T) (W : World).

Lemma keeps_ret {A} (a : A) : keeps_log watch W (ret a).
Proof. intros s l. reflexivity. Qed.

Lemma keeps_emit (e : event) : keeps_log watch W (emit e).
Proof. intros s l. reflexivity. Qed.

Lemma keeps_call {A} (rq : request A) :
  watch A rq = None -> keeps_log watch W (call rq).
Proof.
  intros Hw s l. unfold call. cbn [perform logged].
  destruct (perform W A rq (fst s)) as [r s']. rewrite Hw. cbn [fst snd].
  apply app_nil_r.
Qed.

Lemma keeps_bind {A B} (m : @M (logged watch W) A) (f : A -> @M (logged watch W) B) :
  keeps_log watch W m -> (forall a, keeps_log watch W (f a)) ->
  keeps_log watch W (bind m f).
Proof.
  intros Hm Hf s l. unfold bind. specialize (Hm s l).
  destruct (m s l) as [[[a|e] s1] l1]; cbn [fst snd] in *.
  - now rewrite (Hf a s1 l1).
  - exact Hm.
Qed.

Lemma keeps_try {A} (m : @M (logged watch W) A) (h : exn -> @M (logged watch W) A) :
  keeps_log watch W m -> (forall e, keeps_log watch W (h e)) ->
  keeps_log watch W (try_catch m h).
Proof.
  intros Hm Hh s l. unfold try_catch. specialize (Hm s l).
  destruct (m s l) as [[[a|e] s1] l1]; cbn [fst snd] in *.
  - exact Hm.
  - now rewrite (Hh e s1 l1).
Qed.

Lemma keeps_for_each {A} (body : A -> @M (logged watch W) (option string)) (xs : list A) :
  (forall x, keeps_log watch W (body x)) ->
  keeps_log watch W (for_each body xs).
Proof.
  intros Hb. induction xs as [|x xs IH]; simpl; [apply keeps_ret|].
  apply keeps_bind; [apply Hb|]. intros [u|]; [apply keeps_ret | exact IH].
Qed.

Lemma keeps_for_each_guarded {A} h (body : A -> @M (logged watch W) (option string))
  (xs : list A) :
  (forall x, keeps_log watch W (body x)) ->
  keeps_log watch W (for_each_guarded h body xs).
Proof.
  intros Hb. induction xs as [|x xs IH]; simpl; [apply keeps_ret|].
  apply keeps_bind.
  - apply keeps_try; [apply Hb|]. intros e.
    apply keeps_bind; [apply keeps_emit | intros _; apply keeps_ret].
  - intros [u|]; [apply keeps_ret | exact IH].
Qed.

End KeepsLogFacts.

Ltac keeps_tac :=
  repeat first
    [ apply keeps_ret
    | apply keeps_emit
    | apply keeps_call; reflexivity
    | apply keeps_for_each; intros ?
    | apply keeps_for_each_guarded; intros ?
    | apply keeps_try; [|intros ?]
    | apply keeps_bind; [|intros ?]
    | match goal with
      | |- keeps_log _ _ (if ?b then _ else _) => destruct b
      | |- keeps_log _ _ (match ?x with _ => _ end) => destruct x
      end
    | progress cbv beta ].

Section SessionFacts.
Context (W : World).

Lemma find_career_page_keeps_session (base_url company_name : string) :
  keeps_log session_watch W
    (find_career_page (W := logged session_watch W) base_url company_name).
Proof.
  unfold find_career_page, check_subdomain_urls, homepage_strategies,
    strategy_navigation, third_party_scan, navigation_menus,
    strategy_footer, strategy_full_page, career_link_scan, strategy_direct,
    strategy_search, goto.
  keeps_tac.
Qed.

End SessionFacts.

Section LogsFacts.
Context {T : Type} (watch : forall A, request A -> option T) (W : World).

Lemma logs_weaken {A} (m : @M (logged watch W) A)
  (Q Q' : res A -> list (T * bool) -> Prop) :
  logs watch W m Q -> (forall r made, Q r made -> Q' r made) ->
  logs watch W m Q'.
Proof.
  intros H HQ s l. destruct (H s l) as (made & E & HQm).
  exists made. split; [exact E | now apply HQ].
Qed.

Lemma logs_keeps {A} (m : @M (logged watch W) A) :
  keeps_log watch W m -> logs watch W m (fun _ made => made = []).
Proof.
  intros H s l. exists []. split; [|reflexivity].
  rewrite app_nil_r. apply H.
Qed.

Lemma logs_call {A} (rq : request A) (t : T) :
  watch A rq = Some t ->
  logs watch W (call rq) (fun r made => made = [(t, is_ok r)]).
Proof.
  intros Hw s l. unfold call. cbn [perform logged].
  destruct (perform W A rq (fst s)) as [r s']. rewrite Hw. cbn [fst snd].
  now exists [(t, is_ok r)].
Qed.

Lemma logs_bind {A B} (m : @M (logged watch W) A)
  (f : A -> @M (logged watch W) B)
  (P : res A -> list (T * bool) -> Prop)
  (Q : res B -> list (T * bool) -> Prop) :
  logs watch W m P ->
  (forall a t1, P (Ok a) t1 ->
     logs watch W (f a) (fun r t2 => Q r (t1 ++ t2))) ->
  (forall e t1, P (Raise e) t1 -> Q (Raise e) t1) ->
  logs watch W (bind m f) Q.
Proof.
  intros Hm Hf He s l. unfold bind. destruct (Hm s l) as (t1 & E1 & H1).
  destruct (m s l) as [[[a|e] s1] l1]; cbn [fst snd] in *.
  - destruct (Hf a t1 H1 s1 l1) as (t2 & E2 & H2).
    exists (t1 ++ t2). split; [|exact H2].
    now rewrite E2, E1, app_assoc.
  - exists t1. split; [exact E1 | now apply He].
Qed.

Lemma logs_try {A} (m : @M (logged watch W) A)
  (h : exn -> @M (logged watch W) A)
  (P Q : res A -> list (T * bool) -> Prop) :
  logs watch W m P ->
  (forall a t1, P (Ok a) t1 -> Q (Ok a) t1) ->
  (forall e t1, P (Raise e) t1 ->
     logs watch W (h e) (fun r t2 => Q r (t1 ++ t2))) ->
  logs watch W (try_catch m h) Q.
Proof.
  intros Hm Ha Hh s l. unfold try_catch. destruct (Hm s l) as (t1 & E1 & H1).
  destruct (m s l) as [[[a|e] s1] l1]; cbn [fst snd] in *.
  - exists t1. split; [exact E1 | now apply Ha].
  - destruct (Hh e t1 H1 s1 l1) as (t2 & E2 & H2).
    exists (t1 ++ t2). split; [|exact H2].
    now rewrite E2, E1, app_assoc.
Qed.

Lemma logs_ret {A} (a : A) :
  logs watch W (ret a) (fun r made => r = Ok a /\ made = []).
Proof.
  intros s l. exists []. split; [now rewrite app_nil_r | now split].
Qed.

Lemma logs_emit_ret {A} (e : event) (a : A) :
  logs watch W (emit e >> ret a) (fun r made => r = Ok a /\ made = []).
Proof.
  intros s l. exists []. split; [now rewrite app_nil_r | now split].
Qed.

End LogsFacts.

Section SubdomainBrowser.
Context (W : World).

Lemma probe_logs (url : string) :
  logs subdomain_watch W (probe W url)
    (fun r made =>
       match r with
       | Ok (Some _) => made = [(SClose, true)]
       | Ok None => made = []
       | Raise _ => made = [] \/ made = [(SClose, false)]
       end).
Proof.
  unfold probe, goto.
  apply logs_bind with (P := fun _ made => made = []).
  - apply logs_keeps. keeps_tac.
  - intros response t1 ->. cbn [app].
    destruct (response_ok response);
      [|eapply logs_weaken; [apply logs_ret|]; now intros r made [-> ->]].
    apply logs_bind with (P := fun _ made => made = []).
    + apply logs_keeps. keeps_tac.
    + intros content t1 ->. cbn [app].
      destruct (search_any true SIGNAL_WORDS content);
        [|eapply logs_weaken; [apply logs_ret|]; now intros r made [-> ->]].
      apply logs_bind
        with (P := fun r made => made = [(SClose, is_ok r)]).
      * now apply logs_call.
      * intros [] t1 ->. cbn [is_ok].
        eapply logs_weaken; [apply logs_emit_ret|].
        now intros r made [-> ->].
      * intros e t1 ->. now right.
    + intros e t1 ->. now left.
  - intros e t1 ->. now left.
Qed.

Lemma subdomain_loop_logs (urls : list string) :
  logs subdomain_watch W (for_each_guarded HSubdomain (probe W) urls)
    (fun r made =>
       exists k,
         match r with
         | Ok (Some _) =>
             k < List.length urls /\
             made = repeat (SClose, false) k ++ [(SClose, true)]
         | Ok None => k <= List.length urls /\ made = repeat (SClose, false) k
         | Raise _ => False
         end).
Proof.
  induction urls as [|url urls IH]; cbn [for_each_guarded].
  - eapply logs_weaken; [apply logs_ret|].
    intros r made [-> ->]. exists 0. split; [simpl; lia | reflexivity].
  - apply logs_bind
      with (P := fun r made =>
                   match r with
                   | Ok (Some _) => made = [(SClose, true)]
                   | Ok None => made = [] \/ made = [(SClose, false)]
                   | Raise _ => False
                   end).
    + eapply logs_try; [apply probe_logs| |].
      * intros [u|] t1 H; [exact H | now left].
      * intros e t1 H.
        eapply logs_weaken; [apply logs_emit_ret|].
        intros r made [-> ->]. rewrite app_nil_r. exact H.
    + intros [u|] t1 H.
      * eapply logs_weaken; [apply logs_ret|].
        intros r made [-> ->]. exists 0. subst t1.
        split; [simpl; lia | reflexivity].
      * eapply logs_weaken; [apply IH|].
        intros r made (k & Hk). destruct H as [->| ->].
        -- exists k. destruct r as [[u|]|e]; [| |exact Hk];
             (split; [simpl; lia | apply Hk]).
        -- exists (S k). destruct r as [[u|]|e]; [| |exact Hk];
             (split; [simpl; lia|]); destruct Hk as [_ ->]; reflexivity.
    + intros e t1 [].
Qed.

(** X25.  The browser that [check_subdomain_urls] launches is closed by
    the call that ends the function, and the function returns exactly
    when that call succeeds.  Every earlier closing - there are at most
    13, one per candidate found - has failed, and the candidate found
    with it was dropped: the loop went on. *)
Theorem subdomain_browser_closed_last (base_url company_name : string)
  (w : state W) :
  match subdomain_urls base_url with
  | None =>
      snd (snd (fst (check_subdomain_urls (W := logged subdomain_watch W)
                       base_url company_name (w, []) []))) = []
  | Some _ =>
      (snd (snd (fst (check_subdomain_urls (W := logged subdomain_watch W)
                        base_url company_name (w, []) [])))
       = [(SLaunch, false)] /\
       is_ok (fst (fst (check_subdomain_urls (W := logged subdomain_watch W)
                          base_url company_name (w, []) []))) = false) \/
      exists k,
        k <= 13 /\
        snd (snd (fst (check_subdomain_urls (W := logged subdomain_watch W)
                         base_url company_name (w, []) [])))
        = (SLaunch, true) :: repeat (SClose, false) k
          ++ [(SClose,
               is_ok (fst (fst (check_subdomain_urls
                                  (W := logged subdomain_watch W)
                                  base_url company_name (w, []) []))))]
  end.
Proof.
  unfold check_subdomain_urls.
  destruct (subdomain_urls base_url) as [urls|] eqn:Eu; [|reflexivity].
  assert (Hlen : List.length urls = 13).
  { unfold subdomain_urls in Eu.
    destruct (re_match false BASE_URL_RE base_url) as [[|d caps]|];
      try discriminate.
    injection Eu as <-. reflexivity. }
  assert (L : logs subdomain_watch W
                (call LaunchSubdomainBrowser >>
                 let* r := for_each_guarded HSubdomain (probe W) urls in
                 match r with
                 | Some url => ret (Some url)
                 | None => call CloseSubdomainBrowser >> ret None
                 end)
                (fun r made =>
                   (made = [(SLaunch, false)] /\ is_ok r = false) \/
                   exists k, k <= 13 /\
                     made = (SLaunch, true) :: repeat (SClose, false) k
                            ++ [(SClose, is_ok r)])).
  { apply logs_bind
      with (P := fun r made => made = [(SLaunch, is_ok r)]).
    - now apply logs_call.
    - intros [] t1 ->. cbn [is_ok].
      eapply logs_bind; [apply subdomain_loop_logs| |].
      + intros [u|] t2 (k & Hk & ->).
        * eapply logs_weaken; [apply logs_ret|].
          intros r made [-> ->]. right. exists k.
          split; [lia|]. cbn [is_ok app]. now rewrite ?app_nil_r.
        * apply logs_bind
            with (P := fun r made => made = [(SClose, is_ok r)]).
          -- now apply logs_call.
          -- intros [] t1 ->. eapply logs_weaken; [apply logs_ret|].
             intros r made [-> ->]. right. exists k.
             split; [lia|]. cbn [is_ok app]. now rewrite ?app_nil_r.
          -- intros e t1 ->. right. exists k. split; [lia | reflexivity].
      + intros e t1 (k & []).
    - intros e t1 ->. now left. }
  destruct (L (w, []) []) as (made & E & H).
  cbn [snd app] in E. unfold probe in E, H. rewrite E. exact H.
Qed.

End SubdomainBrowser.

(** ** When strategy 0 fails *)

Section StrategyZeroFailure.
Context {W : World}.

Lemma check_subdomain_urls_raise (base_url company_name : string) :
  sat (check_subdomain_urls base_url company_name)
      (fun r t =>
         match r with
         | Raise _ =>
             subdomain_urls base_url <> None /\
             (navigations t = [] \/
              navigations t = subdomain_candidates base_url)
         | Ok _ => True
         end).
Proof.
  unfold check_subdomain_urls, subdomain_candidates.
  destruct (subdomain_urls base_url) as [urls|]; [|now apply sat_ret].
  apply sat_bind with (P := fun _ t => t = []);
    [now apply sat_call | | intros e t1 ->; split; [discriminate | now left]].
  intros _ t1 ->. cbn [app].
  eapply sat_bind;
    [apply (for_each_guarded_itinerary HSubdomain (fun u => u)) | |].
  - intros url. apply goto_only. intros response. silent_tac.
  - rewrite map_id. intros [u|] t2 [H2 _]; [now apply sat_ret|].
    simpl in H2. eapply sat_weaken;
      [apply silent_bind; [apply silent_call | intros _; apply silent_ret]|].
    intros r t3 H3. destruct r as [a|e]; [exact I|].
    split; [discriminate|]. right.
    now rewrite navigations_app', H3, app_nil_r.
  - intros e t2 [_ [a Ha]]. discriminate Ha.
Qed.

Lemma find_career_page_raise (base_url company_name : string) :
  sat (find_career_page base_url company_name)
      (fun r t =>
         match r with
         | Raise _ =>
             entered t = [0] ->
             subdomain_urls base_url <> None /\
             (navigations t = [] \/
              navigations t = subdomain_candidates base_url)
         | Ok _ => True
         end).
Proof.
  unfold find_career_page. apply sat_emit_then.
  eapply sat_bind; [apply check_subdomain_urls_raise| |].
  - intros sub t0 _. destruct (Py.truthy_opt sub); [now apply sat_ret|].
    apply sat_bind with (P := homepage_spec base_url);
      [apply homepage_strategies_spec | | intros e t1 []].
    intros r1 t1 H1.
    assert (H : entered t1 <> []).
    { destruct r1 as [u|]; simpl in H1.
      - destruct H1 as (k & Hk & _ & E & _). rewrite E.
        destruct k; [lia | discriminate].
      - destruct H1 as [_ [E|[E|E]]]; rewrite E; discriminate. }
    assert (X : forall B (m : M B),
              extends m ->
              sat m (fun (r : res B) t2 =>
                       match r with
                       | Raise _ =>
                           entered (Enter 0 :: t0 ++ t1 ++ t2) = [0] ->
                           subdomain_urls base_url <> None /\
                           (navigations (Enter 0 :: t0 ++ t1 ++ t2) = [] \/
                            navigations (Enter 0 :: t0 ++ t1 ++ t2)
                            = subdomain_candidates base_url)
                       | Ok _ => True
                       end)).
    { intros B m Hm. eapply sat_weaken; [exact Hm|].
      intros r t2 _. destruct r as [a|e]; [exact I|].
      intros E. exfalso. apply H.
      change (Enter 0 :: t0 ++ t1 ++ t2) with ([Enter 0] ++ t0 ++ t1 ++ t2)
        in E.
      rewrite !entered_app in E. simpl in E. injection E as E.
      apply app_eq_nil in E as [_ E]. now apply app_eq_nil in E as [E _]. }
    destruct r1 as [u|]; [now apply sat_ret|].
    apply X. unfold strategy_direct, strategy_search, goto. extends_tac.
  - intros e t0 [Hs Hn] _. split; [exact Hs|].
    exact Hn.
Qed.

(** X26.  An exception leaves [find_career_page] only from strategy 0,
    whose browser is launched and closed outside every [try]: the website
    then has a host, no other strategy has been entered, nothing was
    found, and the navigations made are none (the launch failed) or all
    the subdomain candidates (the closing failed).  The homepage is not
    visited for such a company. *)
Theorem strategy_0_failure_ends_run (base_url company_name : string)
  (w : state W) (e : exn) :
  run_result (find_career_page base_url company_name) w = Raise e ->
  subdomain_urls base_url <> None /\
  entered (run_trace (find_career_page base_url company_name) w) = [0] /\
  founds (run_trace (find_career_page base_url company_name) w) = [] /\
  (navigations (run_trace (find_career_page base_url company_name) w) = [] \/
   navigations (run_trace (find_career_page base_url company_name) w)
   = subdomain_candidates base_url).
Proof.
  intros Hr.
  pose proof (sat_run _ _ w (find_career_page_spec base_url company_name)) as H.
  pose proof (sat_run _ _ w (find_career_page_raise base_url company_name))
    as R.
  fold (run_result (find_career_page base_url company_name) w) in H, R.
  fold (run_trace (find_career_page base_url company_name) w) in H, R.
  rewrite Hr in H, R. simpl in H. destruct H as [F E].
  destruct (R E) as [Hs Hn]. auto.
Qed.

End StrategyZeroFailure.

Lemma strategy_0_failure_ends_run_witness :
  entered (run_trace (find_career_page (W := scripted no_browser_site)
                        "https://acme.com" "Acme") tt) = [0] /\
  navigations (run_trace (find_career_page (W := scripted no_browser_site)
                            "https://acme.com" "Acme") tt) = [].
Proof.
  destruct (strategy_0_failure_ends_run (W := scripted no_browser_site)
              "https://acme.com" "Acme" tt
              (Error "BrowserType.launch: failed") eq_refl)
    as (_ & E & _ & _).
  split; [exact E | reflexivity].
Defined.

(** ** Runs on the two files *)

Module OnFilesFacts.
Import OnFiles.

Lemma file_load_processed_from (header : Csv.record) (data : list Csv.record)
  (acc : gset (option string)) (name : option string) :
  name ∈ fold_left
           (fun processed r =>
              if is_blank r then processed
              else
                match Csv.get header r "career_url" with
                | Some u =>
                    if Py.truthy u
                    then {[ Csv.get header r "company" ]} ∪ processed
                    else processed
                | None => processed
                end)
           data acc <->
  name ∈ acc \/
  exists r, In r data /\ r <> [] /\ Csv.get header r "company" = name /\
            exists u, Csv.get header r "career_url" = Some u /\ u <> "".
Proof.
  revert acc. induction data as [|r data IH]; intros acc; cbn [fold_left].
  - split; [now left | intros [H|(r & [] & _)]; exact H].
  - rewrite IH. clear IH.
    assert (Skip : (exists r0, In r0 (r :: data) /\ r0 <> [] /\
                      Csv.get header r0 "company" = name /\
                      exists u, Csv.get header r0 "career_url" = Some u /\
                                u <> "") <->
                   (r <> [] /\ Csv.get header r "company" = name /\
                    exists u, Csv.get header r "career_url" = Some u /\
                              u <> "") \/
                   exists r0, In r0 data /\ r0 <> [] /\
                      Csv.get header r0 "company" = name /\
                      exists u, Csv.get header r0 "career_url" = Some u /\
                                u <> "").
    { split.
      - intros (r0 & [<-|Hin] & H); [now left | right; now exists r0].
      - intros [H|(r0 & Hin & H)]; [exists r; split; [now left | exact H]|].
        exists r0. split; [now right | exact H]. }
    rewrite Skip. clear Skip.
    destruct r as [|x r']; cbn [is_blank].
    { split; [tauto|]. intros [H|[(H & _)|H]]; [tauto | now destruct H | tauto]. }
    destruct (Csv.get header (x :: r') "career_url") as [u|] eqn:Eu.
    2:{ split; [tauto|]. intros [H|[(_ & _ & u & Hu & _)|H]];
          [tauto | discriminate Hu | tauto]. }
    destruct (Py.truthy u) eqn:Et.
    + apply truthy_iff in Et. rewrite elem_of_union, elem_of_singleton.
      split.
      * intros [[->|H]|H]; [|tauto|tauto].
        right. left. split; [discriminate|]. split; [reflexivity|].
        now exists u.
      * intros [H|[(_ & <- & _)|H]]; tauto.
    + assert (E : u = "") by (destruct u; [reflexivity | discriminate Et]).
      split; [tauto|].
      intros [H|[(_ & _ & u' & [= <-] & Hne)|H]]; [tauto | | tauto].
      now destruct Hne.
Qed.

Lemma file_load_processed_iff (header : Csv.record) (data : list Csv.record)
  (name : option string) :
  name ∈ load_processed (Some (header :: data)) <->
  exists r, In r data /\ r <> [] /\ Csv.get header r "company" = name /\
            exists u, Csv.get header r "career_url" = Some u /\ u <> "".
Proof.
  unfold load_processed. rewrite file_load_processed_from. split.
  - intros [H|H]; [|exact H]. now apply not_elem_of_empty in H.
  - intros H. now right.
Qed.

Lemma get_written (a b c d : string) :
  Csv.get Csv.fieldnames [a; b; c; d] "company" = Some a /\
  Csv.get Csv.fieldnames [a; b; c; d] "career_url" = Some c.
Proof. split; reflexivity. Qed.

Lemma file_load_processed_store (output : list store_row)
  (name : option string) :
  name ∈ load_processed (Some (Csv.fieldnames :: map Csv.record_of output))
  <-> exists row, In row output /\ name = Some (company row) /\
                  career_url row <> "".
Proof.
  rewrite file_load_processed_iff. split.
  - intros (r & Hin & _ & Hc & u & Hu & Hne).
    apply in_map_iff in Hin as (row & <- & Hin).
    exists row. unfold Csv.record_of in Hc, Hu.
    destruct (get_written (company row) (website row) (career_url row)
                (timestamp row)) as [E1 E2].
    rewrite E1 in Hc. rewrite E2 in Hu. injection Hu as <-.
    now split.
  - intros (row & Hin & -> & Hne). exists (Csv.record_of row).
    split; [now apply in_map|]. split; [discriminate|].
    split; [reflexivity|]. now exists (career_url row).
Qed.

Lemma file_companies_to_process_iff (processed : gset (option string))
  (header : Csv.record) (data : list Csv.record) (r : Csv.record) :
  In r (companies_to_process processed header data) <->
  In r data /\ r <> [] /\ company_name_of header r ∉ processed.
Proof.
  unfold companies_to_process.
  rewrite filter_In, andb_true_iff, !negb_true_iff, bool_decide_eq_false.
  destruct r; cbn [is_blank]; split; intros H;
    try (destruct H as (? & ? & ?)); try (destruct H as (? & [? ?]));
    try discriminate; try congruence; repeat split; auto; discriminate.
Qed.

Section Loop.
Context {W : World}.

(** The loop processes a prefix of the companies, all of them when it ends
    normally, and leaves one visit and one record for each. *)
Lemma file_process_loop_spec (header : Csv.record) (cs : list Csv.record)
  (w : state W) (records : list Csv.record) (j : list visit) :
  exists n vs new,
    n <= List.length cs /\
    (returns (fst (fst (fst (process_loop header cs w (Some records) j)))) ->
     n = List.length cs) /\
    snd (process_loop header cs w (Some records) j) = j ++ vs /\
    snd (fst (process_loop header cs w (Some records) j))
    = Some (records ++ new) /\
    Forall3 (visit_recorded header) (firstn n cs) vs new.
Proof.
  revert w records j. induction cs as [|c cs IH]; intros w records j.
  - exists 0, [], []. cbn. rewrite !app_nil_r. repeat split; constructor.
  - cbn [process_loop].
    assert (Stop0 : forall e (w' : state W),
      exists n vs new,
        n <= List.length (c :: cs) /\
        (returns (fst (fst (fst (@Raise unit e, w', Some records, j)))) ->
         n = List.length (c :: cs)) /\
        snd (@Raise unit e, w', Some records, j) = j ++ vs /\
        snd (fst (@Raise unit e, w', Some records, j))
        = Some (records ++ new) /\
        Forall3 (visit_recorded header) (firstn n (c :: cs)) vs new).
    { intros e w'. exists 0, [], []. cbn. rewrite !app_nil_r.
      repeat split; try lia; try constructor.
      intros [a Ha]. discriminate Ha. }
    destruct (website_cell header c) as [cell|] eqn:Ec; [|apply Stop0].
    destruct (perform W () NewPage w) as [[[]|e] w1]; [|apply Stop0].
    cbn [Csv.append_to_csv Csv.record_of company website career_url
           timestamp].
    set (site := if negb (Py.has_http_scheme cell)
                 then "https://" +:+ cell else cell).
    destruct (find_career_page site (py_str (company_name_of header c))
                w1 []) as [[found w2] t] eqn:Ef.
    set (v := {| visited := company_name_of header c;
                 visited_site := site; returned := found; events := t |}).
    set (url := match found with
                | Ok (Some career_url) => career_url
                | Ok None => ""
                | Raise _ => ""
                end).
    set (rec := [csv_text (company_name_of header c); site; url;
                 strftime (now W w2)]).
    assert (Hrec : visit_recorded header c v rec).
    { unfold visit_recorded, run_result, run_trace. cbn [visited visited_site
        returned events v].
      split; [reflexivity|]. split.
      - exists cell. split; [exact Ec|]. unfold site.
        now destruct (Py.has_http_scheme cell).
      - split; [exists w1; now rewrite Ef|].
        exists url, (now W w2). split; [reflexivity|].
        unfold url. now destruct found as [[u|]|e]. }
    assert (Stop : forall e (w' : state W),
      exists n vs new,
        n <= List.length (c :: cs) /\
        (returns (fst (fst (fst (@Raise unit e, w',
                                 Some (records ++ [rec]), j ++ [v])))) ->
         n = List.length (c :: cs)) /\
        snd (@Raise unit e, w', Some (records ++ [rec]), j ++ [v])
        = j ++ vs /\
        snd (fst (@Raise unit e, w', Some (records ++ [rec]), j ++ [v]))
        = Some (records ++ new) /\
        Forall3 (visit_recorded header) (firstn n (c :: cs)) vs new).
    { intros e w'. exists 1, [v], [rec]. cbn.
      repeat split; try lia.
      - intros [a Ha]. discriminate Ha.
      - constructor; [exact Hrec | constructor]. }
    change (Csv.record_of _) with rec.
    destruct (perform W () ClosePage w2) as [[[]|e] w3]; [|apply Stop].
    destruct (perform W () (Sleep 2) w3) as [[[]|e] w4]; [|apply Stop].
    destruct (IH w4 (records ++ [rec]) (j ++ [v]))
      as (n & vs & new & Hn & Hret & Hj & Hr & Hall).
    exists (S n), (v :: vs), (rec :: new). cbn [List.length firstn].
    split; [lia|]. split; [intros H; now rewrite (Hret H)|].
    split; [etransitivity; [exact Hj|]; now rewrite <- app_assoc|].
    split; [etransitivity; [exact Hr|]; now rewrite <- app_assoc|].
    now constructor.
Qed.

End Loop.



Lemma Forall3_in_3 {A B C} (P : A -> B -> C -> Prop) (xs : list A)
  (ys : list B) (zs : list C) (z : C) :
  Forall3 P xs ys zs -> In z zs ->
  exists x y, In x xs /\ In y ys /\ P x y z.
Proof.
  induction 1 as [|x y z' xs ys zs H _ IH]; intros Hin; [destruct Hin|].
  destruct Hin as [<-|Hin].
  - exists x, y. simpl. auto.
  - destruct (IH Hin) as (x' & y' & Hx & Hy & HP). exists x', y'.
    simpl. auto.
Qed.

Lemma visits_names {W : World} (header : Csv.record) (cs : list Csv.record)
  (vs : list visit) (new : list Csv.record) :
  Forall3 (visit_recorded header) cs vs new ->
  map visited vs = map (company_name_of header) cs.
Proof.
  induction 1 as [|c v rec cs vs new (Hv & _) _ IH]; simpl; [reflexivity|].
  now rewrite Hv, IH.
Qed.

Section Runs.
Context {W : World}.

Lemma file_process_companies_spec (input_csv output_csv : Csv.file)
  (w : state W) :
  exists n vs new,
    n <= List.length (to_process input_csv output_csv) /\
    (returns (fst (fst (fst (process_companies input_csv output_csv w)))) ->
     n = List.length (to_process input_csv output_csv)) /\
    snd (process_companies input_csv output_csv w) = vs /\
    snd (fst (process_companies input_csv output_csv w))
    = Some (records_at_start output_csv ++ new) /\
    Forall3 (visit_recorded (header_of input_csv))
      (firstn n (to_process input_csv output_csv)) vs new.
Proof.
  unfold process_companies.
  assert (Ec : match output_csv with
               | None => Some [Csv.fieldnames]
               | Some _ => output_csv
               end = Some (records_at_start output_csv))
    by now destruct output_csv.
  rewrite Ec.
  assert (Stop : forall e (w' : state W),
    exists n vs new,
      n <= List.length (to_process input_csv output_csv) /\
      (returns (fst (fst (fst (@Raise unit e, w',
                               Some (records_at_start output_csv),
                               @nil visit)))) ->
       n = List.length (to_process input_csv output_csv)) /\
      snd (@Raise unit e, w', Some (records_at_start output_csv),
           @nil visit) = vs /\
      snd (fst (@Raise unit e, w', Some (records_at_start output_csv),
                @nil visit))
      = Some (records_at_start output_csv ++ new) /\
      Forall3 (visit_recorded (header_of input_csv))
        (firstn n (to_process input_csv output_csv)) vs new).
  { intros e w'. exists 0, [], []. cbn. rewrite app_nil_r.
    repeat split; try lia; try constructor.
    intros [a Ha]. discriminate Ha. }
  destruct input_csv as [records|]; [|apply Stop].
  destruct (perform W () OpenSession w) as [[[]|e] w1]; [|apply Stop].
  cbn [to_process header_of].
  destruct (file_process_loop_spec (hd [] records)
              (companies_to_process
                 (load_processed (Some (records_at_start output_csv)))
                 (hd [] records) (tl records))
              w1 (records_at_start output_csv) [])
    as (n & vs & new & Hn & Hret & Hj & Hr & Hall).
  exists n, vs, new.
  destruct (process_loop (hd [] records)
              (companies_to_process
                 (load_processed (Some (records_at_start output_csv)))
                 (hd [] records) (tl records))
              w1 (Some (records_at_start output_csv)) [])
    as [[[[[]|e] w2] written] journal]; cbn [fst snd] in *.
  - destruct (perform W () CloseSession w2) as [[[]|e] w3]; cbn [fst snd];
      repeat split; auto.
    intros _. apply Hret. now exists tt.
  - repeat split; auto.
Qed.


Lemma processed_not_visited (input_csv output_csv : Csv.file) (w : state W)
  (name : option string) :
  name ∈ load_processed (Some (records_at_start output_csv)) ->
  forall v, In v (snd (process_companies input_csv output_csv w)) ->
            visited v <> name.
Proof.
  intros Hname v Hin.
  destruct (file_process_companies_spec input_csv output_csv w)
    as (n & vs & new & _ & _ & Hj & _ & Hall).
  rewrite Hj in Hin.
  apply (in_map visited) in Hin. rewrite (visits_names _ _ _ _ Hall) in Hin.
  apply in_map_iff in Hin as (c & Hc & Hin). apply in_firstn in Hin.
  destruct input_csv as [records|]; [|destruct Hin].
  apply file_companies_to_process_iff in Hin as (_ & _ & Hnot).
  cbn [header_of] in Hc. rewrite Hc in Hnot. congruence.
Qed.

Lemma Forall3_drop_1 {A B C} (P : A -> B -> C -> Prop)
  (Q : B -> C -> Prop) (xs : list A) (ys : list B) (zs : list C) :
  (forall x y z, P x y z -> Q y z) ->
  Forall3 P xs ys zs -> Forall2 Q ys zs.
Proof.
  intros HPQ. induction 1 as [|x y z xs ys zs H _ IH]; constructor; eauto.
Qed.

(** C5 (amended).  The processed set is read from the output file with
    the first record as field names: it holds the company fields of the
    later records whose career_url field is not empty.  On a file that
    starts with the header of the tool, these are the names of the rows
    stored with a URL.  The rows to process are the rows of the input
    whose name is not in that set.  So for a name in the set a run makes
    no visit, hence no navigation, and appends no record: the appended
    records are those of the visits, one each. *)
Theorem resume_skips_processed (input_csv output_csv : Csv.file)
  (w : state W) :
  (forall header data name,
     name ∈ load_processed (Some (header :: data)) <->
     exists r, In r data /\ r <> [] /\
               Csv.get header r "company" = name /\
               exists u, Csv.get header r "career_url" = Some u /\
                         u <> "") /\
  (forall output name,
     name ∈ load_processed
              (Some (Csv.fieldnames :: map Csv.record_of output)) <->
     exists row, In row output /\ name = Some (company row) /\
                 career_url row <> "") /\
  (forall records r,
     In r (to_process (Some records) output_csv) <->
     In r (tl records) /\ r <> [] /\
     company_name_of (hd [] records) r
       ∉ load_processed (Some (records_at_start output_csv))) /\
  (forall name,
     name ∈ load_processed (Some (records_at_start output_csv)) ->
     (forall v, In v (snd (process_companies input_csv output_csv w)) ->
                visited v <> name) /\
     navigations_of name (snd (process_companies input_csv output_csv w))
     = [] /\
     exists new,
       snd (fst (process_companies input_csv output_csv w))
       = Some (records_at_start output_csv ++ new) /\
       Forall2
         (fun v rec =>
            exists url ts,
              rec = [csv_text (visited v); visited_site v; url; ts])
         (snd (process_companies input_csv output_csv w)) new).
Proof.
  split; [apply file_load_processed_iff|].
  split; [apply file_load_processed_store|].
  split; [intros records r; apply file_companies_to_process_iff|].
  intros name Hname.
  pose proof (processed_not_visited input_csv output_csv w name Hname) as Hv.
  split; [exact Hv|]. split.
  - unfold navigations_of.
    induction (snd (process_companies input_csv output_csv w)) as [|v vs IH];
      [reflexivity|].
    cbn [flat_map]. rewrite bool_decide_eq_false_2
      by (apply Hv; now left).
    apply IH. intros v' Hin. apply Hv. now right.
  - destruct (file_process_companies_spec input_csv output_csv w)
      as (n & vs & new & _ & _ & Hj & Hr & Hall).
    exists new. split; [exact Hr|]. rewrite Hj.
    refine (Forall3_drop_1 _ _ _ _ _ _ Hall).
    intros c v rec (_ & _ & _ & url & ts & Hrec & _).
    exists url, (strftime ts). exact Hrec.
Qed.


End Runs.



Lemma resume_skips_processed_witness :
  navigations_of (Some "Acme")
    (snd (process_companies (W := scripted lever_site) two_companies
            (Some [ Csv.fieldnames; Csv.record_of acme_done ]) tt))
  = [].
Proof.
  pose proof (resume_skips_processed (W := scripted lever_site) two_companies
                (Some [ Csv.fieldnames; Csv.record_of acme_done ]) tt)
    as (_ & Hset & _ & H).
  refine (proj1 (proj2 (H (Some "Acme") _))).
  apply (Hset [acme_done]). exists acme_done.
  repeat split; [now left | discriminate].
Defined.

(** C5 (as stated, fails).  The output file exists and is empty, so no
    header is written.  The first run finds the Lever board of Acme and
    leaves one record; read back with that record as field names, the
    file gives an empty processed set, and the second run visits Acme
    again, with 14 navigations, and appends a second record for it. *)
Lemma stored_company_visited_again :
  snd (fst (process_companies (W := scripted lever_site)
              one_company (Some []) tt))
  = Some [ acme_found ] /\
  bool_decide (Some "Acme" ∈ load_processed (Some [ acme_found ])) = false /\
  map visited (snd (process_companies (W := scripted lever_site)
                      one_company (Some [ acme_found ]) tt))
  = [ Some "Acme" ] /\
  List.length
    (navigations_of (Some "Acme")
       (snd (process_companies (W := scripted lever_site)
               one_company (Some [ acme_found ]) tt)))
  = 14 /\
  snd (fst (process_companies (W := scripted lever_site)
              one_company (Some [ acme_found ]) tt))
  = Some [ acme_found; acme_found ].
Proof. repeat split; vm_compute; reflexivity. Qed.


(** *** The row-level model and the files *)

Lemma get_full_from (key : string) (header r : Csv.record)
  (rest : list (option string)) (found : option string) :
  List.length header <= List.length r ->
  (found <> None \/ has_field header key = true) ->
  exists v,
    fold_left
      (fun found kv =>
         if String.eqb (fst kv) key then snd kv else found)
      (combine header (map Some r ++ rest)) found
    = Some v.
Proof.
  revert r found. induction header as [|h hs IH]; intros r found Hlen Hkey.
  - cbn [combine fold_left]. destruct found as [v|]; [now exists v|].
    destruct Hkey as [H|H]; [congruence | discriminate H].
  - destruct r as [|x xs]; [simpl in Hlen; lia|].
    cbn [map app combine fold_left fst snd].
    apply IH; [simpl in Hlen; lia|].
    destruct (String.eqb h key) eqn:E; [left; discriminate|].
    destruct Hkey as [H|H]; [now left | right].
    unfold has_field in H. cbn [existsb] in H.
    rewrite String.eqb_sym, E in H. exact H.
Qed.

Lemma get_full (key : string) (header r : Csv.record) :
  List.length header <= List.length r ->
  has_field header key = true ->
  exists v, Csv.get header r key = Some v.
Proof.
  intros Hlen Hkey. unfold Csv.get. apply get_full_from; [exact Hlen|].
  now right.
Qed.

End OnFilesFacts.

(** X27.  The row-level model of the input and of the store agrees with
    the files where the records are not shorter than the field names:
    there the company name and the website of the row that [row_of]
    makes of a record are those that the run on the files works with,
    the website after the coercion to a scheme; and on an output file
    that starts with the header of the tool the processed set read from
    the file is the processed set of its rows. *)
Theorem row_model_agrees (header r : Csv.record) :
  List.length header <= List.length r ->
  OnFiles.company_name_of header r
  = Some (company_name_of (row_of header r)) /\
  (exists cell,
     OnFiles.website_cell header r = Some cell /\
     website_of (row_of header r)
     = if Py.has_http_scheme cell then cell else "https://" +:+ cell) /\
  forall output name,
    name ∈ OnFiles.load_processed
             (Some (Csv.fieldnames :: map Csv.record_of output)) <->
    exists s, name = Some s /\ s ∈ load_processed output.
Proof.
  intros Hlen. split; [|split].
  - unfold OnFiles.company_name_of, company_name_of, OnFiles.get_or, row_of.
    cbn [col_company col_name].
    destruct (OnFiles.has_field header "company") eqn:Ec.
    + destruct (OnFilesFacts.get_full "company" header r Hlen Ec) as [v ->]. reflexivity.
    + destruct (OnFiles.has_field header "name") eqn:En; [|reflexivity].
      destruct (OnFilesFacts.get_full "name" header r Hlen En) as [v ->]. reflexivity.
  - unfold OnFiles.website_cell, website_of, OnFiles.get_or, row_of.
    cbn [col_website col_url].
    destruct (OnFiles.has_field header "website") eqn:Ew.
    + destruct (OnFilesFacts.get_full "website" header r Hlen Ew) as [v ->].
      exists v. split; [reflexivity|]. now destruct (Py.has_http_scheme v).
    + destruct (OnFiles.has_field header "url") eqn:Eu.
      * destruct (OnFilesFacts.get_full "url" header r Hlen Eu) as [v ->].
        exists v. split; [reflexivity|].
        now destruct (Py.has_http_scheme v).
      * exists "". split; reflexivity.
  - intros output name. rewrite OnFilesFacts.file_load_processed_store. split.
    + intros (row & Hin & -> & Hu). exists (company row).
      split; [reflexivity|]. apply load_processed_iff.
      now exists row.
    + intros (s & -> & Hs).
      apply load_processed_iff in Hs as (row & Hin & <- & Hu).
      now exists row.
Qed.

Lemma row_model_agrees_witness :
  OnFiles.company_name_of input_header acme_record
  = Some (company_name_of (row_of input_header acme_record)).
Proof.
  refine (proj1 (row_model_agrees input_header acme_record _)).
  simpl. lia.
Defined.

(** ** The session calls of a run on the two files *)

Section SessionOnFiles.
Context (W : World).

Lemma process_loop_session_calls (header : Csv.record)
  (companies : list Csv.record) (s : state (logged session_watch W))
  (output_csv : Csv.file) (journal : list OnFiles.visit) :
  exists made,
    snd (snd (fst (fst (OnFiles.process_loop (W := logged session_watch W)
                          header companies s output_csv journal))))
    = snd s ++ made /\
    match fst (fst (fst (OnFiles.process_loop (W := logged session_watch W)
                           header companies s output_csv journal))) with
    | Ok _ =>
        made = succeeded (concat (repeat [SNewPage; SClosePage; SSleep]
                                    (List.length companies)))
    | Raise e =>
        (exists pre c rest,
           made = succeeded pre ++ [(c, false)] /\
           concat (repeat [SNewPage; SClosePage; SSleep]
                     (List.length companies)) = pre ++ c :: rest) \/
        (exists k company,
           nth_error companies k = Some company /\
           OnFiles.website_cell header company = None /\
           e = Error "AttributeError" /\
           made = succeeded (concat (repeat [SNewPage; SClosePage; SSleep]
                                       k)))
    end.
Proof.
  revert s output_csv journal.
  induction companies as [|co cs IH]; intros s out j.
  - exists []. split; [now rewrite app_nil_r | reflexivity].
  - cbn [OnFiles.process_loop List.length repeat concat].
    destruct (OnFiles.website_cell header co) as [cell|] eqn:Ecell.
    2:{ exists []. split; [now rewrite app_nil_r|]. cbn [fst].
        right. exists 0, co. repeat split. exact Ecell. }
    cbn [perform logged session_watch].
    destruct (perform W unit NewPage (fst s)) as [[[]|e] w1]; cbn [is_ok].
    2:{ eexists. split; [reflexivity|]. cbn [fst]. left.
        exists [], SNewPage. eexists. split; reflexivity. }
    match goal with
    | |- context [find_career_page ?site ?name ?s' []] =>
        pose proof (find_career_page_keeps_session W site name s' []) as K;
        destruct (find_career_page (W := logged session_watch W)
                    site name s' []) as [[found [w2 log2]] t]
    end.
    cbn [fst snd] in K. subst log2.
    cbn [perform logged session_watch fst snd].
    destruct (perform W unit ClosePage w2) as [[[]|e] w3];
      cbn [is_ok fst snd].
    2:{ eexists. split; [cbn [fst snd]; rewrite <- app_assoc; reflexivity|].
        cbn [fst]. left. exists [SNewPage], SClosePage. eexists.
        split; reflexivity. }
    destruct (perform W unit (Sleep 2) w3) as [[[]|e] w4];
      cbn [is_ok fst snd].
    2:{ eexists. split; [cbn [fst snd]; rewrite <- !app_assoc; reflexivity|].
        cbn [fst]. left. exists [SNewPage; SClosePage], SSleep. eexists.
        split; reflexivity. }
    match goal with
    | |- context [OnFiles.process_loop header cs ?s' ?out' ?j'] =>
        destruct (IH s' out' j') as (made & E & H);
        destruct (OnFiles.process_loop (W := logged session_watch W)
                    header cs s' out' j') as [[[result s4] out4] j4]
    end.
    cbn [fst snd] in E, H |- *.
    exists ([(SNewPage, true); (SClosePage, true); (SSleep, true)] ++ made).
    split; [rewrite E, <- !app_assoc; reflexivity|].
    destruct result as [[]|e].
    + now rewrite H.
    + destruct H as [(pre & c & rest & -> & Hp)
                    |(k & company & Hk & Hcell & He & ->)].
      * left. exists ([SNewPage; SClosePage; SSleep] ++ pre), c, rest.
        split; [reflexivity|]. cbn [app]. now rewrite Hp.
      * right. exists (S k), company. repeat split; assumption.
Qed.

(** X24.  The calls that [process_companies] makes on the browser
    session follow one protocol, whatever the discoveries do: the session
    is opened; then for each company to process a page is opened, closed
    and a pause made; then the session is closed.  A run that returns has
    made all of these calls.  A run that raises has made none when the
    input file is missing; otherwise it has made them up to a call that
    failed, or, all successful, up to a company whose row has no website
    cell: there [website.startswith] raises before a page is opened, and
    the session is left open.  In every case a page that was opened has
    been closed (or the closing was the call that failed) before anything
    else is called, also when [find_career_page] raised. *)
Theorem session_calls_follow_protocol (input_csv output_csv : Csv.file)
  (w : state W) :
  (fst (fst (fst (OnFiles.process_companies (W := logged session_watch W)
                    input_csv output_csv (w, [])))) = Ok tt ->
   snd (snd (fst (fst (OnFiles.process_companies
                         (W := logged session_watch W)
                         input_csv output_csv (w, [])))))
   = succeeded
       (session_protocol
          (List.length (to_process input_csv output_csv)))) /\
  (forall e,
     fst (fst (fst (OnFiles.process_companies (W := logged session_watch W)
                      input_csv output_csv (w, [])))) = Raise e ->
     (input_csv = None /\
      snd (snd (fst (fst (OnFiles.process_companies
                            (W := logged session_watch W)
                            input_csv output_csv (w, []))))) = []) \/
     (exists pre c rest,
        snd (snd (fst (fst (OnFiles.process_companies
                              (W := logged session_watch W)
                              input_csv output_csv (w, [])))))
        = succeeded pre ++ [(c, false)] /\
        session_protocol (List.length (to_process input_csv output_csv))
        = pre ++ c :: rest) \/
     (exists k company,
        nth_error (to_process input_csv output_csv) k = Some company /\
        OnFiles.website_cell (header_of input_csv) company = None /\
        e = Error "AttributeError" /\
        snd (snd (fst (fst (OnFiles.process_companies
                              (W := logged session_watch W)
                              input_csv output_csv (w, [])))))
        = succeeded
            (SOpen :: concat (repeat [SNewPage; SClosePage; SSleep] k)))).
Proof.
  unfold OnFiles.process_companies, session_protocol.
  destruct input_csv as [records|].
  2:{ cbn [fst snd]. split; [discriminate|]. intros e _. left. now split. }
  cbn [to_process header_of].
  replace (match output_csv with
           | Some _ => output_csv
           | None => Some [Csv.fieldnames]
           end) with (Some (records_at_start output_csv))
    by (destruct output_csv; reflexivity).
  cbn [perform logged session_watch fst snd app].
  destruct (perform W unit OpenSession w) as [[[]|e] w1]; cbn [is_ok].
  2:{ split; [discriminate|]. intros e' _. right. left.
      exists [], SOpen. eexists. split; reflexivity. }
  match goal with
  | |- context [OnFiles.process_loop ?h ?cs ?s' ?out ?j] =>
      destruct (process_loop_session_calls h cs s' out j) as (made & E & H);
      destruct (OnFiles.process_loop (W := logged session_watch W)
                  h cs s' out j) as [[[result [w2 log2]] out2] j2]
  end.
  cbn [fst snd] in E, H. subst log2.
  destruct result as [[]|e].
  - subst made. cbn [perform logged session_watch fst snd].
    destruct (perform W unit CloseSession w2) as [[[]|e] w3];
      cbn [is_ok fst snd].
    + split; [|discriminate]. intros _. unfold succeeded.
      cbn [map]. now rewrite List.map_app.
    + split; [discriminate|]. intros e' _. right. left.
      eexists (SOpen :: concat (repeat [SNewPage; SClosePage; SSleep] _)),
              SCloseSession, [].
      split; reflexivity.
  - cbn [fst snd]. split; [discriminate|]. intros e' [= <-].
    destruct H as [(pre & c & rest & -> & Hp)
                  |(k & company & Hk & Hcell & He & ->)].
    + right. left. exists (SOpen :: pre), c, (rest ++ [SCloseSession]).
      split; [reflexivity|]. rewrite Hp. cbn [app].
      now rewrite <- app_assoc.
    + right. right. exists k, company. repeat split; assumption.
Qed.

End SessionOnFiles.

Lemma session_calls_follow_protocol_witness :
  snd (snd (fst (fst (OnFiles.process_companies
                        (W := logged session_watch
                                (scripted hover_fails_site))
                        two_companies
                        (Some [ Csv.fieldnames; Csv.record_of acme_done ])
                        (tt, [])))))
  = [ (SOpen, true); (SNewPage, true); (SClosePage, true); (SSleep, true);
      (SCloseSession, true) ].
Proof.
  apply (proj1 (session_calls_follow_protocol (scripted hover_fails_site)
                  two_companies
                  (Some [ Csv.fieldnames; Csv.record_of acme_done ]) tt)).
  vm_compute. reflexivity.
Defined.

(** ** Where errors are suppressed *)

Section LinkScan.
Context (W : World).

Lemma third_party_body_logs (i : nat) :
  logs link_watch W
    (let* href := call (GetHref (NthLink i)) in
     match href with
     | Some h =>
         if Py.truthy h then
           match third_party_match h with
           | Some _ => emit (Found 1 h) >> ret (Some h)
           | None => ret None
           end
         else ret None
     | None => ret None
     end)
    (fun r made => made = [(i, is_ok r)]).
Proof.
  apply logs_bind with (P := fun r made => made = [(i, is_ok r)]).
  - now apply logs_call.
  - intros href t1 ->. cbn [is_ok].
    destruct href as [h|];
      [|eapply logs_weaken; [apply logs_ret|]; now intros r made [-> ->]].
    destruct (Py.truthy h);
      [|eapply logs_weaken; [apply logs_ret|]; now intros r made [-> ->]].
    destruct (third_party_match h);
      [|eapply logs_weaken; [apply logs_ret|]; now intros r made [-> ->]].
    eapply logs_weaken; [apply logs_emit_ret|]. now intros r made [-> ->].
  - intros e t1 ->. reflexivity.
Qed.

Lemma third_party_loop_logs (first n : nat) :
  logs link_watch W
    (for_each_guarded HLink
       (fun i =>
          let* href := call (GetHref (NthLink i)) in
          match href with
          | Some h =>
              if Py.truthy h then
                match third_party_match h with
                | Some _ => emit (Found 1 h) >> ret (Some h)
                | None => ret None
                end
              else ret None
          | None => ret None
          end)
       (seq first n))
    (scanned_links first n).
Proof.
  revert first. induction n as [|n IH]; intros first;
    cbn [seq for_each_guarded].
  - eapply logs_weaken; [apply logs_ret|].
    intros r made [-> ->]. exists 0. repeat split. lia.
  - apply logs_bind
      with (P := fun r made =>
                   match r with
                   | Ok (Some _) => made = [(first, true)]
                   | Ok None => exists b, made = [(first, b)]
                   | Raise _ => False
                   end).
    + eapply logs_try; [apply third_party_body_logs| |].
      * intros [u|] t1 ->; [reflexivity | now exists true].
      * intros e t1 ->.
        eapply logs_weaken; [apply logs_emit_ret|].
        intros r made [-> ->]. now exists false.
    + intros [u|] t1 H.
      * eapply logs_weaken; [apply logs_ret|].
        intros r made [-> ->]. subst t1. exists 1.
        split; [lia|]. split; [reflexivity|]. exists [].
        replace (first + 1 - 1) with first by lia. reflexivity.
      * destruct H as [b ->]. eapply logs_weaken; [apply IH|].
        intros r made (k & Hk & Hm & Hr). exists (S k).
        split; [lia|]. split; [cbn [app map fst seq]; now rewrite Hm|].
        destruct r as [[u|]|e]; [|lia|exact Hr].
        destruct Hr as [pre ->]. exists ((first, b) :: pre).
        replace (first + S k - 1) with (S first + k - 1) by lia.
        reflexivity.
    + intros e t1 [].
Qed.

Lemma third_party_scan_links (n : nat) (w : state W) :
  scanned_links 0 n
    (run_result (third_party_scan (W := logged link_watch W) n) (w, []))
    (calls_made (third_party_scan (W := logged link_watch W) n) w).
Proof.
  destruct (third_party_loop_logs 0 n (w, []) []) as (made & E & H).
  cbn [snd app] in E. unfold calls_made, run_result, third_party_scan.
  rewrite E. exact H.
Qed.

End LinkScan.

Section Clicks.
Context (W : World).

Lemma for_each_guarded_at_most_once {T A}
  (watch : forall B, request B -> option T) h
  (body : A -> @M (logged watch W) (option string)) (xs : list A) :
  (forall x, logs watch W (body x) (fun _ made => List.length made <= 1)) ->
  logs watch W (for_each_guarded h body xs)
    (fun _ made => List.length made <= List.length xs).
Proof.
  intros Hb. induction xs as [|x xs IH]; cbn [for_each_guarded List.length].
  - eapply logs_weaken; [apply logs_ret|]. intros r made [_ ->]. simpl. lia.
  - apply logs_bind with (P := fun _ made => List.length made <= 1).
    + eapply logs_try; [apply Hb| |].
      * intros a t1 H. exact H.
      * intros e t1 H. eapply logs_weaken; [apply logs_emit_ret|].
        intros r made [_ ->]. now rewrite app_nil_r.
    + intros [u|] t1 H.
      * eapply logs_weaken; [apply logs_ret|].
        intros r made [_ ->]. cbv beta in H. rewrite app_nil_r. lia.
      * eapply logs_weaken; [apply IH|].
        intros r made Hm. cbv beta in Hm, H. rewrite length_app. lia.
    + intros e t1 H. cbv beta in H. lia.
Qed.

Ltac quiet_step :=
  apply logs_bind with (P := fun _ made => made = []);
  [ apply logs_keeps; keeps_tac
  | intros ? ? ->; cbn [app]
  | intros ? ? ->; simpl; lia ].

Lemma strategy_search_clicks (company_name : string) :
  logs click_watch W
    (strategy_search (W := logged click_watch W) company_name)
    (fun _ made => List.length made <= 5).
Proof.
  unfold strategy_search, goto.
  eapply logs_try;
    [apply (for_each_guarded_at_most_once click_watch HQuery) | |].
  - intros query. do 3 quiet_step.
    match goal with |- logs _ _ (if ?b then _ else _) _ => destruct b end.
    2:{ eapply logs_weaken; [apply logs_ret|].
        intros r made [_ ->]. simpl. lia. }
    quiet_step.
    apply logs_bind with (P := fun r made => made = [(tt, is_ok r)]).
    + now apply logs_call.
    + intros [] t1 ->.
      eapply logs_weaken;
        [apply (logs_keeps click_watch W); keeps_tac|].
      intros r made ->. simpl. lia.
    + intros e t1 ->. simpl. lia.
  - intros a t1 H. exact H.
  - intros e t1 H.
    eapply logs_weaken; [apply logs_emit_ret|].
    intros r made [_ ->]. now rewrite app_nil_r.
Qed.

Lemma find_career_page_clicks (base_url company_name : string) :
  logs click_watch W
    (find_career_page (W := logged click_watch W) base_url company_name)
    (fun _ made => List.length made <= 5).
Proof.
  unfold find_career_page.
  quiet_step.
  apply logs_bind with (P := fun _ made => made = []);
    [ apply logs_keeps; unfold check_subdomain_urls, goto; keeps_tac
    | intros sub ? ->; cbn [app]
    | intros ? ? ->; simpl; lia ].
  destruct (Py.truthy_opt sub).
  { eapply logs_weaken; [apply logs_ret|]. intros r made [_ ->]. simpl. lia. }
  apply logs_bind with (P := fun _ made => made = []);
    [ apply logs_keeps;
      unfold homepage_strategies, strategy_navigation, third_party_scan,
        navigation_menus, strategy_footer, strategy_full_page,
        career_link_scan, goto; keeps_tac
    | intros r1 ? ->; cbn [app]
    | intros ? ? ->; simpl; lia ].
  destruct r1 as [u|].
  { eapply logs_weaken; [apply logs_ret|]. intros r made [_ ->]. simpl. lia. }
  quiet_step.
  apply logs_bind with (P := fun _ made => made = []);
    [ apply logs_keeps; unfold strategy_direct, goto; keeps_tac
    | intros r4 ? ->; cbn [app]
    | intros ? ? ->; simpl; lia ].
  destruct r4 as [u|].
  { eapply logs_weaken; [apply logs_ret|]. intros r made [_ ->]. simpl. lia. }
  quiet_step.
  eapply logs_bind; [apply strategy_search_clicks| |].
  - intros r5 t5 H5. destruct r5 as [u|];
      (eapply logs_weaken; [apply logs_ret|]);
      intros r made [_ ->]; now rewrite app_nil_r.
  - intros e t5 H5. exact H5.
Qed.

(** X1.  The URLs that a run passes to [page.goto] are an initial part
    of the itinerary - the subdomain candidates in catalog order, the
    homepage, the direct URL patterns in catalog order (repeated entries
    included), the search queries in order: no URL outside it is passed
    and none is skipped.  A run that returns nothing has gone through
    all of it.  No run makes more than 80 such calls.  The only other
    page loads are those of the clicks on a search result in strategy 5,
    at most 5 in a run; their targets are the browser's. *)
Theorem navigations_follow_itinerary (base_url company_name : string)
  (w : state W) :
  (exists rest,
     itinerary base_url company_name
     = navigations (run_trace (find_career_page base_url company_name) w)
       ++ rest) /\
  (run_result (find_career_page base_url company_name) w = Ok None ->
   navigations (run_trace (find_career_page base_url company_name) w)
   = itinerary base_url company_name) /\
  List.length
    (navigations (run_trace (find_career_page base_url company_name) w))
  <= 80 /\
  List.length
    (calls_made (find_career_page (W := logged click_watch W)
                   base_url company_name) w)
  <= 5.
Proof.
  pose proof (sat_run _ _ w
                (find_career_page_itinerary base_url company_name)) as H.
  fold (run_result (find_career_page base_url company_name) w) in H.
  fold (run_trace (find_career_page base_url company_name) w) in H.
  pose proof (itinerary_length base_url company_name) as HL.
  assert (P : exists rest,
            itinerary base_url company_name
            = navigations (run_trace (find_career_page base_url company_name)
                             w) ++ rest).
  { destruct (run_result (find_career_page base_url company_name) w)
      as [[u|]|e]; simpl in H; [exact H | | exact H].
    exists []. now rewrite app_nil_r. }
  split; [exact P|]. split; [|split].
  - intros Hr. now rewrite Hr in H.
  - destruct P as [rest E]. rewrite E, length_app in HL. lia.
  - destruct (find_career_page_clicks base_url company_name (w, []) [])
      as (made & E & Hm).
    unfold calls_made. cbn [snd app] in E. rewrite E. exact Hm.
Qed.

End Clicks.

Section ErrorTheorems.
Context {W : World}.

(** C3 (amended).  Where errors are suppressed, and what follows.

    Strategies 1 to 3 share one handler: once strategy 1 is entered no
    exception leaves [find_career_page], and unless one of strategies 1
    to 3 yields a URL the run goes on with strategy 4; unless strategy 4
    yields, with strategy 5.  A run that finds nothing has entered
    strategy 0, then strategy 1 and, as far as the common handler let it
    get, strategies 2 and 3, then strategies 4 and 5, and has navigated
    to every candidate of strategies 0, 4 and 5.

    Strategy 0 suppresses errors per candidate: it navigates to its
    candidates in order, to all of them when it returns nothing, and
    when it raises - launching or closing its browser failed - to none
    or to all.  Strategies 4 and 5 do the same and never raise.

    The third-party scan of strategy 1 suppresses errors per link: it
    never raises, asks the links in order whether or not the calls
    succeed, all of them when it returns nothing, and returns an href
    only straight after the successful call that gave it. *)
Theorem errors_fall_through (base_url company_name : string) (w : state W) :
  (In 1 (entered (run_trace (find_career_page base_url company_name) w)) ->
   returns (run_result (find_career_page base_url company_name) w) /\
   ((exists k u,
       k <= 3 /\
       yields k u (run_trace (find_career_page base_url company_name) w)) \/
    In 4 (entered (run_trace (find_career_page base_url company_name) w)))) /\
  (In 4 (entered (run_trace (find_career_page base_url company_name) w)) ->
   (exists u,
      yields 4 u (run_trace (find_career_page base_url company_name) w)) \/
   In 5 (entered (run_trace (find_career_page base_url company_name) w))) /\
  (run_result (find_career_page base_url company_name) w = Ok None ->
   (exists h,
      homepage_prefix h /\
      entered (run_trace (find_career_page base_url company_name) w)
      = 0 :: h ++ [4; 5]) /\
   all_candidates_tried base_url company_name
     (run_trace (find_career_page base_url company_name) w)) /\
  (stops_within (subdomain_candidates base_url)
     (run_result (check_subdomain_urls base_url company_name) w)
     (run_trace (check_subdomain_urls base_url company_name) w) /\
   forall e,
     run_result (check_subdomain_urls base_url company_name) w = Raise e ->
     navigations (run_trace (check_subdomain_urls base_url company_name) w)
     = [] \/
     navigations (run_trace (check_subdomain_urls base_url company_name) w)
     = subdomain_candidates base_url) /\
  (returns (run_result (strategy_direct base_url) w) /\
   stops_within (direct_candidates base_url)
     (run_result (strategy_direct base_url) w)
     (run_trace (strategy_direct base_url) w)) /\
  (returns (run_result (strategy_search company_name) w) /\
   stops_within (search_candidates company_name)
     (run_result (strategy_search company_name) w)
     (run_trace (strategy_search company_name) w)) /\
  (forall n,
     scanned_links 0 n
       (run_result (third_party_scan (W := logged link_watch W) n) (w, []))
       (calls_made (third_party_scan (W := logged link_watch W) n) w)).
Proof.
  pose proof (sat_run _ _ w (find_career_page_spec base_url company_name)) as H.
  pose proof (sat_run _ _ w (find_career_page_cover base_url company_name)) as C.
  fold (run_result (find_career_page base_url company_name) w) in H, C.
  fold (run_trace (find_career_page base_url company_name) w) in H, C.
  assert (Chain :
    (In 1 (entered (run_trace (find_career_page base_url company_name) w)) ->
     returns (run_result (find_career_page base_url company_name) w) /\
     ((exists k u,
         k <= 3 /\
         yields k u (run_trace (find_career_page base_url company_name) w)) \/
      In 4 (entered (run_trace (find_career_page base_url company_name) w))))
    /\
    (In 4 (entered (run_trace (find_career_page base_url company_name) w)) ->
     (exists u,
        yields 4 u (run_trace (find_career_page base_url company_name) w)) \/
     In 5 (entered (run_trace (find_career_page base_url company_name) w)))
    /\
    (run_result (find_career_page base_url company_name) w = Ok None ->
     (exists h,
        homepage_prefix h /\
        entered (run_trace (find_career_page base_url company_name) w)
        = 0 :: h ++ [4; 5]) /\
     all_candidates_tried base_url company_name
       (run_trace (find_career_page base_url company_name) w))).
  { destruct (run_result (find_career_page base_url company_name) w)
      as [[u0|]|e]; simpl in H.
    - destruct H as (k & Hy & Hr & _). split; [|split]; [| |discriminate].
      + intros _. split; [now exists (Some u0)|].
        destruct Hr as [[Hk _]|(h & _ & [[-> ->]|[-> ->]])].
        * left. now exists k, u0.
        * right. simpl. rewrite in_app_iff. simpl. tauto.
        * right. simpl. rewrite in_app_iff. simpl. tauto.
      + intros H4. destruct Hr as [[Hk E]|(h & _ & [[-> ->]|[-> ->]])].
        * exfalso. rewrite E in H4. apply in_seq in H4. lia.
        * left. now exists u0.
        * right. simpl. rewrite in_app_iff. simpl. tauto.
    - destruct H as (_ & h & Hh & E). rewrite E.
      assert (H4 : In 4 (0 :: h ++ [4; 5]))
        by (simpl; rewrite in_app_iff; simpl; tauto).
      assert (H5 : In 5 (0 :: h ++ [4; 5]))
        by (simpl; rewrite in_app_iff; simpl; tauto).
      split; [|split].
      + intros _. split; [now exists None | now right].
      + intros _. now right.
      + intros _. split; [now exists h | auto].
    - destruct H as (_ & ->). split; [|split]; [| |discriminate].
      + simpl. intros [H1|[]]. discriminate H1.
      + simpl. intros [H4|[]]. discriminate H4. }
  destruct Chain as (C1 & C2 & C3).
  split; [exact C1|]. split; [exact C2|]. split; [exact C3|].
  split; [|split; [|split]].
  - split.
    + exact (sat_run _ _ w
               (check_subdomain_urls_itinerary base_url company_name)).
    + intros e He.
      pose proof (sat_run _ _ w
                    (check_subdomain_urls_raise base_url company_name)) as R.
      fold (run_result (check_subdomain_urls base_url company_name) w) in R.
      rewrite He in R. exact (proj2 R).
  - pose proof (sat_run _ _ w (strategy_direct_itinerary base_url)) as [S R].
    split; [exact R | exact S].
  - pose proof (sat_run _ _ w (strategy_search_itinerary company_name))
      as [S R].
    split; [exact R | exact S].
  - intros n. apply third_party_scan_links.
Qed.

End ErrorTheorems.

Lemma errors_fall_through_witness :
  all_candidates_tried "https://acme.com" "Acme"
    (run_trace (find_career_page (W := scripted hover_fails_site)
                  "https://acme.com" "Acme") tt).
Proof.
  pose proof (errors_fall_through (W := scripted hover_fails_site)
                "https://acme.com" "Acme" tt) as (_ & _ & H & _).
  refine (proj2 (H _)). vm_compute. reflexivity.
Defined.

(** On a homepage whose first link cannot be read the scan goes on to
    the second link and returns its href. *)
Lemma broken_link_is_passed_over :
  run_result (third_party_scan
                (W := logged link_watch (scripted broken_link_site)) 2)
    (tt, [])
  = Ok (Some "//jobs.lever.co/acme") /\
  calls_made (third_party_scan
                (W := logged link_watch (scripted broken_link_site)) 2) tt
  = [ (0, false); (1, true) ].
Proof. split; vm_compute; reflexivity. Qed.

(** A row that stops after the name: the run raises before a page is
    opened, with the session open and nothing recorded. *)
Lemma short_row_leaves_session_open :
  fst (fst (fst (OnFiles.process_companies
                   (W := logged session_watch (scripted hover_fails_site))
                   short_row None (tt, []))))
  = Raise (Error "AttributeError") /\
  snd (snd (fst (fst (OnFiles.process_companies
                        (W := logged session_watch
                                (scripted hover_fails_site))
                        short_row None (tt, [])))))
  = [ (SOpen, true) ].
Proof. split; vm_compute; reflexivity. Qed.
